(** * hl2mp-maps-downloader: a shallow embedding of the synchronisation core

    The development follows [src/main.cpp] and [src/main.hpp].  Pure helpers
    are Rocq functions over [list ascii]; code that touches the file system,
    the network, the log sinks or the cancellation flag threads an explicit
    world and takes the answers of the environment as arguments. *)

From Stdlib Require Import List Bool Ascii String ZArith Lia Arith PeanoNat.
From Stdlib Require Import DecimalString DecimalPos.
Import ListNotations.

Local Open Scope Z_scope.

(* ================================================================== *)
(** * Part I: the embedding *)
(* ================================================================== *)

(** ** std::string *)

(** A [std::string] is its sequence of chars. *)
Abbreviation str := (list ascii).

Definition lit (s : string) : str := list_ascii_of_string s.

Definition str_eqb (a b : str) : bool :=
  if list_eq_dec ascii_dec a b then true else false.

Definition empty (s : str) : bool :=
  match s with [] => true | _ :: _ => false end.

(** [std::isspace] in the "C" locale (the program never calls setlocale):
    space, \t, \n, \v, \f, \r. *)
Definition isspace (c : ascii) : bool :=
  let n := nat_of_ascii c in
  (Nat.eqb n 32 || (Nat.leb 9 n && Nat.leb n 13))%bool.

(** [std::tolower] in the "C" locale: only 'A'..'Z' move. *)
Definition tolower (c : ascii) : ascii :=
  let n := nat_of_ascii c in
  if (Nat.leb 65 n && Nat.leb n 90)%bool then ascii_of_nat (n + 32) else c.

(** First loop of [trim]: erase the front while it is a space. *)
Fixpoint erase_front_spaces (s : str) : str :=
  match s with
  | [] => []
  | c :: s' => if isspace c then erase_front_spaces s' else s
  end.

(** Second loop of [trim]: pop the back while it is a space. *)
Definition pop_back_spaces (s : str) : str :=
  rev (erase_front_spaces (rev s)).

Definition trim (s : str) : str :=
  pop_back_spaces (erase_front_spaces s).

Definition lower_copy (s : str) : str := map tolower s.

(** [a.starts_with(p)], also the test [s.find(p) == 0]. *)
Fixpoint starts_with (p s : str) : bool :=
  match p, s with
  | [], _ => true
  | _ :: _, [] => false
  | a :: p', b :: s' => if ascii_dec a b then starts_with p' s' else false
  end.

(** [s.find(t)]: the first position at which [t] occurs, [None] for npos. *)
Fixpoint str_find (s t : str) : option nat :=
  if starts_with t s then Some O
  else match s with
       | [] => None
       | _ :: s' => option_map S (str_find s' t)
       end.

Definition contains (s t : str) : bool :=
  match str_find s t with Some _ => true | None => false end.

Definition ends_with (s suffix : str) : bool :=
  starts_with (rev suffix) (rev s).

Definition comma : ascii := ","%char.
Definition slash : ascii := "/"%char.

Definition is_char (c d : ascii) : bool :=
  if ascii_dec c d then true else false.

(** ** Filter engine (main.cpp 46-89) *)

(** The body executed at a comma and after the loop: trim [cur], push its
    lower-case copy unless it is empty. *)
Definition push_term (out : list str) (cur : str) : list str :=
  let cur' := trim cur in
  if empty cur' then out else out ++ [lower_copy cur'].

(** The [for (char ch : s)] loop of [split_csv_terms], returning [out] and
    the pending [cur]. *)
Fixpoint split_csv_loop (s : str) (cur : str) (out : list str)
  : list str * str :=
  match s with
  | [] => (out, cur)
  | ch :: s' =>
      if is_char ch comma
      then split_csv_loop s' [] (push_term out cur)
      else split_csv_loop s' (cur ++ [ch]) out
  end.

Definition split_csv_terms (s : str) : list str :=
  let s := trim s in
  if empty s then []
  else
    let '(out, cur) := split_csv_loop s [] [] in
    push_term out cur.

(** The include loop: true as soon as a non-empty term occurs in [name]. *)
Fixpoint any_term_found (name : str) (terms : list str) : bool :=
  match terms with
  | [] => false
  | t :: rest =>
      if empty t then any_term_found name rest
      else if contains name t then true
      else any_term_found name rest
  end.

Definition passes_filters (filename : str) (includes excludes : list str)
  : bool :=
  let name := lower_copy filename in
  if (negb (match includes with [] => true | _ => false end)
      && negb (any_term_found name includes))%bool
  then false
  else if (negb (match excludes with [] => true | _ => false end)
           && any_term_found name excludes)%bool
  then false
  else true.

(** The filter contract in the words of the specification: the raw string
    is split at commas, every piece is trimmed, empty pieces are dropped,
    and a token matches a filename when it occurs in it, letter case set
    aside.  Letter case is spelled out here on the char codes, without the
    case folding of the code: two chars are the same letter when they are
    equal or when one is a capital A to Z and the other the small letter
    32 codes above it. *)
Definition is_upper (c : ascii) : bool :=
  (Nat.leb 65 (nat_of_ascii c) && Nat.leb (nat_of_ascii c) 90)%bool.

Definition same_letter (c d : ascii) : bool :=
  (Nat.eqb (nat_of_ascii c) (nat_of_ascii d)
   || (is_upper c && Nat.eqb (nat_of_ascii d) (nat_of_ascii c + 32))
   || (is_upper d && Nat.eqb (nat_of_ascii c) (nat_of_ascii d + 32)))%bool.

(** [t] stands at the front of [s], and somewhere in [s], letter case set
    aside. *)
Fixpoint prefix_nocase (t s : str) : bool :=
  match t, s with
  | [], _ => true
  | _ :: _, [] => false
  | a :: t', b :: s' => (same_letter a b && prefix_nocase t' s')%bool
  end.

Fixpoint occurs_nocase (s t : str) : bool :=
  (prefix_nocase t s
   || match s with
      | [] => false
      | _ :: s' => occurs_nocase s' t
      end)%bool.

(** Two strings that differ in letter case only. *)
Definition same_nocase (a b : str) : Prop :=
  Forall2 (fun c d => same_letter c d = true) a b.

Fixpoint split_on_comma (s : str) : list str :=
  match s with
  | [] => [[]]
  | c :: s' =>
      if is_char c comma then [] :: split_on_comma s'
      else match split_on_comma s' with
           | p :: ps => (c :: p) :: ps
           | [] => [[c]]
           end
  end.

Definition spec_tokens (raw : str) : list str :=
  filter (fun t => negb (empty t)) (map trim (split_on_comma raw)).

Definition spec_matches (filename token : str) : Prop :=
  occurs_nocase filename token = true.

Definition spec_passes (filename include_spec exclude_spec : str) : Prop :=
  (spec_tokens include_spec = []
   \/ exists t, In t (spec_tokens include_spec) /\ spec_matches filename t)
  /\ (forall t, In t (spec_tokens exclude_spec) -> ~ spec_matches filename t).

(** Pieces of a split seen as terms: trimmed, empties dropped, lower-cased. *)
Definition terms_of (pieces : list str) : list str :=
  map lower_copy (filter (fun t => negb (empty t)) (map trim pieces)).

(** [w] glued in front of the first piece, and behind the last one. *)
Definition glue_front (w : str) (pieces : list str) : list str :=
  match pieces with
  | [] => [w]
  | p :: ps => (w ++ p) :: ps
  end.

Fixpoint glue_back (pieces : list str) (w : str) : list str :=
  match pieces with
  | [] => [w]
  | [p] => [p ++ w]
  | p :: ps => p :: glue_back ps w
  end.

(** ** Paths and numbers as text *)

(** [fs::path::filename()] with '/' as the only separator (POSIX): what
    follows the last separator, nothing when the path ends in one. *)
Fixpoint until_slash (s : str) : str :=
  match s with
  | [] => []
  | c :: s' => if is_char c slash then [] else c :: until_slash s'
  end.

Definition filename (p : str) : str := rev (until_slash (rev p)).

(** [std::to_string] on an int. *)
Definition to_string (z : Z) : str :=
  lit (NilZero.string_of_int (Z.to_int z)).

(** ** Log sinks (main.cpp 23-32) *)

Record LiveLog := mkLog {
  lines : list str;
  failures : list str
}.

Definition LiveLog_push (log : LiveLog) (s : str) : LiveLog :=
  let l := lines log ++ [s] in
  mkLog (if (800 <? List.length l)%nat then skipn 200 l else l) (failures log).

Definition LiveLog_fail (log : LiveLog) (s : str) : LiveLog :=
  let f := failures log ++ [s] in
  mkLog (lines log) (if (200 <? List.length f)%nat then skipn 50 f else f).

(** ** The world outside the process

    Regular files by path (directories are not tracked), the two log sinks,
    and the URLs on which [curl_easy_perform] has been run for a download.
    Whether a file opens, a rename or a copy works, what a transfer or a
    read returns and what the cancellation flag holds when it is loaded are
    answers of the environment, given to the functions below as arguments.
    A path is the string the operating system is handed. *)
Definition FS := str -> option str.

Definition fs_exists (fs : FS) (p : str) : bool :=
  match fs p with Some _ => true | None => false end.

Definition fs_write (fs : FS) (p : str) (content : str) : FS :=
  fun q => if str_eqb q p then Some content else fs q.

Definition fs_remove (fs : FS) (p : str) : FS :=
  fun q => if str_eqb q p then None else fs q.

Definition fs_copy (fs : FS) (src dst : str) : FS :=
  match fs src with
  | Some content => fs_write fs dst content
  | None => fs
  end.

(** [rename (src, dst)] that works: onto itself it does nothing. *)
Definition fs_rename (fs : FS) (src dst : str) : FS :=
  if str_eqb src dst then fs else fs_remove (fs_copy fs src dst) src.

(** [s.c_str ()] as a C function reads it: the chars before the first NUL.
    [fopen], [stat], [remove], [rename] and libcurl are handed that. *)
Definition nul : ascii := Ascii.zero.

Fixpoint c_str (s : str) : str :=
  match s with
  | [] => []
  | c :: s' => if is_char c nul then [] else c :: c_str s'
  end.

Record World := mkWorld {
  files : FS;
  log : LiveLog;
  requests : list str
}.

Definition set_files (w : World) (fs : FS) : World :=
  mkWorld fs (log w) (requests w).

Definition set_log (w : World) (l : LiveLog) : World :=
  mkWorld (files w) l (requests w).

Definition push (w : World) (s : str) : World :=
  set_log w (LiveLog_push (log w) s).

Definition fail (w : World) (s : str) : World :=
  set_log w (LiveLog_fail (log w) s).

(** ** Fetcher (main.cpp 420-479) *)

(** What the environment answers during one pass of the retry loop of
    [download_file], in program order. *)
Record DlAttempt := mkDlAttempt {
  dl_cancel_at_loop : bool;  (* cancel.load() in the loop condition *)
  dl_fopen_ok : bool;        (* fopen(tmp, "wb") returned a handle *)
  dl_curl_ok : bool;         (* code == CURLE_OK *)
  dl_status : Z;             (* CURLINFO_RESPONSE_CODE *)
  dl_received : str;         (* bytes the write callback put in the file *)
  dl_cancel_after : bool;    (* cancel.load() after the transfer *)
  dl_rename_ok : bool;       (* fs::rename left ec clear *)
  dl_copy_ok : bool;         (* fs::copy_file left ec clear *)
  dl_stale_removed : bool;   (* fs::remove of line 428 removed the file *)
  dl_part_removed : bool     (* fs::remove of line 461 or 466 did *)
}.

Definition status_2xx (a : DlAttempt) : bool :=
  (dl_curl_ok a && (200 <=? dl_status a) && (dl_status a <? 300))%bool.

(** Lines 457-462: rename, or copy over the destination and then remove;
    no outcome is looked at. *)
Definition publish (a : DlAttempt) (tmp out_file : str) (fs : FS) : FS :=
  if dl_rename_ok a then fs_rename fs tmp out_file
  else
    let fs := if dl_copy_ok a then fs_copy fs tmp out_file else fs in
    if dl_part_removed a then fs_remove fs tmp else fs.

Inductive LoopStep (A : Type) :=
| Return (r : bool) (w : A)
| Continue (w : A).
Arguments Return {A} r w.
Arguments Continue {A} w.

(** One pass of the loop body (lines 427-476), the loop condition on
    [cancel] included; [attempt <= retries] is the caller's.  The files
    are reached through [c_str ()], the log lines are built from the whole
    strings. *)
Definition download_attempt (a : DlAttempt) (url out_file : str)
  (retries attempt : Z) (w : World) : LoopStep World :=
  if dl_cancel_at_loop a then Return false w
  else
    let tmp_string := out_file ++ lit ".part" in
    let tmp := c_str tmp_string in
    let out := c_str out_file in
    let w := if (fs_exists (files w) tmp && dl_stale_removed a)%bool
             then set_files w (fs_remove (files w) tmp) else w in
    if negb (dl_fopen_ok a)
    then Return false
           (fail w (lit "[DL] Failed to open for writing: " ++ tmp_string))
    else
      let w := mkWorld (fs_write (files w) tmp (dl_received a)) (log w)
                       (requests w ++ [c_str url]) in
      if dl_cancel_after a then Return false w
      else if status_2xx a
      then Return true (set_files w (publish a tmp out (files w)))
      else
        let w := if dl_part_removed a
                 then set_files w (fs_remove (files w) tmp) else w in
        if attempt <? retries
        then Continue (push w (lit "[Retry " ++ to_string attempt ++ lit "/"
                               ++ to_string retries ++ lit "] "
                               ++ filename out_file))
        else Continue (fail w (lit "[DL] Failed: " ++ filename out_file
                               ++ lit " (" ++ url ++ lit ")")).

(** The loop [for (attempt = 1; attempt <= retries && !cancel; ++attempt)]:
    [left] counts the passes that remain, [retries - attempt + 1]. *)
Fixpoint download_attempts (env : Z -> DlAttempt) (url out_file : str)
  (retries : Z) (left : nat) (attempt : Z) (w : World) : bool * World :=
  match left with
  | O => (false, w)
  | S left' =>
      match download_attempt (env attempt) url out_file retries attempt w with
      | Return r w' => (r, w')
      | Continue w' =>
          download_attempts env url out_file retries left' (attempt + 1) w'
      end
  end.

(** [fs::create_directories] makes directories only, which [FS] does not
    track; the 250 ms sleep between attempts has no effect on the world. *)
Definition download_file (env : Z -> DlAttempt) (url out_file : str)
  (timeout_ms retries : Z) (w : World) : bool * World :=
  download_attempts env url out_file retries (Z.to_nat retries) 1 w.

(** An attempt that runs to its end without the cancellation flag being
    seen, and fails, resp. succeeds. *)
Definition attempt_fails (a : DlAttempt) : Prop :=
  dl_cancel_at_loop a = false /\ dl_fopen_ok a = true /\
  dl_cancel_after a = false /\ status_2xx a = false.

Definition attempt_publishes (a : DlAttempt) : Prop :=
  dl_cancel_at_loop a = false /\ dl_fopen_ok a = true /\
  dl_cancel_after a = false /\ status_2xx a = true.

(** ** Settings (main.hpp 48-62) and the settings form (main.cpp 944-1012) *)

Record Settings := mkSettings {
  hl2mp_path : str;
  threads : Z;
  decompress : bool;
  delete_bz2 : bool;
  index_timeout_ms : Z;
  head_timeout_ms : Z;
  dl_timeout_ms : Z;
  retries : Z;
  include_filters : str;
  exclude_filters : str
}.

(** The text fields of the settings form. *)
Record UiFields := mkUiFields {
  hl2mp_path_str : str;
  threads_str : str;
  include_filters_str : str;
  exclude_filters_str : str;
  idx_to_str : str;
  head_to_str : str;
  dl_to_str : str;
  retries_str : str
}.

Definition is_digit (c : ascii) : bool :=
  (Nat.leb 48 (nat_of_ascii c) && Nat.leb (nat_of_ascii c) 57)%bool.

Fixpoint atoi_digits (s : str) (acc : Z) : Z :=
  match s with
  | [] => acc
  | c :: s' =>
      if is_digit c
      then atoi_digits s' (10 * acc + (Z.of_nat (nat_of_ascii c) - 48))
      else acc
  end.

(** [std::clamp(v, lo, hi)]. *)
Definition clamp (v lo hi : Z) : Z :=
  if v <? lo then lo else if hi <? v then hi else v.

(** The number a text spells for [strtol (s, NULL, 10)]: leading white
    space, an optional sign, then digits up to the first other char; no
    digit gives 0. *)
Definition strtol_exact (s : str) : Z :=
  match erase_front_spaces s with
  | c :: s' =>
      if is_char c "-"%char then - atoi_digits s' 0
      else if is_char c "+"%char then atoi_digits s' 0
      else atoi_digits (c :: s') 0
  | [] => 0
  end.

Definition INT_MIN : Z := - 2 ^ 31.
Definition INT_MAX : Z := 2 ^ 31 - 1.
Definition LONG_MIN : Z := - 2 ^ 63.
Definition LONG_MAX : Z := 2 ^ 63 - 1.

(** The conversion of a [long] to [int]: the low 32 bits. *)
Definition to_int (z : Z) : Z := (z - INT_MIN) mod 2 ^ 32 + INT_MIN.

(** [std::atoi] returns an [int].  The C standard leaves its result
    undefined when the number does not fit; here it is what glibc computes
    on a 64-bit system, [(int) strtol (s, NULL, 10)]: [strtol] stops at the
    ends of [long], and the conversion keeps the low 32 bits. *)
Definition atoi (s : str) : Z :=
  to_int (clamp (strtol_exact s) LONG_MIN LONG_MAX).

(** A number that fits an [int]. *)
Definition fits_int (z : Z) : Prop := INT_MIN <= z <= INT_MAX.

(** The lambda [apply_ui_to_settings] (lines 1001-1012); the two check
    boxes write [decompress] and [delete_bz2] directly. *)
Definition apply_ui_to_settings (ui : UiFields) (s : Settings) : Settings :=
  mkSettings
    (trim (hl2mp_path_str ui))
    (Z.max 1 (atoi (trim (threads_str ui))))
    (decompress s)
    (delete_bz2 s)
    (Z.max 1000 (atoi (trim (idx_to_str ui))))
    (Z.max 1000 (atoi (trim (head_to_str ui))))
    (Z.max 5000 (atoi (trim (dl_to_str ui))))
    (clamp (atoi (trim (retries_str ui))) 0 20)
    (trim (include_filters_str ui))
    (trim (exclude_filters_str ui)).

(** ** Decompressor (main.cpp 481-538) *)

(** bzlib.h. *)
Definition BZ_OK : Z := 0.
Definition BZ_STREAM_END : Z := 4.
Definition BZ_DATA_ERROR : Z := -4.

(** One pass of the read loop as the environment answers it: the value of
    [cancel.load()] in the [while] condition, then the error code and the
    bytes that [BZ2_bzRead] hands back. *)
Record BzRead := mkBzRead {
  rd_cancel : bool;
  rd_err : Z;
  rd_data : str
}.

Record BzAttempt := mkBzAttempt {
  bz_cancel_at_loop : bool;  (* cancel.load() in the for condition *)
  bz_in_ok : bool;           (* fopen(bz2_file, "rb") returned a handle *)
  bz_out_ok : bool;          (* fopen(out_file, "wb") returned a handle *)
  bz_open_ok : bool;         (* bz && bzerr == BZ_OK after BZ2_bzReadOpen *)
  bz_reads : list BzRead;    (* the passes of the while loop *)
  bz_close_err : Z;          (* what BZ2_bzReadClose stores in bzerr *)
  bz_cancel_after : bool;    (* cancel.load() after the handles are closed *)
  bz_removed : bool          (* fs::remove of line 530 removed the file *)
}.

Definition fs_append (fs : FS) (p : str) (data : str) : FS :=
  match fs p with
  | Some content => fs_write fs p (content ++ data)
  | None => fs_write fs p data
  end.

(** The [while (!cancel.load())] loop (lines 510-519).  The list of reads
    ends with the one that leaves the loop; should it end before, the flag
    is taken as set. *)
Fixpoint read_loop (reads : list BzRead) (out_file : str) (bzerr : Z)
  (fs : FS) : Z * FS :=
  match reads with
  | [] => (bzerr, fs)
  | r :: rest =>
      if rd_cancel r then (bzerr, fs)
      else
        let bzerr := rd_err r in
        if ((bzerr =? BZ_OK) || (bzerr =? BZ_STREAM_END))%bool
        then
          let fs := if (0 <? List.length (rd_data r))%nat
                    then fs_append fs out_file (rd_data r) else fs in
          if bzerr =? BZ_STREAM_END then (bzerr, fs)
          else read_loop rest out_file bzerr fs
        else (bzerr, fs)
  end.

(** One pass of the retry loop (lines 483-535).  Opening the destination
    with "wb" creates or truncates it, also when the input fails to open.
    [BZ2_bzReadClose (&bzerr, bz)] overwrites [bzerr]: the tests that
    follow the loop see [bz_close_err].  The destination is opened and
    removed under the path the operating system is handed. *)
Definition decompress_attempt (a : BzAttempt) (bz2_file out_file : str)
  (retries attempt : Z) (w : World) : LoopStep World :=
  let out := c_str out_file in
  if bz_cancel_at_loop a then Return false w
  else
    let w := if bz_out_ok a
             then set_files w (fs_write (files w) out []) else w in
    if (negb (bz_in_ok a) || negb (bz_out_ok a))%bool
    then Return false (fail w (lit "[BZ2] Open failed: " ++ filename bz2_file))
    else if negb (bz_open_ok a)
    then Return false
           (fail w (lit "[BZ2] ReadOpen failed: " ++ filename bz2_file))
    else
      let '(bzerr, fs) := read_loop (bz_reads a) out BZ_OK (files w) in
      let bzerr := bz_close_err a in
      let w := set_files w fs in
      if bz_cancel_after a then Return false w
      else if ((bzerr =? BZ_STREAM_END) || (bzerr =? BZ_OK))%bool
      then Return true w
      else
        let w := if bz_removed a
                 then set_files w (fs_remove (files w) out) else w in
        if attempt =? retries
        then Return false (fail w (lit "[BZ2] Failed: " ++ filename bz2_file))
        else Continue w.

Fixpoint decompress_attempts (env : Z -> BzAttempt) (bz2_file out_file : str)
  (retries : Z) (left : nat) (attempt : Z) (w : World) : bool * World :=
  match left with
  | O => (false, w)
  | S left' =>
      match decompress_attempt (env attempt) bz2_file out_file retries
              attempt w with
      | Return r w' => (r, w')
      | Continue w' =>
          decompress_attempts env bz2_file out_file retries left'
            (attempt + 1) w'
      end
  end.

Definition decompress_bz2_to_file (env : Z -> BzAttempt)
  (bz2_file out_file : str) (retries : Z) (w : World) : bool * World :=
  decompress_attempts env bz2_file out_file retries (Z.to_nat retries) 1 w.



(** ** Listing indexer (main.cpp 373-395) *)

Definition back (s : str) : option ascii :=
  match rev s with c :: _ => Some c | [] => None end.

Definition back_is (s : str) (c : ascii) : bool :=
  match back s with Some d => is_char d c | None => false end.

Definition front_is (s : str) (c : ascii) : bool :=
  match s with d :: _ => is_char d c | [] => false end.

Definition url_join (base rel : str) : str :=
  if (starts_with (lit "http://") rel || starts_with (lit "https://") rel)%bool
  then rel
  else if empty base then rel
  else if (negb (empty base) && back_is base slash
           && negb (empty rel) && front_is rel slash)%bool
  then base ++ tl rel
  else if (negb (empty base) && negb (back_is base slash)
           && negb (empty rel) && negb (front_is rel slash))%bool
  then base ++ lit "/" ++ rel
  else base ++ rel.

(** The regular expression of line 383, with [icase]: the word href,
    spaces, an equals sign, spaces, a single or double quote, one or more
    chars that are neither quote (the capture), a single or double quote.
    No part of it can give back chars to the next one (a space is not an
    equals sign, the class excludes both quotes), so the leftmost match is
    found by one pass.  [match_href_at s] is the capture and what follows
    the match when the expression matches at the front of [s]. *)
Definition dquote : ascii := ascii_of_nat 34.
Definition squote : ascii := ascii_of_nat 39.

Definition is_quote (c : ascii) : bool :=
  (is_char c dquote || is_char c squote)%bool.

Fixpoint span_not_quote (s : str) : str * str :=
  match s with
  | [] => ([], [])
  | c :: s' =>
      if is_quote c then ([], s)
      else let '(a, b) := span_not_quote s' in (c :: a, b)
  end.

Definition match_href_at (s : str) : option (str * str) :=
  match s with
  | h :: r :: e :: f :: s1 =>
      if str_eqb (lower_copy [h; r; e; f]) (lit "href")
      then
        match erase_front_spaces s1 with
        | eq :: s2 =>
            if is_char eq "="%char
            then
              match erase_front_spaces s2 with
              | q :: s3 =>
                  if is_quote q
                  then
                    match span_not_quote s3 with
                    | ((_ :: _) as capture, _ :: s4) => Some (capture, s4)
                    | _ => None
                    end
                  else None
              | [] => None
              end
            else None
        | [] => None
        end
      else None
  | _ => None
  end.

(** [std::sregex_iterator]: leftmost match, then on from its end.  [skip]
    counts the chars of the last match that are still to be passed. *)
Fixpoint href_matches_from (skip : nat) (s : str) : list str :=
  match s with
  | [] => []
  | _ :: s' =>
      match skip with
      | S k => href_matches_from k s'
      | O =>
          match match_href_at s with
          | Some (capture, rest) =>
              capture
                :: href_matches_from (List.length s' - List.length rest) s'
          | None => href_matches_from O s'
          end
      end
  end.

Definition href_matches (html : str) : list str := href_matches_from O html.

(** [std::unique]: of every run of equal neighbours the first stays. *)
Fixpoint std_unique (l : list str) : list str :=
  match l with
  | a :: rest =>
      match rest with
      | b :: _ => if str_eqb a b then std_unique rest else a :: std_unique rest
      | [] => l
      end
  | [] => []
  end.

(** The body of the loop over the matches (lines 385-391). *)
Definition accept_href (base_url href : str) : option str :=
  let href := trim href in
  if empty href then None
  else if back_is href slash then None
  else
    let low := lower_copy href in
    if negb (ends_with low (lit ".bsp") || ends_with low (lit ".bz2"))%bool
    then None
    else Some (url_join base_url href).

Fixpoint collect_links (base_url : str) (hrefs : list str) : list str :=
  match hrefs with
  | [] => []
  | h :: rest =>
      match accept_href base_url h with
      | Some u => u :: collect_links base_url rest
      | None => collect_links base_url rest
      end
  end.

Definition extract_map_links_from_index_html (base_url html : str)
  : list str :=
  std_unique (collect_links base_url (href_matches html)).

(** ** Sources and availability (main.hpp 13-18, main.cpp 540-587) *)

Record SourceEntry := mkSource {
  url : str;
  enabled : bool;
  last_latency_ms : Z;
  last_ok : bool
}.

(** A [SourceEntry *] that is not null points into the vector [sources] of
    [main]: it is the position of the entry there. *)
Definition ptr := nat.

Definition default_source : SourceEntry := mkSource [] true (-1) false.

Definition deref (sources : list SourceEntry) (p : ptr) : SourceEntry :=
  nth p sources default_source.

Record SourceIndex := mkSourceIndex {
  src : option ptr;          (* nullptr is None *)
  links : list str
}.

(** [operator<] on [std::string]: by unsigned char, shorter first. *)
Fixpoint str_compare (a b : str) : comparison :=
  match a, b with
  | [], [] => Eq
  | [], _ :: _ => Lt
  | _ :: _, [] => Gt
  | c :: a', d :: b' =>
      match Ascii.compare c d with
      | Eq => str_compare a' b'
      | o => o
      end
  end.

(** [std::map<std::string, std::vector<SourceEntry *>>]: the entries in
    key order. *)
Definition AvailabilityMap := list (str * list ptr).

(** [m[name].push_back(p)]. *)
Fixpoint map_push (m : AvailabilityMap) (name : str) (p : ptr)
  : AvailabilityMap :=
  match m with
  | [] => [(name, [p])]
  | (k, v) :: m' =>
      match str_compare name k with
      | Eq => (k, v ++ [p]) :: m'
      | Lt => (name, [p]) :: m
      | Gt => (k, v) :: map_push m' name p
      end
  end.

(** [m.find(name)]. *)
Fixpoint map_find (m : AvailabilityMap) (name : str) : option (list ptr) :=
  match m with
  | [] => None
  | (k, v) :: m' =>
      match str_compare name k with
      | Eq => Some v
      | Lt => None
      | Gt => map_find m' name
      end
  end.

(** [m[name]] read: a missing key reads as (and in C++ becomes) an empty
    vector. *)
Definition map_at (m : AvailabilityMap) (name : str) : list ptr :=
  match map_find m name with Some v => v | None => [] end.

(** The guard of line 567, negated. *)
Definition contributes (sources : list SourceEntry) (si : SourceIndex)
  : bool :=
  match src si with
  | None => false
  | Some p => (enabled (deref sources p) && last_ok (deref sources p))%bool
  end.

Fixpoint register_links (m : AvailabilityMap) (p : ptr) (us : list str)
  : AvailabilityMap :=
  match us with
  | [] => m
  | u :: rest => register_links (map_push m (filename u) p) p rest
  end.

Fixpoint build_availability_from (m : AvailabilityMap)
  (sources : list SourceEntry) (indexed : list SourceIndex)
  : AvailabilityMap :=
  match indexed with
  | [] => m
  | si :: rest =>
      match src si with
      | Some p =>
          if (negb (enabled (deref sources p))
              || negb (last_ok (deref sources p)))%bool
          then build_availability_from m sources rest
          else build_availability_from (register_links m p (links si))
                 sources rest
      | None => build_availability_from m sources rest
      end
  end.

Definition build_availability (sources : list SourceEntry)
  (indexed : list SourceIndex) : AvailabilityMap :=
  build_availability_from [] sources indexed.

(** [x >= 0 ? x : 1'000'000] *)
Definition latency_or_sentinel (e : SourceEntry) : Z :=
  if 0 <=? last_latency_ms e then last_latency_ms e else 1000000.

Fixpoint pick_best_loop (sources : list SourceEntry) (best : option ptr)
  (srcs : list ptr) : option ptr :=
  match srcs with
  | [] => best
  | ssrc :: rest =>
      match best with
      | None => pick_best_loop sources (Some ssrc) rest
      | Some b =>
          let a := latency_or_sentinel (deref sources ssrc) in
          let b' := latency_or_sentinel (deref sources b) in
          pick_best_loop sources (if a <? b' then Some ssrc else best) rest
      end
  end.

(** [srcs] holds no null pointer: [build_availability] stores none. *)
Definition pick_best_source (sources : list SourceEntry) (srcs : list ptr)
  : option ptr :=
  pick_best_loop sources None srcs.

(** [s] is [l] with some entries left out, the order kept. *)
Inductive Subsequence : list str -> list str -> Prop :=
| sub_nil : Subsequence [] []
| sub_skip a s l : Subsequence s l -> Subsequence s (a :: l)
| sub_keep a s l : Subsequence s l -> Subsequence (a :: s) (a :: l).

(** What the entry of [name] holds, read off the index results: for every
    contributing result, in input order, its source once per link whose
    bare filename is [name]. *)
Definition has_name (name u : str) : bool := str_eqb (filename u) name.

Definition offers (name : str) (si : SourceIndex) : bool :=
  existsb (has_name name) (links si).

Definition members_of (sources : list SourceEntry) (name : str)
  (si : SourceIndex) : list ptr :=
  match src si with
  | Some p =>
      if contributes sources si
      then map (fun _ => p) (filter (has_name name) (links si))
      else []
  | None => []
  end.

Definition members (sources : list SourceEntry)
  (indexed : list SourceIndex) (name : str) : list ptr :=
  flat_map (members_of sources name) indexed.

Definition src_ptrs (indexed : list SourceIndex) : list ptr :=
  flat_map (fun si => match src si with Some p => [p] | None => [] end)
           indexed.

(** ** Run state (main.hpp 20-46) *)

Record HttpResult := mkHttpResult {
  status : Z;
  latency_ms : Z;
  body : str;
  err : str
}.

Record PhaseProgress := mkPhase {
  running : bool;
  done : Z;
  total : Z
}.

(** The [cancel] flag of [RunState] is written by the thread of the user
    interface; the run only reads it (after clearing it on entry), and what
    it reads is part of the environment. *)
Record RunState := mkRunState {
  existing_files : list str;
  indexing : PhaseProgress;
  downloading : PhaseProgress;
  decompressing : PhaseProgress;
  deleting : PhaseProgress;
  last_remote_unique : Z;
  last_remote_after_filters : Z;
  last_already_have : Z;
  last_to_download : Z
}.

(** Everything a run works on: the world, the vector [sources] of [main],
    and the run state. *)
Record Run := mkRun {
  world : World;
  run_sources : list SourceEntry;
  rs : RunState
}.

Definition with_world (f : World -> World) (st : Run) : Run :=
  mkRun (f (world st)) (run_sources st) (rs st).

Definition with_rs (f : RunState -> RunState) (st : Run) : Run :=
  mkRun (world st) (run_sources st) (f (rs st)).

Definition run_push (st : Run) (s : str) : Run :=
  with_world (fun w => push w s) st.

Definition run_fail (st : Run) (s : str) : Run :=
  with_world (fun w => fail w s) st.

Definition set_existing (e : list str) (r : RunState) : RunState :=
  mkRunState e (indexing r) (downloading r) (decompressing r) (deleting r)
    (last_remote_unique r) (last_remote_after_filters r)
    (last_already_have r) (last_to_download r).

Definition set_indexing (p : PhaseProgress) (r : RunState) : RunState :=
  mkRunState (existing_files r) p (downloading r) (decompressing r)
    (deleting r) (last_remote_unique r) (last_remote_after_filters r)
    (last_already_have r) (last_to_download r).

Definition set_downloading (p : PhaseProgress) (r : RunState) : RunState :=
  mkRunState (existing_files r) (indexing r) p (decompressing r)
    (deleting r) (last_remote_unique r) (last_remote_after_filters r)
    (last_already_have r) (last_to_download r).

Definition set_decompressing (p : PhaseProgress) (r : RunState) : RunState :=
  mkRunState (existing_files r) (indexing r) (downloading r) p
    (deleting r) (last_remote_unique r) (last_remote_after_filters r)
    (last_already_have r) (last_to_download r).

Definition set_deleting (p : PhaseProgress) (r : RunState) : RunState :=
  mkRunState (existing_files r) (indexing r) (downloading r)
    (decompressing r) p (last_remote_unique r) (last_remote_after_filters r)
    (last_already_have r) (last_to_download r).

Definition set_counts (unique after have todo : Z) (r : RunState)
  : RunState :=
  mkRunState (existing_files r) (indexing r) (downloading r)
    (decompressing r) (deleting r) unique after have todo.

(** [p.done.fetch_add (1)] and [p.running.store (false)]. *)
Definition add_done (p : PhaseProgress) : PhaseProgress :=
  mkPhase (running p) (done p + 1) (total p).

Definition stop (p : PhaseProgress) : PhaseProgress :=
  mkPhase false (done p) (total p).

Definition reset_phases (r : RunState) : RunState :=
  mkRunState (existing_files r) (mkPhase false 0 0) (mkPhase false 0 0)
    (mkPhase false 0 0) (mkPhase false 0 0)
    (last_remote_unique r) (last_remote_after_filters r)
    (last_already_have r) (last_to_download r).

(** ** Paths *)

Fixpoint until_dot (s : str) : option str :=
  match s with
  | [] => None
  | c :: s' =>
      if is_char c "."%char then Some []
      else option_map (cons c) (until_dot s')
  end.

(** [fs::path::extension()]: from the last dot of the filename on, unless
    that dot leads the filename or the filename is dot or dot-dot. *)
Definition extension (p : str) : str :=
  let f := filename p in
  if (str_eqb f (lit ".") || str_eqb f (lit ".."))%bool then []
  else
    match until_dot (rev f) with
    | None => []
    | Some r =>
        if Nat.eqb (S (List.length r)) (List.length f) then []
        else "."%char :: rev r
    end.

(** [p.replace_extension ("")]. *)
Definition remove_extension (p : str) : str :=
  firstn (List.length p - List.length (extension p)) p.

(** [a / b] for a relative [b]. *)
Definition path_append (a b : str) : str :=
  if front_is b slash then b
  else if (empty a || back_is a slash)%bool then a ++ b
  else a ++ slash :: b.

Definition is_map_file (p : str) : bool :=
  let ext := lower_copy (extension p) in
  (str_eqb ext (lit ".bsp") || str_eqb ext (lit ".bz2"))%bool.

(** ** Scan of the local maps (main.cpp 397-413) *)

(** [std::unordered_set]: [contains] and [insert]. *)
Definition set_contains (s : list str) (x : str) : bool :=
  existsb (str_eqb x) s.

Definition set_insert (s : list str) (x : str) : list str :=
  if set_contains s x then s else s ++ [x].

(** [found] are the regular files met under maps/ and download/maps/. *)
Definition scan_existing_maps (found : list str) (st : Run) : Run :=
  let names :=
    fold_left (fun acc p => if is_map_file p
                            then set_insert acc (filename p) else acc)
              found [] in
  run_push (with_rs (set_existing names) st)
    (lit "[i] Existing map files found: "
     ++ to_string (Z.of_nat (List.length names))).

(** ** Pipeline orchestrator (main.cpp 589-911)

    What a run meets outside the process.  In a parallel phase the
    admission loop launches the items up to the first one before which
    [cancel.load()] reads true; the launched items then take effect one
    after the other, in the order the environment gives (the launch order
    when every item ends before the next one is admitted).  The
    interleavings of the admission loop itself are the subject of the
    bounded-runner model below. *)
Record PipelineEnv := mkEnv {
  path_exists : bool;               (* fs::exists (s.hl2mp_path) *)
  mkdir_error : option str;         (* ec.message() of line 705, if ec *)
  scanned : list str;               (* files met by scan_existing_maps *)
  http_reply : ptr -> HttpResult;   (* http_get_text on that source *)
  http_ms : ptr -> Z;               (* the ms measured around it *)
  index_cancel : nat -> bool;       (* cancel.load() of line 768 / 655 *)
  index_order : list ptr -> list ptr;  (* order in which they end *)
  download_cancel : nat -> bool;    (* cancel.load() of line 823 *)
  download_order : list str -> list str;  (* likewise *)
  download_env : str -> Z -> DlAttempt;
  cancel_after_download : bool;     (* cancel.load() of line 849 *)
  listed_bz2 : list str;            (* regular files met at line 856 *)
  decompress_cancel : nat -> bool;  (* cancel.load() of line 875 *)
  decompress_order : list str -> list str;  (* likewise *)
  decompress_env : str -> Z -> BzAttempt;
  cancel_before_delete : bool;      (* cancel.load() of line 893 *)
  delete_cancel : nat -> bool;      (* cancel.load() of line 900 *)
  remove_error : str -> option str  (* dec.message() of line 902, if dec *)
}.

(** The items that an admission loop launches: the [i]-th item is launched
    unless the [cancel.load()] that follows the inner [while] reads true,
    and then the loop is left. *)
Fixpoint admitted {A : Type} (cancel : nat -> bool) (i : nat)
  (items : list A) : list A :=
  match items with
  | [] => []
  | x :: rest => if cancel i then [] else x :: admitted cancel (S i) rest
  end.

Definition bounded_for_each {A S : Type} (cancel : nat -> bool)
  (order : list A -> list A) (work : A -> S -> S) (items : list A) (st : S)
  : S :=
  fold_left (fun st x => work x st) (order (admitted cancel O items)) st.

Fixpoint update_source (p : ptr) (f : SourceEntry -> SourceEntry)
  (sources : list SourceEntry) : list SourceEntry :=
  match sources, p with
  | [], _ => []
  | e :: rest, O => f e :: rest
  | e :: rest, Datatypes.S p' => e :: update_source p' f rest
  end.

Definition enabled_ptrs (sources : list SourceEntry) : list ptr :=
  filter (fun p => enabled (deref sources p)) (seq 0 (List.length sources)).

(** The lambda [worker_index] (lines 731-757 and 618-644). *)
Definition worker_index (env : PipelineEnv) (p : ptr)
  (acc : Run * list SourceIndex) : Run * list SourceIndex :=
  let '(st, indexed) := acc in
  let r := http_reply env p in
  let ms := http_ms env p in
  let ok := (empty (err r) && (200 <=? status r) && (status r <? 400))%bool in
  let st := mkRun (world st)
              (update_source p
                 (fun e => mkSource (url e) (enabled e) ms ok)
                 (run_sources st))
              (rs st) in
  let u := url (deref (run_sources st) p) in
  let si_st :=
    if ok
    then
      let ls := extract_map_links_from_index_html u (body r) in
      (mkSourceIndex (Some p) ls,
       run_push st (lit "[+] " ++ u ++ lit " -> "
                    ++ to_string (Z.of_nat (List.length ls))
                    ++ lit " file(s) (" ++ to_string ms ++ lit "ms)"))
    else
      (mkSourceIndex (Some p) [],
       run_fail st (lit "[IDX] " ++ u ++ lit " failed ("
                    ++ (if empty (err r)
                        then lit "HTTP " ++ to_string (status r)
                        else err r)
                    ++ lit ")")) in
  let '(si, st) := si_st in
  (with_rs (fun r => set_indexing (add_done (indexing r)) r) st,
   indexed ++ [si]).

(** Lines 723-778 and 610-665. *)
Definition index_phase (env : PipelineEnv) (enabled : list ptr) (st : Run)
  : Run * list SourceIndex :=
  let st := with_rs (set_indexing
                       (mkPhase true 0 (Z.of_nat (List.length enabled))))
                    st in
  let st := run_push st (lit "[i] Indexing sources...") in
  let '(st, indexed) :=
    bounded_for_each (index_cancel env) (index_order env) (worker_index env)
      enabled (st, []) in
  (with_rs (fun r => set_indexing (stop (indexing r)) r) st, indexed).

(** ** Reconciliation (main.cpp 782-804 and 669-685) *)

Record Reconciliation := mkReconciliation {
  remote_after_filters : Z;
  already_have : Z;
  to_download : Z;
  to_get : list str
}.

Fixpoint reconcile_from (c : Reconciliation) (includes excludes : list str)
  (existing : list str) (availability : AvailabilityMap) : Reconciliation :=
  match availability with
  | [] => c
  | (name, srcs) :: rest =>
      if negb (passes_filters name includes excludes)
      then reconcile_from c includes excludes existing rest
      else if set_contains existing name
      then reconcile_from
             (mkReconciliation (remote_after_filters c + 1)
                (already_have c + 1) (to_download c) (to_get c))
             includes excludes existing rest
      else reconcile_from
             (mkReconciliation (remote_after_filters c + 1)
                (already_have c) (to_download c + 1) (to_get c ++ [name]))
             includes excludes existing rest
  end.

Definition reconcile (includes excludes : list str) (existing : list str)
  (availability : AvailabilityMap) : Reconciliation :=
  reconcile_from (mkReconciliation 0 0 0 []) includes excludes existing
    availability.

Definition store_counts (availability : AvailabilityMap)
  (c : Reconciliation) (st : Run) : Run :=
  with_rs (set_counts (Z.of_nat (List.length availability))
             (remote_after_filters c) (already_have c) (to_download c)) st.

Definition is_nil {A : Type} (l : list A) : bool :=
  match l with [] => true | _ :: _ => false end.

(** ** run_index_only (main.cpp 589-692) *)
Definition run_index_only (env : PipelineEnv) (s : Settings) (st : Run)
  : Run :=
  let st := with_rs reset_phases st in
  if (empty (hl2mp_path s) || negb (path_exists env))%bool
  then run_fail st (lit "[!] HL2MP path invalid.")
  else
    let st := scan_existing_maps (scanned env) st in
    let enabled := enabled_ptrs (run_sources st) in
    if is_nil enabled then run_fail st (lit "[!] No enabled sources.")
    else
      let includes := split_csv_terms (include_filters s) in
      let excludes := split_csv_terms (exclude_filters s) in
      let '(st, indexed) := index_phase env enabled st in
      let availability := build_availability (run_sources st) indexed in
      let c := reconcile includes excludes (existing_files (rs st))
                 availability in
      let st := store_counts availability c st in
      let st := run_push st (lit "[i] Index complete.") in
      let st := run_push st (lit "[i] Remote unique files: "
                  ++ to_string (Z.of_nat (List.length availability))) in
      let st := run_push st (lit "[i] After filters: "
                  ++ to_string (remote_after_filters c)) in
      let st := run_push st (lit "[i] Already present locally: "
                  ++ to_string (already_have c)) in
      run_push st (lit "[i] Would download: " ++ to_string (to_download c)).

(** ** run_pipeline (main.cpp 694-911) *)

(** The work item of the download phase (lines 826-844). *)
Definition worker_download (env : PipelineEnv) (s : Settings) (dl_dir : str)
  (availability : AvailabilityMap) (name : str) (st : Run) : Run :=
  let srcs := map_at availability name in
  let st :=
    match pick_best_source (run_sources st) srcs with
    | None => run_fail st (lit "[DL] No source for: " ++ name)
    | Some best =>
        let u := url_join (url (deref (run_sources st) best)) name in
        let out := path_append dl_dir name in
        let '(_, w) := download_file (download_env env name) u out
                         (dl_timeout_ms s) (retries s) (world st) in
        with_world (fun _ => w) st
    end in
  with_rs (fun r => set_downloading (add_done (downloading r)) r) st.

(** Lines 811-847. *)
Definition download_phase (env : PipelineEnv) (s : Settings) (dl_dir : str)
  (availability : AvailabilityMap) (names : list str) (st : Run) : Run :=
  let st := with_rs (set_downloading
                       (mkPhase true 0 (Z.of_nat (List.length names)))) st in
  let st := bounded_for_each (download_cancel env) (download_order env)
              (worker_download env s dl_dir availability) names st in
  with_rs (fun r => set_downloading (stop (downloading r)) r) st.

(** The work item of the decompression phase (lines 878-888): the result
    of [decompress_bz2_to_file] changes nothing in what follows. *)
Definition worker_decompress (env : PipelineEnv) (s : Settings) (bz2 : str)
  (st : Run) : Run :=
  let out := remove_extension bz2 in
  let '(_, w) := decompress_bz2_to_file (decompress_env env bz2) bz2 out
                   (retries s) (world st) in
  with_rs (fun r => set_decompressing (add_done (decompressing r)) r)
    (with_world (fun _ => w) st).

(** Lines 862-891. *)
Definition decompress_phase (env : PipelineEnv) (s : Settings)
  (bz2s : list str) (st : Run) : Run :=
  let st := with_rs (set_decompressing
                       (mkPhase true 0 (Z.of_nat (List.length bz2s)))) st in
  let st := run_push st (lit "[i] Decompressing .bz2: "
              ++ to_string (Z.of_nat (List.length bz2s))) in
  let st := bounded_for_each (decompress_cancel env) (decompress_order env)
              (worker_decompress env s) bz2s st in
  with_rs (fun r => set_decompressing (stop (decompressing r)) r) st.

(** The loop of lines 899-905. *)
Fixpoint delete_loop (env : PipelineEnv) (i : nat) (bz2s : list str)
  (st : Run) : Run :=
  match bz2s with
  | [] => st
  | bz2 :: rest =>
      if delete_cancel env i then st
      else
        let st :=
          match remove_error env bz2 with
          | Some msg =>
              run_fail st (lit "[DEL] " ++ filename bz2 ++ lit " -> " ++ msg)
          | None =>
              with_world
                (fun w => set_files w (fs_remove (files w) (c_str bz2))) st
          end in
        let st := with_rs (fun r => set_deleting (add_done (deleting r)) r)
                    st in
        delete_loop env (S i) rest st
  end.

(** Lines 894-906. *)
Definition delete_phase (env : PipelineEnv) (bz2s : list str) (st : Run)
  : Run :=
  let st := with_rs (set_deleting
                       (mkPhase true 0 (Z.of_nat (List.length bz2s)))) st in
  let st := run_push st (lit "[i] Deleting .bz2 files...") in
  let st := delete_loop env O bz2s st in
  with_rs (fun r => set_deleting (stop (deleting r)) r) st.

(** Lines 849-911: what follows the download phase. *)
Definition after_download (env : PipelineEnv) (s : Settings) (st : Run)
  : Run :=
  if cancel_after_download env then run_push st (lit "[i] Cancelled.")
  else
    let st :=
      if decompress s
      then
        let bz2s :=
          filter (fun p => str_eqb (lower_copy (extension p)) (lit ".bz2"))
                 (listed_bz2 env) in
        let st := decompress_phase env s bz2s st in
        if (delete_bz2 s && negb (cancel_before_delete env))%bool
        then delete_phase env bz2s st
        else st
      else st in
    run_push st (lit "[i] Done.").

Definition run_pipeline (env : PipelineEnv) (s : Settings) (st : Run)
  : Run :=
  let st := with_rs reset_phases st in
  if (empty (hl2mp_path s) || negb (path_exists env))%bool
  then run_fail st (lit "[!] HL2MP path invalid.")
  else
    let dl_dir :=
      path_append (path_append (hl2mp_path s) (lit "download")) (lit "maps")
    in
    match mkdir_error env with
    | Some msg =>
        run_fail st (lit "[!] Failed to create download/maps: " ++ msg)
    | None =>
        let st := scan_existing_maps (scanned env) st in
        let enabled := enabled_ptrs (run_sources st) in
        if is_nil enabled then run_fail st (lit "[!] No enabled sources.")
        else
          let includes := split_csv_terms (include_filters s) in
          let excludes := split_csv_terms (exclude_filters s) in
          let '(st, indexed) := index_phase env enabled st in
          let availability := build_availability (run_sources st) indexed in
          let c := reconcile includes excludes (existing_files (rs st))
                     availability in
          let st := store_counts availability c st in
          let st := run_push st (lit "[i] Remote unique files: "
                      ++ to_string (Z.of_nat (List.length availability))) in
          let st := run_push st (lit "[i] After filters: "
                      ++ to_string (remote_after_filters c)) in
          let st := run_push st (lit "[i] Already present locally: "
                      ++ to_string (already_have c)) in
          let st := run_push st (lit "[i] Unique maps to download: "
                      ++ to_string (to_download c)) in
          let st := download_phase env s dl_dir availability (to_get c) st in
          after_download env s st
    end.

(** The four summary counters agree. *)
Definition counts_agree (r : RunState) : Prop :=
  last_already_have r + last_to_download r = last_remote_after_filters r.

(** The run gets past its entry checks, to the reconciliation. *)
Definition index_only_reconciles (env : PipelineEnv) (s : Settings)
  (st : Run) : bool :=
  (negb (empty (hl2mp_path s)) && path_exists env
   && negb (is_nil (enabled_ptrs (run_sources st))))%bool.

Definition pipeline_reconciles (env : PipelineEnv) (s : Settings)
  (st : Run) : bool :=
  (index_only_reconciles env s st
   && match mkdir_error env with None => true | Some _ => false end)%bool.

Definition set_delete_bz2 (b : bool) (s : Settings) : Settings :=
  mkSettings (hl2mp_path s) (threads s) (decompress s) b
    (index_timeout_ms s) (head_timeout_ms s) (dl_timeout_ms s) (retries s)
    (include_filters s) (exclude_filters s).

(** The four summary counters of a run state. *)
Definition summary (st : Run) : Z * Z * Z * Z :=
  (last_remote_unique (rs st), last_remote_after_filters (rs st),
   last_already_have (rs st), last_to_download (rs st)).

Definition set_decompress (b : bool) (s : Settings) : Settings :=
  mkSettings (hl2mp_path s) (threads s) b (delete_bz2 s)
    (index_timeout_ms s) (head_timeout_ms s) (dl_timeout_ms s) (retries s)
    (include_filters s) (exclude_filters s).

(** ** Bounded task runner: the admission loop under interleaving
    (main.cpp 763-776, 818-846, 870-890; the same loop three times)

    The launching thread and the work items are followed step by step.
    The atomics are used with their default, sequentially consistent
    ordering, so a run is an interleaving of the steps below.  During a
    phase the flag [cancel] is only ever set: it is cleared on entry of a
    run and by the Start and Index buttons, which do nothing while a run
    is active. *)

(** Where the launching thread stands. *)
Inductive LauncherPc :=
| AtFor        (* head of the for loop over the items *)
| AtWhile      (* about to evaluate while (!cancel.load()) *)
| AtInFlight   (* in the while body, about to load the in-flight count *)
| AtIfCancel   (* past the while, about to evaluate if (cancel.load()) *)
| AtFetchAdd   (* about to fetch_add (1) *)
| AtAsync      (* about to hand the item to std::async *)
| AtWait.      (* the for loop is left; waiting for the futures *)

Record Runner := mkRunner {
  pc : LauncherPc;
  pending : nat;        (* items the for loop has not launched *)
  in_flight : Z;        (* the atomic counter *)
  in_body : nat;        (* launched items whose body has not returned *)
  at_fetch_sub : nat;   (* items past their body, before fetch_sub (1) *)
  finished : nat;       (* items that are through *)
  cancel : bool;        (* rs.cancel *)
  seen_cancel : bool    (* the launching thread has read cancel as set *)
}.

Definition launched (r : Runner) : nat :=
  (in_body r + at_fetch_sub r + finished r)%nat.

Definition runner_init (items : nat) (cancel0 : bool) : Runner :=
  mkRunner AtFor items 0 O O O cancel0 false.

Definition at_pc (l : LauncherPc) (r : Runner) : Runner :=
  mkRunner l (pending r) (in_flight r) (in_body r) (at_fetch_sub r)
    (finished r) (cancel r) (seen_cancel r).

Definition saw_cancel (r : Runner) : Runner :=
  mkRunner (pc r) (pending r) (in_flight r) (in_body r) (at_fetch_sub r)
    (finished r) (cancel r) true.

(** One step of the launching thread; [cap] is [std::max (1, s.threads)].
    At [AtWait] it only waits for the futures. *)
Definition launcher_step (cap : Z) (r : Runner) : option Runner :=
  match pc r with
  | AtFor =>
      match pending r with
      | O => Some (at_pc AtWait r)
      | S _ => Some (at_pc AtWhile r)
      end
  | AtWhile =>
      if cancel r then Some (saw_cancel (at_pc AtIfCancel r))
      else Some (at_pc AtInFlight r)
  | AtInFlight =>
      if in_flight r <? cap then Some (at_pc AtIfCancel r)   (* break *)
      else Some (at_pc AtWhile r)                            (* sleep *)
  | AtIfCancel =>
      if cancel r then Some (saw_cancel (at_pc AtWait r))    (* break *)
      else Some (at_pc AtFetchAdd r)
  | AtFetchAdd =>
      Some (mkRunner AtAsync (pending r) (in_flight r + 1) (in_body r)
              (at_fetch_sub r) (finished r) (cancel r) (seen_cancel r))
  | AtAsync =>
      Some (mkRunner AtFor (Nat.pred (pending r)) (in_flight r)
              (S (in_body r)) (at_fetch_sub r) (finished r) (cancel r)
              (seen_cancel r))
  | AtWait => None
  end.

(** A work item: its body returns, then it runs [fetch_sub (1)]. *)
Definition body_returns (r : Runner) : option Runner :=
  match in_body r with
  | S n =>
      Some (mkRunner (pc r) (pending r) (in_flight r) n
              (S (at_fetch_sub r)) (finished r) (cancel r) (seen_cancel r))
  | O => None
  end.

Definition fetch_sub (r : Runner) : option Runner :=
  match at_fetch_sub r with
  | S n =>
      Some (mkRunner (pc r) (pending r) (in_flight r - 1) (in_body r) n
              (S (finished r)) (cancel r) (seen_cancel r))
  | O => None
  end.

(** The Cancel button: [rs.cancel.store (true)]. *)
Definition user_cancels (r : Runner) : Runner :=
  mkRunner (pc r) (pending r) (in_flight r) (in_body r) (at_fetch_sub r)
    (finished r) true (seen_cancel r).

(** Who moves next. *)
Inductive Actor := Launcher | BodyReturns | FetchSub | UserCancels.

Definition runner_exec (cap : Z) (a : Actor) (r : Runner) : option Runner :=
  match a with
  | Launcher => launcher_step cap r
  | BodyReturns => body_returns r
  | FetchSub => fetch_sub r
  | UserCancels => Some (user_cancels r)
  end.

Definition runner_step (cap : Z) (r r' : Runner) : Prop :=
  exists a, runner_exec cap a r = Some r'.

(** A schedule is the list of the actors in the order in which they move. *)
Fixpoint runner_run (cap : Z) (schedule : list Actor) (r : Runner)
  : option Runner :=
  match schedule with
  | [] => Some r
  | a :: rest =>
      match runner_exec cap a r with
      | Some r' => runner_run cap rest r'
      | None => None
      end
  end.

Definition runner_reaches (cap : Z) (r0 r : Runner) : Prop :=
  exists schedule, runner_run cap schedule r0 = Some r.

(** What holds of every state of the loop. *)
Definition runner_inv (cap : Z) (r : Runner) : Prop :=
  in_flight r
  = Z.of_nat (in_body r) + Z.of_nat (at_fetch_sub r)
    + (match pc r with AtAsync => 1 | _ => 0 end)
  /\ in_flight r <= cap
  /\ (pc r = AtFetchAdd -> in_flight r < cap)
  /\ (pc r = AtIfCancel -> seen_cancel r = false -> in_flight r < cap)
  /\ (seen_cancel r = true ->
      cancel r = true /\ (pc r = AtIfCancel \/ pc r = AtWait)).

(** ** Sample inputs *)

Definition empty_world : World :=
  mkWorld (fun _ => None) (mkLog [] []) [].

Definition sample_url : str := lit "http://maps.example/dm_lockdown.bsp.bz2".

Definition sample_out : str := lit "hl2mp/download/maps/dm_lockdown.bsp.bz2".

(** A transfer that fails in transport while the user presses Cancel. *)
Definition cancelled_transfer (attempt : Z) : DlAttempt :=
  mkDlAttempt false true false 0 (lit "partial") true false false true true.

(** A transfer that completes with status 200 while the user presses
    Cancel. *)
Definition cancelled_success (attempt : Z) : DlAttempt :=
  mkDlAttempt false true true 200 (lit "BSP") true true true true true.

(** A server that answers 500 and then 200. *)
Definition flaky_server (attempt : Z) : DlAttempt :=
  if attempt =? 1
  then mkDlAttempt false true true 500 (lit "oops") false true true true true
  else mkDlAttempt false true true 200 (lit "BSP") false true true true true.

Definition sample_ui (retries_text : string) : UiFields :=
  mkUiFields (lit "hl2mp") (lit "4") [] [] (lit "8000") (lit "5000")
             (lit "30000") (lit retries_text).

Definition sample_settings : Settings :=
  mkSettings (lit "hl2mp") 4 true true 8000 5000 30000 3 [] [].

Definition sample_bz2 : str := lit "hl2mp/download/maps/dm_lockdown.bsp.bz2".

Definition sample_bsp : str := lit "hl2mp/download/maps/dm_lockdown.bsp".





(** A corrupt archive read through libbz2, whose [BZ2_bzReadClose] stores
    [BZ_OK] for a handle opened for reading. *)
Definition corrupt_archive (attempt : Z) : BzAttempt :=
  mkBzAttempt false true true true
    [mkBzRead false BZ_OK (lit "VB"); mkBzRead false BZ_DATA_ERROR []]
    BZ_OK false true.


(** Four mirrors: never timed, timed at 2,000,000 ms, at 30 ms and at
    1,000,000 ms. *)
Definition sample_sources : list SourceEntry :=
  [ mkSource (lit "http://a.example/maps/") true (-1) false;
    mkSource (lit "http://b.example/maps/") true 2000000 true;
    mkSource (lit "http://c.example/maps/") true 30 true;
    mkSource (lit "http://d.example/maps/") true 1000000 true ].

(** One mirror whose listing names the same map in two directories. *)
Definition one_mirror : list SourceEntry :=
  [ mkSource (lit "http://a.example/") true 30 true ].

Definition two_directories_html : str :=
  lit "<a href='hl2mp/dm_x.bsp'>1</a><a href='old/dm_x.bsp'>2</a>".

(** A listing that names a map again after another one. *)
Definition repeated_link_html : str :=
  lit "<a href='dm_a.bsp'>a</a><a href='dm_b.bsp'>b</a>"
  ++ lit "<a href='dm_a.bsp'>a</a>".

Definition index_of (sources : list SourceEntry) (p : ptr) (html : str)
  : SourceIndex :=
  mkSourceIndex (Some p)
    (extract_map_links_from_index_html (url (deref sources p)) html).

(** Two mirrors that both list dm_lockdown, one of them also dm_runoff;
    a third that is enabled but failed, a fourth that is disabled. *)
Definition four_mirrors : list SourceEntry :=
  [ mkSource (lit "http://a.example/") true 30 true;
    mkSource (lit "http://b.example/") true 200 true;
    mkSource (lit "http://c.example/") true 5000 false;
    mkSource (lit "http://d.example/") false 10 true ].

Definition four_indexed : list SourceIndex :=
  [ mkSourceIndex (Some 0%nat)
      [lit "http://a.example/dm_lockdown.bsp.bz2";
       lit "http://a.example/dm_runoff.bsp.bz2"];
    mkSourceIndex (Some 1%nat) [lit "http://b.example/dm_lockdown.bsp.bz2"];
    mkSourceIndex (Some 2%nat) [];
    mkSourceIndex (Some 3%nat) [lit "http://d.example/dm_lockdown.bsp.bz2"] ].

Definition listing_a : str :=
  lit "<a href='dm_lockdown.bsp.bz2'>l</a><a href='dm_runoff.bsp.bz2'>r</a>".

Definition listing_b : str :=
  lit "<html><A HREF='dm_lockdown.bsp.bz2'>dm_lockdown</A></html>".

(** A run in which mirrors a and b answer with a listing and mirror c
    times out (mirror d is disabled), dm_runoff is already in maps/, the
    download of dm_lockdown works, and the destination of its decompression
    cannot be opened. *)
Definition sample_env : PipelineEnv :=
  mkEnv true None [lit "hl2mp/maps/dm_runoff.bsp.bz2"]
    (fun p => match p with
              | O => mkHttpResult 200 28 listing_a []
              | S O => mkHttpResult 200 190 listing_b []
              | _ => mkHttpResult 0 8000 [] (lit "Timeout was reached")
              end)
    (fun p => match p with O => 28 | S O => 190 | _ => 8000 end)
    (fun _ => false) (fun l => l) (fun _ => false) (fun l => l)
    (fun _ _ =>
       mkDlAttempt false true true 200 (lit "BZh9") false true true true true)
    false
    [lit "hl2mp/download/maps/dm_lockdown.bsp.bz2"]
    (fun _ => false) (fun l => l)
    (fun _ _ => mkBzAttempt false true false false [] BZ_OK false true)
    false (fun _ => false) (fun _ => None).

Definition sample_run : Run :=
  mkRun
    (mkWorld (fun p => if str_eqb p (lit "hl2mp/maps/dm_runoff.bsp.bz2")
                       then Some (lit "BZh9") else None)
             (mkLog [] []) [])
    four_mirrors
    (mkRunState [] (mkPhase false 0 0) (mkPhase false 0 0)
       (mkPhase false 0 0) (mkPhase false 0 0) 0 0 0 0).

(** The loop after its first launch, two items given. *)
Definition one_launched : Runner :=
  mkRunner AtFor 1 1 1 O O false false.

(* ================================================================== *)
(** * Part I, continued: more of main.cpp *)
(* ================================================================== *)

(** ** normalize_maps_url (main.cpp 139-150) *)

Definition normalize_maps_url (url0 : str) : str :=
  let u := trim url0 in
  if empty u then u
  else if negb (back_is u slash) then u ++ [slash]
  else u.

Definition no_char (c : ascii) (s : str) : Prop :=
  forall d, In d s -> is_char d c = false.

Definition all_spaces (s : str) : bool := forallb isspace s.


(** A URL that [url_join] passes through unchanged. *)
Definition is_absolute (rel : str) : bool :=
  (starts_with (lit "http://") rel || starts_with (lit "https://") rel)%bool.

(** [s] without one slash at its end, resp. at its front, if it has one. *)
Definition strip_back_slash (s : str) : str :=
  if back_is s slash then removelast s else s.

Definition strip_front_slash (s : str) : str :=
  if front_is s slash then tl s else s.


(** ** Log sinks, continued: a history of calls (main.cpp 23-32) *)

Inductive LogOp :=
  | OpPush (s : str)
  | OpFail (s : str).

Definition LiveLog_apply (log : LiveLog) (op : LogOp) : LiveLog :=
  match op with
  | OpPush s => LiveLog_push log s
  | OpFail s => LiveLog_fail log s
  end.

(** The lines handed to [push], and to [fail], in call order. *)
Definition pushed (ops : list LogOp) : list str :=
  flat_map (fun op => match op with OpPush s => [s] | OpFail _ => [] end) ops.

Definition failed (ops : list LogOp) : list str :=
  flat_map (fun op => match op with OpFail s => [s] | OpPush _ => [] end) ops.

(** ** The settings form, continued (main.cpp 203-207, 944-995) *)

(** [default_threads], over the value of [hardware_concurrency]. *)
Definition default_threads (hc : Z) : Z :=
  if hc =? 0 then 4 else Z.max 1 (hc / 2).

(** The text fields as [main] fills them from the settings (lines
    944-952). *)
Definition ui_of_settings (hc : Z) (s : Settings) : UiFields :=
  mkUiFields
    (hl2mp_path s)
    (to_string (if 0 <? threads s then threads s else default_threads hc))
    (include_filters s)
    (exclude_filters s)
    (to_string (index_timeout_ms s))
    (to_string (head_timeout_ms s))
    (to_string (dl_timeout_ms s))
    (to_string (retries s)).

(** The assignments of the Save button (lines 981-991), before
    [save_settings]. *)
Definition save_button_settings (ui : UiFields) (s : Settings) : Settings :=
  mkSettings
    (trim (hl2mp_path_str ui))
    (Z.max 1 (atoi (trim (threads_str ui))))
    (decompress s)
    (delete_bz2 s)
    (Z.max 1000 (atoi (trim (idx_to_str ui))))
    (Z.max 500 (atoi (trim (head_to_str ui))))
    (Z.max 5000 (atoi (trim (dl_to_str ui))))
    (clamp (atoi (trim (retries_str ui))) 0 20)
    (trim (include_filters_str ui))
    (trim (exclude_filters_str ui)).

(** Value of a decimal numeral read left to right from [acc], as the digit
    loop of [atoi] accumulates it. *)
Fixpoint uint_acc (d : Decimal.uint) (acc : Z) : Z :=
  match d with
  | Decimal.Nil => acc
  | Decimal.D0 l => uint_acc l (10 * acc + 0)
  | Decimal.D1 l => uint_acc l (10 * acc + 1)
  | Decimal.D2 l => uint_acc l (10 * acc + 2)
  | Decimal.D3 l => uint_acc l (10 * acc + 3)
  | Decimal.D4 l => uint_acc l (10 * acc + 4)
  | Decimal.D5 l => uint_acc l (10 * acc + 5)
  | Decimal.D6 l => uint_acc l (10 * acc + 6)
  | Decimal.D7 l => uint_acc l (10 * acc + 7)
  | Decimal.D8 l => uint_acc l (10 * acc + 8)
  | Decimal.D9 l => uint_acc l (10 * acc + 9)
  end.

(** A settings record that the form can hold: every text field trimmed and
    every number within the bounds the form enforces. *)
Definition form_settings (s : Settings) : Prop :=
  trim (hl2mp_path s) = hl2mp_path s /\
  trim (include_filters s) = include_filters s /\
  trim (exclude_filters s) = exclude_filters s /\
  1 <= threads s /\
  1000 <= index_timeout_ms s /\
  1000 <= head_timeout_ms s /\
  5000 <= dl_timeout_ms s /\
  0 <= retries s <= 20.


(** ** Listing indexer, continued: shapes used in the statements *)

Definition no_quote (s : str) : Prop :=
  forall d, In d s -> is_quote d = false.

(** The text one match of the expression of line 383 covers, around the
    capture [c]: the word href in any case, white space, an equals sign,
    white space, a quote, [c], a quote. *)
Definition href_anchor (c m : str) : Prop :=
  exists h4 w1 w2 q1 q2,
    lower_copy h4 = lit "href" /\
    all_spaces w1 = true /\ all_spaces w2 = true /\
    is_quote q1 = true /\ is_quote q2 = true /\
    m = h4 ++ w1 ++ "="%char :: w2 ++ q1 :: c ++ [q2].

Fixpoint no_equal_neighbours (l : list str) : Prop :=
  match l with
  | a :: rest =>
      match rest with
      | b :: _ => a <> b /\ no_equal_neighbours rest
      | [] => True
      end
  | [] => True
  end.


(** ** Availability and reconciliation, continued: shapes used in the
    statements *)

(** The keys of a [std::map] stand in strictly increasing order. *)
Fixpoint keys_increasing (m : AvailabilityMap) : Prop :=
  match m with
  | [] => True
  | (k, _) :: rest =>
      Forall (fun e => str_compare k (fst e) = Lt) rest
      /\ keys_increasing rest
  end.

(** The tests of the reconciliation loop (lines 795-803). *)
Definition wanted (includes excludes : list str) (name : str) : bool :=
  passes_filters name includes excludes.

Definition missing (includes excludes existing : list str) (name : str)
  : bool :=
  (passes_filters name includes excludes
   && negb (set_contains existing name))%bool.

Definition present (includes excludes existing : list str) (name : str)
  : bool :=
  (passes_filters name includes excludes && set_contains existing name)%bool.


(** ** What a run leaves of the source list: shape used in the statements *)

(** [l'] has the entries of [l] with the same URLs and check marks, and
    every entry that is not enabled in [l] is the same in [l']. *)
Definition sources_kept (l l' : list SourceEntry) : Prop :=
  List.length l' = List.length l /\
  forall q : ptr,
    url (deref l' q) = url (deref l q) /\
    enabled (deref l' q) = enabled (deref l q) /\
    (enabled (deref l q) = false -> deref l' q = deref l q).


(** ** Decompressor, continued: a stream that decodes to its end *)



(** ** Phase progress: shape used in the statements *)



(** ** Bounded task runner, continued: counting the items *)




(** ** The Sources tab (main.cpp 1147-1369)

    The vector [sources] of [main] with the struct [sui] and the log, as
    the handlers of the tab see them.  The text of sources.json is not
    tracked: [saved] is the vector handed to the last [save_sources], and
    whether writing it throws is an answer of the environment. *)
Record SourcesUI := mkSourcesUI {
  ui_sources : list SourceEntry;
  selected : Z;
  scroll : Z;
  add_url : str;
  ui_log : LiveLog;
  saved : list SourceEntry
}.

(** [save_sources (sources, log)] (lines 184-201). *)
Definition save_sources (throws : bool) (ui : SourcesUI) : SourcesUI :=
  mkSourcesUI (ui_sources ui) (selected ui) (scroll ui) (add_url ui)
    (if throws
     then LiveLog_push (ui_log ui) (lit "[!] Failed to write sources.json")
     else ui_log ui)
    (ui_sources ui).

Definition ui_push (ui : SourcesUI) (s : str) : SourcesUI :=
  mkSourcesUI (ui_sources ui) (selected ui) (scroll ui) (add_url ui)
    (LiveLog_push (ui_log ui) s) (saved ui).

Definition set_sources (l : list SourceEntry) (ui : SourcesUI) : SourcesUI :=
  mkSourcesUI l (selected ui) (scroll ui) (add_url ui) (ui_log ui) (saved ui).

Definition set_selected (v : Z) (ui : SourcesUI) : SourcesUI :=
  mkSourcesUI (ui_sources ui) v (scroll ui) (add_url ui) (ui_log ui)
    (saved ui).

Definition set_scroll (v : Z) (ui : SourcesUI) : SourcesUI :=
  mkSourcesUI (ui_sources ui) (selected ui) v (add_url ui) (ui_log ui)
    (saved ui).

Definition set_add_url (t : str) (ui : SourcesUI) : SourcesUI :=
  mkSourcesUI (ui_sources ui) (selected ui) (scroll ui) t (ui_log ui)
    (saved ui).

(** [(int) sources.size ()]. *)
Definition size (ui : SourcesUI) : Z := Z.of_nat (List.length (ui_sources ui)).

(** [if (sources.empty ()) sui.selected = 0; else sui.selected =
    std::clamp (sui.selected, 0, (int) sources.size () - 1)]. *)
Definition reclamp (ui : SourcesUI) : SourcesUI :=
  if is_nil (ui_sources ui) then set_selected 0 ui
  else set_selected (clamp (selected ui) 0 (size ui - 1)) ui.

(** [std::find_if] on the URL, then [it->enabled = true]. *)
Definition has_url (u : str) (l : list SourceEntry) : bool :=
  existsb (fun e => str_eqb (url e) u) l.

Fixpoint enable_first (u : str) (l : list SourceEntry) : list SourceEntry :=
  match l with
  | [] => []
  | e :: rest =>
      if str_eqb (url e) u
      then mkSource (url e) true (last_latency_ms e) (last_ok e) :: rest
      else e :: enable_first u rest
  end.

(** The Add button (lines 1156-1177). *)
Definition add_btn (throws : bool) (ui : SourcesUI) : SourcesUI :=
  let u := normalize_maps_url (add_url ui) in
  if empty u then ui
  else
    let ui :=
      if negb (has_url u (ui_sources ui))
      then
        let ui := set_sources (ui_sources ui ++ [mkSource u true (-1) false])
                    ui in
        save_sources throws (ui_push ui (lit "[i] Added source: " ++ u))
      else
        let ui := set_sources (enable_first u (ui_sources ui)) ui in
        save_sources throws
          (ui_push ui (lit "[i] Source already exists, enabled: " ++ u)) in
    let ui := set_add_url [] ui in
    if negb (is_nil (ui_sources ui))
    then set_selected (clamp (selected ui) 0 (size ui - 1)) ui
    else ui.

(** [sources.erase (sources.begin () + i)]. *)
Definition erase_at (i : nat) (l : list SourceEntry) : list SourceEntry :=
  firstn i l ++ skipn (S i) l.

(** The Delete Selected button and the lambda [delete_selected] (lines
    1179-1188 and 1283-1292), which read alike. *)
Definition delete_selected (throws : bool) (ui : SourcesUI) : SourcesUI :=
  if is_nil (ui_sources ui) then ui
  else
    let ui := set_selected (clamp (selected ui) 0 (size ui - 1)) ui in
    let i := Z.to_nat (selected ui) in
    let ui := ui_push ui (lit "[i] Deleted source: "
                          ++ url (deref (ui_sources ui) i)) in
    let ui := set_sources (erase_at i (ui_sources ui)) ui in
    save_sources throws (reclamp ui).

(** The Delete Disabled button (lines 1190-1202). *)
Definition del_disabled_btn (throws : bool) (ui : SourcesUI) : SourcesUI :=
  let before := List.length (ui_sources ui) in
  let ui := set_sources (filter enabled (ui_sources ui)) ui in
  let ui :=
    if negb (Nat.eqb (List.length (ui_sources ui)) before)
    then save_sources throws (ui_push ui (lit "[i] Deleted disabled sources."))
    else ui in
  reclamp ui.

(** The lambda [toggle_selected] (lines 1294-1300). *)
Definition toggle_selected (throws : bool) (ui : SourcesUI) : SourcesUI :=
  if is_nil (ui_sources ui) then ui
  else
    let ui := set_selected (clamp (selected ui) 0 (size ui - 1)) ui in
    let i := Z.to_nat (selected ui) in
    let ui :=
      set_sources
        (update_source i
           (fun e => mkSource (url e) (negb (enabled e)) (last_latency_ms e)
                       (last_ok e))
           (ui_sources ui)) ui in
    save_sources throws ui.

(** Arrow up and wheel up, arrow down and wheel down (lines 1305-1318 and
    1344-1357). *)
Definition select_up (ui : SourcesUI) : SourcesUI :=
  if negb (is_nil (ui_sources ui))
  then set_selected (Z.max 0 (selected ui - 1)) ui
  else ui.

Definition select_down (ui : SourcesUI) : SourcesUI :=
  if negb (is_nil (ui_sources ui))
  then set_selected (Z.min (size ui - 1) (selected ui + 1)) ui
  else ui.

(** A left press inside the list box (lines 1320-1339): [row] is
    [m.y - sui.list_box.y_min], [on_del] the test on [m.x]. *)
Definition click_row (row : Z) (on_del throws : bool) (ui : SourcesUI)
  : SourcesUI :=
  if negb (is_nil (ui_sources ui))
  then
    let idx := scroll ui + row in
    if ((0 <=? idx) && (idx <? size ui))%bool
    then
      let ui := set_selected idx ui in
      if on_del then delete_selected throws ui else toggle_selected throws ui
    else ui
  else ui.

(** What the renderer of the panel does to [sui] (lines 1221-1228). *)
Definition list_height : Z := 18.

Definition render_list (ui : SourcesUI) : SourcesUI :=
  if negb (is_nil (ui_sources ui))
  then
    let ui := set_selected (clamp (selected ui) 0 (size ui - 1)) ui in
    let max_scroll := Z.max 0 (size ui - list_height) in
    let ui := set_scroll (clamp (scroll ui) 0 max_scroll) ui in
    let ui := if selected ui <? scroll ui
              then set_scroll (selected ui) ui else ui in
    if scroll ui + list_height <=? selected ui
    then set_scroll (selected ui - list_height + 1) ui
    else ui
  else ui.

(** What can happen to the tab. *)
Inductive UiEvent :=
  | EvType (text : str)               (* the input field is edited *)
  | EvAdd (throws : bool)
  | EvDeleteSelected (throws : bool)  (* the button, or Ctrl+D *)
  | EvDeleteDisabled (throws : bool)
  | EvToggle (throws : bool)          (* space or return *)
  | EvUp
  | EvDown
  | EvClick (row : Z) (on_del throws : bool)
  | EvRender.

Definition ui_step (ui : SourcesUI) (e : UiEvent) : SourcesUI :=
  match e with
  | EvType text => set_add_url text ui
  | EvAdd throws => add_btn throws ui
  | EvDeleteSelected throws => delete_selected throws ui
  | EvDeleteDisabled throws => del_disabled_btn throws ui
  | EvToggle throws => toggle_selected throws ui
  | EvUp => select_up ui
  | EvDown => select_down ui
  | EvClick row on_del throws => click_row row on_del throws ui
  | EvRender => render_list ui
  end.

(** The selection points into the list (or is 0 on an empty list), every
    URL is non-empty and ends in a slash, and the last save holds the
    list. *)
Definition ui_ok (ui : SourcesUI) : Prop :=
  0 <= selected ui <= Z.max 0 (size ui - 1) /\
  Forall (fun e => url e <> [] /\ back_is (url e) slash = true)
         (ui_sources ui) /\
  saved ui = ui_sources ui.


(* ================================================================== *)
(** * Part II: properties *)
(* ================================================================== *)

(** ** Strings *)

Example trim_both_ends :
  trim (lit "  dm_ , ctf  ") = lit "dm_ , ctf".
Proof. reflexivity. Qed.

Example filename_of_url :
  filename (lit "http://maps.example/hl2mp/dm_lockdown.bsp.bz2")
  = lit "dm_lockdown.bsp.bz2"
  /\ filename (lit "http://maps.example/hl2mp/") = [].
Proof. split; reflexivity. Qed.

Example extension_of_archive :
  extension (lit "maps/dm_lockdown.bsp.bz2") = lit ".bz2"
  /\ remove_extension (lit "maps/dm_lockdown.bsp.bz2")
     = lit "maps/dm_lockdown.bsp"
  /\ extension (lit "maps/.hidden") = [].
Proof. repeat split; reflexivity. Qed.

Example atoi_reads_digits :
  atoi (lit " 12 threads") = 12 /\ atoi (lit "-3") = -3 /\ atoi (lit "x") = 0.
Proof. repeat split; reflexivity. Qed.

Example to_string_of_int :
  to_string 250 = lit "250" /\ to_string 0 = lit "0"
  /\ to_string (-1) = lit "-1".
Proof. repeat split; reflexivity. Qed.

Lemma starts_with_spec (p s : str) :
  starts_with p s = true <-> exists post, s = p ++ post.
Proof.
  revert s; induction p as [|a p IH]; intros s; simpl.
  - split; [intros _; now exists s | reflexivity].
  - destruct s as [|b s].
    + split; [discriminate | intros [post H]; discriminate].
    + destruct (ascii_dec a b) as [->|Hab].
      * rewrite IH. split; intros [post H]; exists post.
        -- now rewrite H.
        -- now injection H.
      * split; [discriminate | intros [post H]; injection H; congruence].
Qed.

Lemma contains_spec (s t : str) :
  contains s t = true <-> exists pre post, s = pre ++ t ++ post.
Proof.
  unfold contains. induction s as [|c s IH].
  - simpl. destruct (starts_with t []) eqn:E.
    + split; [intros _|reflexivity].
      apply starts_with_spec in E as [post E]. now exists [], post.
    + split; [discriminate|]. intros [pre [post H]].
      destruct pre; simpl in H.
      * assert (starts_with t [] = true)
          by (apply starts_with_spec; now exists post).
        congruence.
      * discriminate.
  - cbn [str_find]. destruct (starts_with t (c :: s)) eqn:E.
    + split; [intros _|reflexivity].
      apply starts_with_spec in E as [post E]. now exists [], post.
    + destruct (str_find s t) eqn:F; simpl.
      * split; [intros _|reflexivity].
        destruct IH as [IH _]. destruct (IH eq_refl) as [pre [post H]].
        exists (c :: pre), post. simpl. now rewrite H.
      * split; [discriminate|]. intros [pre [post H]].
        destruct pre as [|d pre]; simpl in H.
        -- assert (starts_with t (c :: s) = true)
             by (apply starts_with_spec; now exists post).
           congruence.
        -- injection H as _ H. destruct IH as [_ IH].
           assert (false = true) by (apply IH; now exists pre, post).
           discriminate.
Qed.

Lemma isspace_not_comma (c : ascii) :
  isspace c = true -> is_char c comma = false.
Proof.
  unfold is_char. destruct (ascii_dec c comma) as [->|]; [|reflexivity].
  vm_compute. discriminate.
Qed.

Lemma erase_front_app_spaces (w s : str) :
  forallb isspace w = true ->
  erase_front_spaces (w ++ s) = erase_front_spaces s.
Proof.
  induction w as [|c w IH]; simpl; [reflexivity|].
  intros H. apply andb_true_iff in H as [Hc Hw]. rewrite Hc. auto.
Qed.

Lemma forallb_rev {A} (f : A -> bool) (l : list A) :
  forallb f (rev l) = forallb f l.
Proof.
  induction l as [|a l IH]; simpl; [reflexivity|].
  rewrite forallb_app, IH. simpl. rewrite andb_true_r. apply andb_comm.
Qed.

Lemma pop_back_app_spaces (s w : str) :
  forallb isspace w = true ->
  pop_back_spaces (s ++ w) = pop_back_spaces s.
Proof.
  intros H. unfold pop_back_spaces. rewrite rev_app_distr.
  rewrite erase_front_app_spaces; [reflexivity|]. now rewrite forallb_rev.
Qed.

Lemma erase_front_all_spaces (w : str) :
  forallb isspace w = true -> erase_front_spaces w = [].
Proof.
  intros H. rewrite <- (app_nil_r w). now rewrite erase_front_app_spaces.
Qed.

Lemma trim_app_front (w s : str) :
  forallb isspace w = true -> trim (w ++ s) = trim s.
Proof. intros H. unfold trim. now rewrite erase_front_app_spaces. Qed.

Lemma trim_app_back (s w : str) :
  forallb isspace w = true -> trim (s ++ w) = trim s.
Proof.
  intros H. unfold trim. induction s as [|c s IH]; simpl.
  - now rewrite erase_front_all_spaces.
  - destruct (isspace c); [exact IH|].
    change (c :: s ++ w) with ((c :: s) ++ w).
    now apply pop_back_app_spaces.
Qed.

Lemma erase_front_split (s : str) :
  exists w, forallb isspace w = true /\ s = w ++ erase_front_spaces s.
Proof.
  induction s as [|c s [w [Hw E]]]; simpl.
  - now exists [].
  - destruct (isspace c) eqn:Hc.
    + exists (c :: w). simpl. rewrite Hc, Hw. split; [reflexivity|].
      now rewrite <- E.
    + now exists [].
Qed.

Lemma pop_back_split (s : str) :
  exists w, forallb isspace w = true /\ s = pop_back_spaces s ++ w.
Proof.
  destruct (erase_front_split (rev s)) as [w [Hw E]].
  exists (rev w). rewrite forallb_rev. split; [exact Hw|].
  unfold pop_back_spaces. rewrite <- rev_app_distr, <- E.
  now rewrite rev_involutive.
Qed.

Lemma trim_split (s : str) :
  exists w1 w2,
    forallb isspace w1 = true /\ forallb isspace w2 = true /\
    s = w1 ++ trim s ++ w2.
Proof.
  destruct (erase_front_split s) as [w1 [H1 E1]].
  destruct (pop_back_split (erase_front_spaces s)) as [w2 [H2 E2]].
  exists w1, w2. repeat split; try assumption.
  unfold trim. now rewrite <- E2.
Qed.

(** ** Filter engine *)

Example split_csv_terms_example :
  split_csv_terms (lit " DM_ , ,ctf_2fort,, ") = [lit "dm_"; lit "ctf_2fort"].
Proof. reflexivity. Qed.

Example passes_filters_examples :
  passes_filters (lit "DM_Lockdown.bsp.bz2")
    (split_csv_terms (lit "dm_, ctf_")) (split_csv_terms (lit "")) = true
  /\ passes_filters (lit "DM_Lockdown.bsp.bz2")
       (split_csv_terms (lit "")) (split_csv_terms (lit "LOCK")) = false
  /\ passes_filters (lit "js_build.bsp")
       (split_csv_terms (lit "dm_, ctf_")) (split_csv_terms (lit "")) = false.
Proof. repeat split; reflexivity. Qed.

Lemma split_on_comma_nonempty (s : str) : split_on_comma s <> [].
Proof.
  destruct s as [|c s]; simpl; [discriminate|].
  destruct (is_char c comma); [discriminate|].
  destruct (split_on_comma s); discriminate.
Qed.

Lemma terms_of_cons (p : str) (ps : list str) :
  terms_of (p :: ps) = terms_of [p] ++ terms_of ps.
Proof.
  unfold terms_of. simpl. destruct (empty (trim p)); reflexivity.
Qed.

Lemma push_term_terms (out : list str) (cur : str) :
  push_term out cur = out ++ terms_of [cur].
Proof.
  unfold push_term, terms_of. simpl.
  destruct (empty (trim cur)); simpl; [now rewrite app_nil_r | reflexivity].
Qed.

Lemma split_csv_loop_terms (s cur : str) (out : list str) :
  push_term (fst (split_csv_loop s cur out)) (snd (split_csv_loop s cur out))
  = out ++ terms_of (glue_front cur (split_on_comma s)).
Proof.
  revert cur out. induction s as [|ch s IH]; intros cur out; simpl.
  - rewrite app_nil_r. apply push_term_terms.
  - destruct (is_char ch comma).
    + rewrite IH. simpl. rewrite app_nil_r.
      rewrite (terms_of_cons cur), push_term_terms, <- app_assoc.
      f_equal. f_equal.
      destruct (split_on_comma s) eqn:E;
        [now apply split_on_comma_nonempty in E|].
      reflexivity.
    + rewrite IH.
      destruct (split_on_comma s) eqn:E;
        [now apply split_on_comma_nonempty in E|].
      simpl. now rewrite <- app_assoc.
Qed.

Lemma split_glue_front (w s : str) :
  forallb isspace w = true ->
  split_on_comma (w ++ s) = glue_front w (split_on_comma s).
Proof.
  induction w as [|c w IH]; simpl; intros H.
  - destruct (split_on_comma s) eqn:E;
      [now apply split_on_comma_nonempty in E|].
    reflexivity.
  - apply andb_true_iff in H as [Hc Hw].
    rewrite (isspace_not_comma _ Hc), (IH Hw).
    destruct (split_on_comma s); reflexivity.
Qed.

Lemma glue_back_cons (p : str) (ps : list str) (w : str) :
  ps <> [] -> glue_back (p :: ps) w = p :: glue_back ps w.
Proof. destruct ps; [congruence|reflexivity]. Qed.

Lemma glue_back_nonempty (l : list str) (w : str) : glue_back l w <> [].
Proof.
  destruct l as [|p [|q l]]; simpl; discriminate.
Qed.

Lemma split_glue_back (s w : str) :
  forallb isspace w = true ->
  split_on_comma (s ++ w) = glue_back (split_on_comma s) w.
Proof.
  intros H. induction s as [|c s IH]; simpl.
  - rewrite <- (app_nil_r w) at 1. rewrite (split_glue_front _ _ H).
    simpl. now rewrite app_nil_r.
  - rewrite IH. destruct (is_char c comma).
    + rewrite glue_back_cons; [reflexivity|apply split_on_comma_nonempty].
    + destruct (split_on_comma s) as [|p [|q ps]] eqn:E;
        [now apply split_on_comma_nonempty in E| |]; reflexivity.
Qed.

Lemma terms_of_glue_front (w : str) (l : list str) :
  forallb isspace w = true -> l <> [] ->
  terms_of (glue_front w l) = terms_of l.
Proof.
  intros H Hl. destruct l as [|p ps]; [congruence|]. cbn [glue_front].
  rewrite (terms_of_cons (w ++ p) ps), (terms_of_cons p ps). f_equal.
  unfold terms_of. simpl. now rewrite trim_app_front.
Qed.

Lemma terms_of_glue_back (l : list str) (w : str) :
  forallb isspace w = true -> l <> [] ->
  terms_of (glue_back l w) = terms_of l.
Proof.
  intros H. induction l as [|p ps IH]; [congruence|]. intros _.
  destruct ps as [|q ps].
  - unfold terms_of. simpl. now rewrite trim_app_back.
  - rewrite glue_back_cons by discriminate.
    rewrite (terms_of_cons p (glue_back (q :: ps) w)).
    rewrite (terms_of_cons p (q :: ps)), IH by discriminate.
    reflexivity.
Qed.

Lemma terms_of_split_trim (s : str) :
  terms_of (split_on_comma (trim s)) = terms_of (split_on_comma s).
Proof.
  destruct (trim_split s) as [w1 [w2 [H1 [H2 E]]]].
  rewrite E at 2.
  rewrite split_glue_front, split_glue_back by assumption.
  rewrite terms_of_glue_front, terms_of_glue_back;
    auto using split_on_comma_nonempty, glue_back_nonempty.
Qed.

(** The loop of [split_csv_terms] computes the tokens of the contract,
    lower-cased. *)
Lemma split_csv_terms_spec (s : str) :
  split_csv_terms s = map lower_copy (spec_tokens s).
Proof.
  change (map lower_copy (spec_tokens s)) with (terms_of (split_on_comma s)).
  rewrite <- terms_of_split_trim. unfold split_csv_terms.
  destruct (trim s) as [|c t] eqn:E; [reflexivity|]. cbn [empty].
  generalize (c :: t) as u. intros u.
  pose proof (split_csv_loop_terms u [] []) as H.
  destruct (split_csv_loop u [] []) as [out cur].
  cbn [fst snd app] in H. rewrite H.
  destruct (split_on_comma u) eqn:F;
    [now apply split_on_comma_nonempty in F|].
  reflexivity.
Qed.

Lemma any_term_found_spec (name : str) (terms : list str) :
  any_term_found name terms = true <->
  exists t, In t terms /\ t <> [] /\ contains name t = true.
Proof.
  induction terms as [|t rest IH]; simpl.
  - split; [discriminate | intros [t [[] _]]].
  - destruct t as [|c t]; simpl.
    + rewrite IH. split; intros [u [Hin [Hne Hc]]].
      * exists u; auto.
      * destruct Hin as [<-|Hin]; [congruence|]. exists u; auto.
    + destruct (contains name (c :: t)) eqn:E.
      * split; [intros _|reflexivity]. exists (c :: t).
        repeat split; auto. discriminate.
      * rewrite IH. split; intros [u [Hin [Hne Hc]]].
        -- exists u; auto.
        -- destruct Hin as [<-|Hin]; [congruence|]. exists u; auto.
Qed.

Lemma spec_tokens_nonempty (raw t : str) :
  In t (spec_tokens raw) -> t <> [].
Proof.
  unfold spec_tokens. intros H. apply filter_In in H as [_ H].
  destruct t; [discriminate|discriminate].
Qed.

(** The case folding of the code against letter case as the
    specification has it. *)
Lemma nat_of_tolower (c : ascii) :
  nat_of_ascii (tolower c)
  = if is_upper c then (nat_of_ascii c + 32)%nat else nat_of_ascii c.
Proof.
  unfold tolower, is_upper.
  destruct (Nat.leb 65 (nat_of_ascii c) && Nat.leb (nat_of_ascii c) 90)%bool
    eqn:U; [| reflexivity].
  apply andb_true_iff in U as [_ U]. apply Nat.leb_le in U.
  apply nat_ascii_embedding. lia.
Qed.

Lemma tolower_same_letter (c d : ascii) :
  tolower c = tolower d <-> same_letter c d = true.
Proof.
  assert (Hinj : tolower c = tolower d
                 <-> nat_of_ascii (tolower c) = nat_of_ascii (tolower d)).
  { split; [now intros -> |]. intros H.
    rewrite <- (ascii_nat_embedding (tolower c)),
            <- (ascii_nat_embedding (tolower d)).
    now rewrite H. }
  rewrite Hinj, !nat_of_tolower. unfold same_letter, is_upper.
  destruct (Nat.leb_spec 65 (nat_of_ascii c));
    destruct (Nat.leb_spec (nat_of_ascii c) 90);
    destruct (Nat.leb_spec 65 (nat_of_ascii d));
    destruct (Nat.leb_spec (nat_of_ascii d) 90);
    cbn [andb orb];
    rewrite ?orb_false_r, ?orb_true_iff, ?Nat.eqb_eq;
    lia.
Qed.

Lemma starts_with_nocase (t s : str) :
  starts_with (lower_copy t) (lower_copy s) = prefix_nocase t s.
Proof.
  revert s. induction t as [| a t IH]; intros [| b s];
    cbn [lower_copy map starts_with prefix_nocase]; try reflexivity.
  fold (lower_copy t). fold (lower_copy s).
  destruct (ascii_dec (tolower a) (tolower b)) as [E | E].
  - apply tolower_same_letter in E. rewrite E. apply IH.
  - destruct (same_letter a b) eqn:L; [| reflexivity].
    apply tolower_same_letter in L. contradiction.
Qed.

Lemma contains_nocase (s t : str) :
  contains (lower_copy s) (lower_copy t) = occurs_nocase s t.
Proof.
  unfold contains. induction s as [| c s IH].
  - pose proof (starts_with_nocase t []) as H. unfold lower_copy in *.
    cbn [map str_find occurs_nocase] in *. rewrite <- H.
    destruct (starts_with (map tolower t) []); reflexivity.
  - pose proof (starts_with_nocase t (c :: s)) as H. unfold lower_copy in *.
    cbn [map str_find occurs_nocase] in *. rewrite <- H, <- IH.
    destruct (starts_with (map tolower t) (tolower c :: map tolower s));
      [reflexivity |].
    cbn [orb].
    destruct (str_find (map tolower s) (map tolower t)); reflexivity.
Qed.

Lemma any_term_found_tokens (filename raw : str) :
  any_term_found (lower_copy filename) (split_csv_terms raw) = true <->
  exists t, In t (spec_tokens raw) /\ spec_matches filename t.
Proof.
  rewrite any_term_found_spec, split_csv_terms_spec. unfold spec_matches.
  split.
  - intros [u [Hin [_ Hc]]]. apply in_map_iff in Hin as [t [<- Hin]].
    exists t. split; [exact Hin |]. now rewrite <- contains_nocase.
  - intros [t [Hin Hm]]. exists (lower_copy t). repeat split.
    + now apply in_map.
    + apply spec_tokens_nonempty in Hin. destruct t; [congruence|discriminate].
    + now rewrite contains_nocase.
Qed.

(** C5. A filename passes the filter exactly when the include token list is
    empty or some include token occurs in it, and no exclude token occurs
    in it; tokens come from splitting the raw string at commas, trimming
    and dropping empty pieces, and matching ignores case on both sides.
    [passes_filters] is a pure function, so it has no side effect. *)
Theorem passes_filters_spec (filename include_spec exclude_spec : str) :
  passes_filters filename (split_csv_terms include_spec)
                 (split_csv_terms exclude_spec) = true
  <-> spec_passes filename include_spec exclude_spec.
Proof.
  unfold passes_filters, spec_passes.
  pose proof (any_term_found_tokens filename include_spec) as Hi.
  pose proof (any_term_found_tokens filename exclude_spec) as He.
  assert (Hnil : forall raw, spec_tokens raw = [] <-> split_csv_terms raw = []).
  { intros raw. rewrite split_csv_terms_spec.
    destruct (spec_tokens raw); simpl; split; congruence. }
  destruct (any_term_found (lower_copy filename) (split_csv_terms exclude_spec))
    eqn:Ee.
  - (* an exclude term occurs: the list is not empty, the result is false *)
    assert (split_csv_terms exclude_spec <> []) as Hne
        by (intros E; rewrite E in Ee; discriminate).
    destruct (split_csv_terms exclude_spec) eqn:Ex; [congruence|]. simpl.
    try rewrite andb_false_r.
    split.
    + destruct (_ && _)%bool; discriminate.
    + intros [_ Hno]. destruct He as [He _].
      destruct (He eq_refl) as [t [Hin Hm]]. now apply Hno in Hm.
  - rewrite andb_false_r.
    assert (Hex : forall t, In t (spec_tokens exclude_spec) ->
                            ~ spec_matches filename t).
    { intros t Hin Hm. destruct He as [_ He].
      assert (false = true) by (apply He; now exists t). discriminate. }
    destruct (split_csv_terms include_spec) as [|t0 ts] eqn:Ei;
      cbn [negb andb].
    + split; [intros _|reflexivity]. split; [left; now apply Hnil|exact Hex].
    + destruct (any_term_found (lower_copy filename) (t0 :: ts)) eqn:Ea;
        cbn [negb].
      * split; [intros _|reflexivity]. split; [right; now apply Hi|exact Hex].
      * split; [discriminate|]. intros [[Hn|Hm] _].
        -- apply Hnil in Hn. congruence.
        -- apply Hi in Hm. discriminate.
Qed.

(** The contract at names and tokens in mixed case: the token LOCK, given
    among blanks and an empty piece, lets DM_Lockdown_V2.BSP pass, and the
    exclude token RUNOFF stops dm_RunOff.bsp. *)
Lemma passes_filters_spec_witness :
  passes_filters (lit "DM_Lockdown_V2.BSP")
    (split_csv_terms (lit " LOCK , ,xyz")) (split_csv_terms (lit "runoff"))
  = true
  /\ passes_filters (lit "dm_RunOff.bsp")
       (split_csv_terms []) (split_csv_terms (lit "RUNOFF"))
     = false.
Proof.
  split.
  - apply (passes_filters_spec (lit "DM_Lockdown_V2.BSP")
             (lit " LOCK , ,xyz") (lit "runoff")).
    split.
    + right. exists (lit "LOCK"). split; [vm_compute; tauto | reflexivity].
    + intros t Hin. vm_compute in Hin. destruct Hin as [<- | []].
      vm_compute. discriminate.
  - destruct (passes_filters (lit "dm_RunOff.bsp") (split_csv_terms [])
                (split_csv_terms (lit "RUNOFF"))) eqn:E; [| reflexivity].
    apply (passes_filters_spec (lit "dm_RunOff.bsp") [] (lit "RUNOFF")) in E.
    destruct E as [_ Hex]. exfalso.
    apply (Hex (lit "RUNOFF")); [vm_compute; tauto | reflexivity].
Defined.

(** ** Fetcher *)

Lemma str_eqb_refl (a : str) : str_eqb a a = true.
Proof. unfold str_eqb. destruct (list_eq_dec ascii_dec a a); congruence. Qed.

Lemma str_eqb_neq (a b : str) : a <> b -> str_eqb a b = false.
Proof. unfold str_eqb. destruct (list_eq_dec ascii_dec a b); congruence. Qed.

Lemma str_eqb_eq (a b : str) : str_eqb a b = true <-> a = b.
Proof.
  unfold str_eqb. destruct (list_eq_dec ascii_dec a b); split; congruence.
Qed.

Lemma part_differs (out_file : str) : out_file ++ lit ".part" <> out_file.
Proof.
  intros E. apply (f_equal (@List.length ascii)) in E.
  rewrite length_app in E. simpl in E. lia.
Qed.

Ltac fs_simpl :=
  repeat first
    [ rewrite str_eqb_refl
    | rewrite (str_eqb_neq _ _ (part_differs _))
    | rewrite (str_eqb_neq _ _ (not_eq_sym (part_differs _)))
    | progress unfold fs_rename, fs_remove, fs_write, fs_copy, fs_exists
    | progress cbn [files log requests set_files set_log push fail] ].

(** A path without a NUL char is handed over whole. *)
Lemma c_str_whole (s : str) : no_char nul s -> c_str s = s.
Proof.
  induction s as [| c s IH]; intros H; cbn [c_str]; [reflexivity |].
  rewrite (H c (or_introl eq_refl)). f_equal. apply IH.
  intros d Hd. apply H. now right.
Qed.

Lemma c_str_part (out_file : str) :
  no_char nul out_file ->
  c_str (out_file ++ lit ".part") = out_file ++ lit ".part".
Proof.
  intros H. apply c_str_whole. intros d Hd.
  apply in_app_or in Hd as [Hd | Hd]; [exact (H d Hd) |].
  unfold lit in Hd. cbn [list_ascii_of_string In] in Hd.
  repeat (destruct Hd as [<- | Hd]; [reflexivity |]). destruct Hd.
Qed.

(** What one pass of the loop does, by the answers of the environment. *)
Lemma download_attempt_cases (a : DlAttempt) (url out_file : str)
  (retries attempt : Z) (w : World) :
  no_char nul out_file ->
  (attempt_publishes a /\
   exists w1, download_attempt a url out_file retries attempt w = Return true w1
     /\ ((dl_rename_ok a || dl_copy_ok a)%bool = true ->
         files w1 out_file = Some (dl_received a))
     /\ ((dl_rename_ok a || dl_part_removed a)%bool = true ->
         files w1 (out_file ++ lit ".part") = None))
  \/ (attempt_fails a /\
      exists w1, download_attempt a url out_file retries attempt w = Continue w1
        /\ files w1 out_file = files w out_file
        /\ (dl_part_removed a = true ->
            files w1 (out_file ++ lit ".part") = None))
  \/ (~ attempt_publishes a /\ ~ attempt_fails a /\
      exists w1, download_attempt a url out_file retries attempt w
                 = Return false w1
        /\ files w1 out_file = files w out_file).
Proof.
  intros Hn.
  unfold attempt_publishes, attempt_fails, download_attempt. cbn zeta.
  rewrite (c_str_whole _ Hn), (c_str_part _ Hn).
  destruct (dl_cancel_at_loop a) eqn:C1.
  { right; right. repeat split; try (intros [? _]; discriminate).
    now exists w. }
  destruct (dl_fopen_ok a) eqn:F; cbn [negb].
  2:{ right; right. repeat split; try (intros [_ [? _]]; discriminate).
      eexists; split; [reflexivity|].
      destruct (fs_exists (files w) (out_file ++ lit ".part")
                && dl_stale_removed a)%bool; now fs_simpl. }
  destruct (dl_cancel_after a) eqn:C2.
  { right; right. repeat split; try (intros [_ [_ [? _]]]; discriminate).
    eexists; split; [reflexivity|].
    destruct (fs_exists (files w) (out_file ++ lit ".part")
              && dl_stale_removed a)%bool; now fs_simpl. }
  destruct (status_2xx a) eqn:S2.
  - left. repeat split. eexists; split; [reflexivity|]. unfold publish.
    destruct (fs_exists (files w) (out_file ++ lit ".part")
              && dl_stale_removed a)%bool;
      destruct (dl_rename_ok a), (dl_copy_ok a), (dl_part_removed a);
      fs_simpl; split; intros H; try reflexivity; discriminate H.
  - right; left. repeat split.
    destruct (attempt <? retries); eexists; (split; [reflexivity|]);
      destruct (fs_exists (files w) (out_file ++ lit ".part")
                && dl_stale_removed a)%bool;
      destruct (dl_part_removed a); fs_simpl;
      split; try reflexivity; intros H; try reflexivity; discriminate H.
Qed.

Lemma download_attempts_spec (env : Z -> DlAttempt) (url out_file : str)
  (retries : Z) (left : nat) :
  no_char nul out_file ->
  forall (attempt : Z) (w : World),
    let r := fst (download_attempts env url out_file retries left attempt w) in
    let w' := snd (download_attempts env url out_file retries left attempt w) in
    (r = true <->
     exists k, attempt <= k < attempt + Z.of_nat left
               /\ (forall j, attempt <= j < k -> attempt_fails (env j))
               /\ attempt_publishes (env k))
    /\ (r = false -> files w' out_file = files w out_file)
    /\ (forall k, attempt <= k < attempt + Z.of_nat left ->
          (forall j, attempt <= j < k -> attempt_fails (env j)) ->
          attempt_publishes (env k) ->
          ((dl_rename_ok (env k) || dl_copy_ok (env k))%bool = true ->
           files w' out_file = Some (dl_received (env k)))
          /\ ((dl_rename_ok (env k) || dl_part_removed (env k))%bool = true ->
              files w' (out_file ++ lit ".part") = None)).
Proof.
  intros Hn. induction left as [|left IH]; intros attempt w.
  - cbn. split; [split; [discriminate|intros [k [Hk _]]; lia]|].
    split; [reflexivity | intros k Hk; lia].
  - cbn [download_attempts].
    destruct (download_attempt_cases (env attempt) url out_file retries
                attempt w Hn)
      as [[Hp [w1 [E [Ho Ht]]]] | [[Hf [w1 [E [Ho Ht]]]]
         | [Hnp [Hnf [w1 [E Ho]]]]]]; rewrite E.
    + cbn. split; [split; [intros _|reflexivity]|].
      * exists attempt. split; [lia|]. split; [intros j Hj; lia|exact Hp].
      * split; [discriminate|]. intros k Hk Hj Hpk.
        destruct (Z.eq_dec k attempt) as [-> | Hne]; [split; assumption |].
        exfalso. assert (Hfa : attempt_fails (env attempt)) by (apply Hj; lia).
        destruct Hfa as [_ [_ [_ Hfa]]]. destruct Hp as [_ [_ [_ Hp]]].
        congruence.
    + specialize (IH (attempt + 1) w1). cbv zeta in IH.
      destruct IH as [IHr [IHf IHt]]. cbv zeta.
      split; [split|split].
      * intros Hr. apply IHr in Hr as [k [Hk [Hj Hpk]]].
        exists k. split; [lia|]. split; [|exact Hpk].
        intros j Hjk. destruct (Z.eq_dec j attempt) as [->|]; auto.
        apply Hj. lia.
      * intros [k [Hk [Hj Hpk]]]. apply IHr.
        destruct (Z.eq_dec k attempt) as [->|].
        -- destruct Hf as [_ [_ [_ Hf]]]. destruct Hpk as [_ [_ [_ Hpk]]].
           congruence.
        -- exists k. split; [lia|]. split; [|exact Hpk].
           intros j Hjk. apply Hj. lia.
      * intros Hr. rewrite (IHf Hr). exact Ho.
      * intros k Hk Hj Hpk.
        destruct (Z.eq_dec k attempt) as [-> | Hne].
        -- destruct Hf as [_ [_ [_ Hf]]]. destruct Hpk as [_ [_ [_ Hpk]]].
           congruence.
        -- apply IHt; [lia | | exact Hpk]. intros j Hjk. apply Hj. lia.
    + cbn. split; [split; [discriminate|]|].
      * intros [k [Hk [Hj Hpk]]].
        destruct (Z.eq_dec k attempt) as [->|]; [contradiction|].
        exfalso. apply Hnf. apply Hj. lia.
      * split; [intros _; exact Ho|]. intros k Hk Hj Hpk.
        destruct (Z.eq_dec k attempt) as [->|]; [contradiction|].
        exfalso. apply Hnf. apply Hj. lia.
Qed.

(** C1 (as amended).  For a destination path without a NUL char,
    [download_file] returns true only if, within the budget, some attempt
    reached after failed attempts only completes with CURLE_OK and a
    status in 200-299 while the cancellation flag is seen neither before
    nor after it, and a call that returns false leaves the destination as
    it was.  When the rename of such an attempt works, or else its copy,
    true is returned and the destination holds the received bytes, and no
    [.part] file is left when the rename or else the removal works.
    Every attempt that fails with the flag unseen leaves the destination
    alone, goes on, and has removed the [.part] file when the removal
    works.  What a call returns and leaves when neither the rename nor the
    copy works, and what a path with a NUL char gives, is not stated. *)
Theorem download_file_contract (env : Z -> DlAttempt) (url out_file : str)
  (timeout_ms budget : Z) (w : World) :
  no_char nul out_file ->
  let r := fst (download_file env url out_file timeout_ms budget w) in
  let w' := snd (download_file env url out_file timeout_ms budget w) in
  (r = true ->
   exists k, 1 <= k <= budget
             /\ (forall j, 1 <= j < k -> attempt_fails (env j))
             /\ attempt_publishes (env k))
  /\ (r = false -> files w' out_file = files w out_file)
  /\ (forall k, 1 <= k <= budget ->
        (forall j, 1 <= j < k -> attempt_fails (env j)) ->
        attempt_publishes (env k) ->
        (dl_rename_ok (env k) || dl_copy_ok (env k))%bool = true ->
        r = true
        /\ files w' out_file = Some (dl_received (env k))
        /\ ((dl_rename_ok (env k) || dl_part_removed (env k))%bool = true ->
            files w' (out_file ++ lit ".part") = None))
  /\ (forall a attempt w0, attempt_fails a ->
        exists w1,
          download_attempt a url out_file budget attempt w0 = Continue w1
          /\ files w1 out_file = files w0 out_file
          /\ (dl_part_removed a = true ->
              files w1 (out_file ++ lit ".part") = None))
  /\ (forall a attempt w0, attempt_publishes a ->
        (dl_rename_ok a || dl_copy_ok a)%bool = true ->
        exists w1,
          download_attempt a url out_file budget attempt w0 = Return true w1
          /\ files w1 out_file = Some (dl_received a)
          /\ ((dl_rename_ok a || dl_part_removed a)%bool = true ->
              files w1 (out_file ++ lit ".part") = None)).
Proof.
  intros Hn. cbv zeta. unfold download_file.
  destruct (download_attempts_spec env url out_file budget (Z.to_nat budget)
              Hn 1 w) as [Hr [Hf Ht]].
  split; [|split; [exact Hf|split; [|split]]].
  - intros E. apply Hr in E as [k [Hk H]]. exists k. split; [lia|exact H].
  - intros k Hk Hj Hpk Hpub.
    destruct (Ht k ltac:(lia) Hj Hpk) as [Hout Hpart].
    split; [| split; [exact (Hout Hpub) | exact Hpart]].
    apply Hr. exists k. split; [lia | split; assumption].
  - intros a attempt w0 Ha.
    destruct (download_attempt_cases a url out_file budget attempt w0 Hn)
      as [[Hp _] | [[_ H] | [_ [Hnf _]]]]; [|exact H|contradiction].
    destruct Ha as [_ [_ [_ Ha]]]. destruct Hp as [_ [_ [_ Hp]]]. congruence.
  - intros a attempt w0 Ha Hpub.
    destruct (download_attempt_cases a url out_file budget attempt w0 Hn)
      as [[_ [w1 [E [Ho Hp]]]] | [[Hf' _] | [Hnp _]]]; [| |contradiction].
    + exists w1. split; [exact E |]. split; [exact (Ho Hpub) | exact Hp].
    + destruct Ha as [_ [_ [_ Ha]]]. destruct Hf' as [_ [_ [_ Hf']]].
      congruence.
Qed.

(** The contract at a server that answers 500, then 200, budget 2: true is
    returned, the destination holds the second body, no [.part] is left,
    and the first attempt went on with its [.part] file removed. *)
Lemma download_file_contract_witness :
  no_char nul sample_out
  /\ fst (download_file flaky_server sample_url sample_out 30000 2
            empty_world) = true
  /\ files (snd (download_file flaky_server sample_url sample_out 30000 2
                   empty_world)) sample_out = Some (lit "BSP")
  /\ files (snd (download_file flaky_server sample_url sample_out 30000 2
                   empty_world)) (sample_out ++ lit ".part") = None
  /\ exists w1,
       download_attempt (flaky_server 1) sample_url sample_out 2 1 empty_world
       = Continue w1
       /\ files w1 (sample_out ++ lit ".part") = None.
Proof.
  assert (Hn : no_char nul sample_out).
  { intros d Hd. unfold sample_out, lit in Hd.
    cbn [list_ascii_of_string In] in Hd.
    repeat (destruct Hd as [<- | Hd]; [reflexivity |]). destruct Hd. }
  split; [exact Hn |].
  pose proof (download_file_contract flaky_server sample_url sample_out
                30000 2 empty_world Hn) as H.
  cbv zeta in H. destruct H as [_ [_ [Ht [Hfail _]]]].
  assert (Hfirst : forall j, 1 <= j < 2 -> attempt_fails (flaky_server j)).
  { intros j Hj. assert (j = 1) as -> by lia. repeat split. }
  assert (Hsecond : attempt_publishes (flaky_server 2)) by (repeat split).
  destruct (Ht 2 ltac:(lia) Hfirst Hsecond eq_refl) as [Hr [Hout Hpart]].
  split; [exact Hr |].
  split; [exact Hout |]. split; [exact (Hpart eq_refl) |].
  destruct (Hfail (flaky_server 1) 1 empty_world) as [w1 [E [_ T]]].
  - repeat split.
  - exists w1. split; [exact E | exact (T eq_refl)].
Defined.

(** C1 as stated fails: a transfer that ends in a transport error while the
    cancellation flag has been set returns at once and the [.part] file
    stays behind; and a transfer that completes with status 200 while the
    flag has been set gives false, with nothing at the destination. *)
Lemma download_file_cancelled_keeps_part :
  (status_2xx (cancelled_transfer 1) = false
   /\ fst (download_file cancelled_transfer sample_url sample_out 30000 1
             empty_world) = false
   /\ files (snd (download_file cancelled_transfer sample_url sample_out
                    30000 1 empty_world)) (sample_out ++ lit ".part")
      = Some (lit "partial"))
  /\ (status_2xx (cancelled_success 1) = true
      /\ fst (download_file cancelled_success sample_url sample_out 30000 1
                empty_world) = false
      /\ files (snd (download_file cancelled_success sample_url sample_out
                       30000 1 empty_world)) sample_out = None
      /\ files (snd (download_file cancelled_success sample_url sample_out
                       30000 1 empty_world)) (sample_out ++ lit ".part")
         = Some (lit "BSP")).
Proof. vm_compute. repeat split. Qed.

(** C10.  With a budget of zero or less [download_file] returns false and
    the world is the one it was given: no transfer was run, no file and no
    log or failure line was written.  The settings form clamps the budget
    into [0, 20], and the text "0" gives the budget zero. *)
Theorem download_file_no_budget (env : Z -> DlAttempt) (url out_file : str)
  (timeout_ms budget : Z) (w : World) (ui : UiFields) (s : Settings) :
  budget <= 0 ->
  download_file env url out_file timeout_ms budget w = (false, w)
  /\ 0 <= retries (apply_ui_to_settings ui s) <= 20
  /\ retries (apply_ui_to_settings (sample_ui "0") s) = 0.
Proof.
  intros Hb. split; [|split].
  - unfold download_file. replace (Z.to_nat budget) with O by lia. reflexivity.
  - cbn [retries apply_ui_to_settings]. unfold clamp.
    destruct (Z.ltb_spec (atoi (trim (retries_str ui))) 0); [lia|].
    destruct (Z.ltb_spec 20 (atoi (trim (retries_str ui)))); lia.
  - reflexivity.
Qed.

Lemma download_file_no_budget_witness :
  download_file flaky_server sample_url sample_out 30000
    (retries (apply_ui_to_settings (sample_ui "0") sample_settings))
    empty_world = (false, empty_world).
Proof.
  apply (download_file_no_budget flaky_server sample_url sample_out 30000
           (retries (apply_ui_to_settings (sample_ui "0") sample_settings))
           empty_world (sample_ui "0") sample_settings).
  vm_compute. discriminate.
Defined.

(** ** Decompressor *)














(** With libbz2, whose [BZ2_bzReadClose] stores BZ_OK for a read handle,
    the test of line 527 always sees BZ_OK: a corrupt archive gives true
    and the truncated output is kept. *)
Lemma decompress_corrupt_archive_kept :
  fst (decompress_bz2_to_file corrupt_archive sample_bz2 sample_bsp 3
         empty_world) = true
  /\ files (snd (decompress_bz2_to_file corrupt_archive sample_bz2
                   sample_bsp 3 empty_world)) sample_bsp
     = Some (lit "VB").
Proof. vm_compute. repeat split. Qed.

(** ** Listing indexer *)

Example extract_listing :
  extract_map_links_from_index_html (lit "http://maps.example/hl2mp/")
    (lit "<a HREF = 'dm_a.bsp.bz2'>a</a><a href='../'>up</a> <a href="
         ++ dquote :: lit "/dm_b.BSP" ++ dquote :: lit ">b</a><a href='x.txt'>")
  = [lit "http://maps.example/hl2mp/dm_a.bsp.bz2";
     lit "http://maps.example/hl2mp/dm_b.BSP"].
Proof. vm_compute. reflexivity. Qed.

(** ** Source ranker *)

Lemma pick_best_loop_some (sources : list SourceEntry) (rest : list ptr) :
  forall b : ptr,
    exists r,
      pick_best_loop sources (Some b) rest = Some r /\
      ((r = b /\
        forall p, In p rest ->
          latency_or_sentinel (deref sources b)
          <= latency_or_sentinel (deref sources p))
       \/ exists l1 l2,
            rest = l1 ++ r :: l2
            /\ latency_or_sentinel (deref sources r)
               < latency_or_sentinel (deref sources b)
            /\ (forall p, In p l1 ->
                  latency_or_sentinel (deref sources r)
                  < latency_or_sentinel (deref sources p))
            /\ (forall p, In p l2 ->
                  latency_or_sentinel (deref sources r)
                  <= latency_or_sentinel (deref sources p))).
Proof.
  induction rest as [|s rest IH]; intros b; cbn [pick_best_loop].
  - exists b. split; [reflexivity|]. left. split; [reflexivity|intros p []].
  - destruct (Z.ltb_spec (latency_or_sentinel (deref sources s))
                (latency_or_sentinel (deref sources b))) as [Hlt|Hge].
    + destruct (IH s)
        as [r [E [[Er Hall] | [l1 [l2 [Erest [Hr [H1 H2]]]]]]]];
        exists r; (split; [exact E|right]).
      * subst r. exists [], rest. repeat split; auto. intros p [].
      * subst rest. exists (s :: l1), l2. repeat split; auto; [lia|].
        intros p [<-|Hp]; [exact Hr|auto].
    + destruct (IH b)
        as [r [E [[Er Hall] | [l1 [l2 [Erest [Hr [H1 H2]]]]]]]];
        exists r; (split; [exact E|]).
      * subst r. left. split; [reflexivity|].
        intros p [<-|Hp]; [exact Hge|auto].
      * subst rest. right. exists (s :: l1), l2. repeat split; auto.
        intros p [<-|Hp]; [lia|auto].
Qed.

(** C4 (as amended).  [pick_best_source] returns no source exactly when
    the list is empty.  On a list that is not empty it returns the first
    entry of least latency, a negative latency counting as 1,000,000: every
    entry before it is strictly slower, none after it is faster.  A source
    timed under 1,000,000 ms therefore beats every source of latency -1. *)
Theorem pick_best_source_spec (sources : list SourceEntry)
  (srcs : list ptr) :
  (pick_best_source sources srcs = None <-> srcs = [])
  /\ (srcs <> [] ->
      exists best before after,
        pick_best_source sources srcs = Some best
        /\ srcs = before ++ best :: after
        /\ (forall p, In p before ->
              latency_or_sentinel (deref sources best)
              < latency_or_sentinel (deref sources p))
        /\ (forall p, In p after ->
              latency_or_sentinel (deref sources best)
              <= latency_or_sentinel (deref sources p)))
  /\ (forall e e' : SourceEntry,
        0 <= last_latency_ms e < 1000000 -> last_latency_ms e' = -1 ->
        latency_or_sentinel e < latency_or_sentinel e').
Proof.
  unfold pick_best_source. split; [|split].
  - destruct srcs as [|s rest]; cbn [pick_best_loop].
    + split; reflexivity.
    + destruct (pick_best_loop_some sources rest s) as [r [E _]].
      rewrite E. split; discriminate.
  - destruct srcs as [|s rest]; [congruence|]. intros _.
    cbn [pick_best_loop].
    destruct (pick_best_loop_some sources rest s)
      as [r [E [[Er Hall] | [l1 [l2 [Erest [Hr [H1 H2]]]]]]]].
    + subst r. exists s, [], rest. repeat split; auto. intros p [].
    + subst rest. exists r, (s :: l1), l2. repeat split; auto.
      intros p [<-|Hp]; [exact Hr|auto].
  - intros e e' He He'. unfold latency_or_sentinel. rewrite He'.
    destruct (Z.leb_spec 0 (last_latency_ms e)); cbn; lia.
Qed.

(** The ranker on the three sample mirrors, the slow one left out, and then
    source c (30 ms) against source a (never timed). *)
Lemma pick_best_source_spec_witness :
  (exists best before after,
     pick_best_source sample_sources [0; 2]%nat = Some best
     /\ [0; 2]%nat = before ++ best :: after)
  /\ latency_or_sentinel (deref sample_sources 2%nat)
     < latency_or_sentinel (deref sample_sources 0%nat).
Proof.
  destruct (pick_best_source_spec sample_sources [0; 2]%nat)
    as [_ [Hbest Hbeats]].
  split.
  - destruct Hbest as [best [before [after [E [S _]]]]]; [discriminate|].
    exists best, before, after. split; [exact E|exact S].
  - apply Hbeats; [vm_compute; split; [discriminate|reflexivity]|reflexivity].
Defined.

(** C4 as stated fails: sources b and d have the non-negative latencies
    2,000,000 and 1,000,000, and each loses to source a, whose latency is
    -1, also when it comes first in the list. *)
Lemma pick_best_source_sentinel_wins :
  pick_best_source sample_sources [0; 1]%nat = Some 0%nat
  /\ pick_best_source sample_sources [1; 0]%nat = Some 0%nat
  /\ pick_best_source sample_sources [0; 3]%nat = Some 0%nat
  /\ last_latency_ms (deref sample_sources 0%nat) = -1
  /\ 0 <= last_latency_ms (deref sample_sources 1%nat)
  /\ 0 <= last_latency_ms (deref sample_sources 3%nat).
Proof. vm_compute. repeat split; discriminate. Qed.

(** ** Availability aggregator *)

Lemma ascii_compare_refl (c : ascii) : Ascii.compare c c = Eq.
Proof. unfold Ascii.compare. apply N.compare_refl. Qed.

Lemma str_compare_eq_iff (a b : str) : str_compare a b = Eq <-> a = b.
Proof.
  revert b. induction a as [|c a IH]; destruct b as [|d b]; simpl;
    try (first [split; reflexivity | split; discriminate]).
  destruct (Ascii.compare c d) eqn:E.
  - apply Ascii.compare_eq_iff in E as ->. rewrite IH.
    split; [intros ->; reflexivity|intros H; now injection H].
  - split; [discriminate|]. intros H. injection H as -> _.
    rewrite ascii_compare_refl in E. discriminate.
  - split; [discriminate|]. intros H. injection H as -> _.
    rewrite ascii_compare_refl in E. discriminate.
Qed.

Lemma str_compare_refl (a : str) : str_compare a a = Eq.
Proof. now apply str_compare_eq_iff. Qed.

Lemma str_compare_lt_trans (a b c : str) :
  str_compare a b = Lt -> str_compare b c = Lt -> str_compare a c = Lt.
Proof.
  revert b c. induction a as [|x a IH]; intros [|y b] [|z c]; simpl;
    try discriminate; try reflexivity.
  unfold Ascii.compare.
  destruct (N.compare_spec (N_of_ascii x) (N_of_ascii y)) as [Exy|Lxy|Gxy];
    try discriminate;
    destruct (N.compare_spec (N_of_ascii y) (N_of_ascii z)) as [Eyz|Lyz|Gyz];
    try discriminate; intros H1 H2.
  - rewrite Exy, Eyz, N.compare_refl. eauto.
  - rewrite Exy. now apply N.compare_lt_iff in Lyz as ->.
  - rewrite <- Eyz. now apply N.compare_lt_iff in Lxy as ->.
  - assert (N_of_ascii x < N_of_ascii z)%N as L by lia.
    now apply N.compare_lt_iff in L as ->.
Qed.

Lemma str_eqb_compare (a b : str) :
  str_eqb a b = match str_compare a b with Eq => true | _ => false end.
Proof.
  destruct (str_compare a b) eqn:E.
  - apply str_compare_eq_iff in E as ->. apply str_eqb_refl.
  - apply str_eqb_neq. intros ->. now rewrite str_compare_refl in E.
  - apply str_eqb_neq. intros ->. now rewrite str_compare_refl in E.
Qed.

Lemma map_at_push (m : AvailabilityMap) (name k : str) (p : ptr) :
  map_at (map_push m name p) k
  = if str_eqb k name then map_at m name ++ [p] else map_at m k.
Proof.
  unfold map_at. induction m as [|[k0 v0] m IH]; cbn [map_push map_find].
  - rewrite str_eqb_compare. destruct (str_compare k name); reflexivity.
  - destruct (str_compare name k0) eqn:E; cbn [map_find].
    + apply str_compare_eq_iff in E as <-.
      rewrite str_eqb_compare, ?str_compare_refl.
      destruct (str_compare k name); reflexivity.
    + rewrite str_eqb_compare.
      destruct (str_compare k name) eqn:F; try reflexivity.
      now rewrite (str_compare_lt_trans _ _ _ F E).
    + rewrite str_eqb_compare.
      destruct (str_compare k name) eqn:F.
      * apply str_compare_eq_iff in F as ->. rewrite E.
        rewrite str_eqb_compare, str_compare_refl in IH. exact IH.
      * destruct (str_compare k k0); try reflexivity.
        rewrite str_eqb_compare, F in IH. exact IH.
      * destruct (str_compare k k0); try reflexivity.
        rewrite str_eqb_compare, F in IH. exact IH.
Qed.

Lemma map_at_register (us : list str) (p : ptr) (name : str) :
  forall m : AvailabilityMap,
    map_at (register_links m p us) name
    = map_at m name ++ map (fun _ => p) (filter (has_name name) us).
Proof.
  induction us as [|u us IH]; intros m; cbn [register_links filter map].
  - now rewrite app_nil_r.
  - rewrite IH, map_at_push. unfold has_name.
    rewrite (str_eqb_compare name), (str_eqb_compare (filename u)).
    destruct (str_compare name (filename u)) eqn:E.
    + apply str_compare_eq_iff in E as ->. rewrite str_compare_refl.
      cbn [map]. now rewrite <- app_assoc.
    + destruct (str_compare (filename u) name) eqn:F; try reflexivity.
      apply str_compare_eq_iff in F. rewrite F, str_compare_refl in E.
      discriminate.
    + destruct (str_compare (filename u) name) eqn:F; try reflexivity.
      apply str_compare_eq_iff in F. rewrite F, str_compare_refl in E.
      discriminate.
Qed.

Lemma map_at_build_from (sources : list SourceEntry)
  (indexed : list SourceIndex) (name : str) :
  forall m : AvailabilityMap,
    map_at (build_availability_from m sources indexed) name
    = map_at m name ++ members sources indexed name.
Proof.
  unfold members.
  induction indexed as [|si rest IH]; intros m;
    cbn [build_availability_from flat_map].
  - now rewrite app_nil_r.
  - unfold members_of at 1. unfold contributes. destruct (src si) as [p|].
    + destruct (enabled (deref sources p)), (last_ok (deref sources p));
        cbn [negb orb andb]; rewrite IH; try reflexivity.
      now rewrite map_at_register, <- app_assoc.
    + now rewrite IH.
Qed.

(** The entry of a filename holds one member per link of that name. *)
Lemma map_at_build (sources : list SourceEntry)
  (indexed : list SourceIndex) (name : str) :
  map_at (build_availability sources indexed) name
  = members sources indexed name.
Proof. unfold build_availability. now rewrite map_at_build_from. Qed.

Lemma members_contribute (sources : list SourceEntry)
  (indexed : list SourceIndex) (name : str) (p : ptr) :
  In p (members sources indexed name) ->
  exists si, In si indexed /\ src si = Some p
             /\ contributes sources si = true /\ offers name si = true.
Proof.
  unfold members. intros H. apply in_flat_map in H as [si [Hsi Hp]].
  exists si. unfold members_of in Hp.
  destruct (src si) as [q|] eqn:Eq; [|contradiction].
  destruct (contributes sources si) eqn:C; [|contradiction].
  apply in_map_iff in Hp as [u [<- Hu]]. apply filter_In in Hu as [Hu Hn].
  repeat split; auto. unfold offers. apply existsb_exists. now exists u.
Qed.

Lemma build_availability_from_skip (sources : list SourceEntry)
  (indexed : list SourceIndex) :
  forall m : AvailabilityMap,
    build_availability_from m sources (filter (contributes sources) indexed)
    = build_availability_from m sources indexed.
Proof.
  induction indexed as [|si rest IH]; intros m; [reflexivity|].
  cbn [filter build_availability_from]. unfold contributes at 1.
  destruct (src si) as [p|] eqn:E; [|apply IH].
  destruct (enabled (deref sources p)) eqn:En,
           (last_ok (deref sources p)) eqn:Ok;
    cbn [negb orb andb build_availability_from]; try apply IH.
  rewrite E, En, Ok. cbn [negb orb]. apply IH.
Qed.

(** C6.  Every source that an entry of the availability map refers to is
    enabled and has [last_ok] set, and the map is the one built from the
    index results of such sources alone: the results of disabled or failed
    sources add nothing. *)
Theorem build_availability_only_ok (sources : list SourceEntry)
  (indexed : list SourceIndex) (name : str) (srcs : list ptr) (p : ptr) :
  map_find (build_availability sources indexed) name = Some srcs ->
  In p srcs ->
  enabled (deref sources p) = true /\ last_ok (deref sources p) = true
  /\ build_availability sources indexed
     = build_availability sources (filter (contributes sources) indexed).
Proof.
  intros Hfind Hin.
  assert (Hm : In p (members sources indexed name)).
  { rewrite <- map_at_build. unfold map_at. now rewrite Hfind. }
  apply members_contribute in Hm as [si [_ [Hs [Hc _]]]].
  unfold contributes in Hc. rewrite Hs in Hc.
  apply andb_true_iff in Hc as [He Ho].
  repeat split; auto. unfold build_availability.
  now rewrite build_availability_from_skip.
Qed.

Lemma build_availability_only_ok_witness :
  enabled (deref four_mirrors 1%nat) = true
  /\ last_ok (deref four_mirrors 1%nat) = true
  /\ build_availability four_mirrors four_indexed
     = build_availability four_mirrors
         (filter (contributes four_mirrors) four_indexed).
Proof.
  apply (build_availability_only_ok four_mirrors four_indexed
           (lit "dm_lockdown.bsp.bz2") [0; 1]%nat 1%nat).
  - vm_compute. reflexivity.
  - simpl. auto.
Defined.

Lemma members_of_single (sources : list SourceEntry) (name : str)
  (si : SourceIndex) :
  contributes sources si = true ->
  (List.length (filter (has_name name) (links si)) <= 1)%nat ->
  exists p, src si = Some p
            /\ members_of sources name si
               = if offers name si then [p] else [].
Proof.
  unfold members_of, offers. intros C L. unfold contributes in C |- *.
  destruct (src si) as [p|]; [|discriminate]. exists p.
  split; [reflexivity|]. rewrite C.
  destruct (filter (has_name name) (links si)) as [|u [|u' l]] eqn:F.
  - destruct (existsb (has_name name) (links si)) eqn:E; [|reflexivity].
    apply existsb_exists in E as [u [Hu Hn]].
    assert (In u (filter (has_name name) (links si)))
      by (apply filter_In; auto).
    rewrite F in H. contradiction.
  - assert (E : existsb (has_name name) (links si) = true).
    { apply existsb_exists. exists u.
      assert (In u (filter (has_name name) (links si)))
        by (rewrite F; now left).
      now apply filter_In in H. }
    now rewrite E.
  - simpl in L. lia.
Qed.

Lemma members_distinct (sources : list SourceEntry) (name : str)
  (indexed : list SourceIndex) :
  (forall si, In si indexed -> contributes sources si = true) ->
  NoDup (src_ptrs indexed) ->
  (forall si, In si indexed ->
     (List.length (filter (has_name name) (links si)) <= 1)%nat) ->
  List.length (members sources indexed name)
  = List.length (filter (offers name) indexed)
  /\ (forall p, In p (members sources indexed name) ->
                In p (src_ptrs indexed))
  /\ NoDup (members sources indexed name).
Proof.
  unfold members, src_ptrs.
  induction indexed as [|si rest IH]; intros HC HN HL.
  - cbn. repeat split; [intros p []|constructor].
  - cbn [flat_map filter].
    destruct (members_of_single sources name si) as [p [Es Em]];
      [apply HC; now left|apply HL; now left|].
    cbn [flat_map] in HN. rewrite Es in HN. cbn [app] in HN.
    apply NoDup_cons_iff in HN as [Hp HN].
    destruct IH as [IHl [IHi IHn]];
      [intros; apply HC; now right|exact HN|intros; apply HL; now right|].
    rewrite Em, Es. destruct (offers name si); cbn [app List.length].
    + split; [now rewrite IHl|]. split.
      * intros q [<-|Hq]; [now left|right; auto].
      * constructor; [|exact IHn]. intros Hin. apply Hp. auto.
    + split; [exact IHl|]. split; [|exact IHn].
      intros q Hq. right. auto.
Qed.

Lemma std_unique_cons2 (a b : str) (l : list str) :
  std_unique (a :: b :: l)
  = if str_eqb a b then std_unique (b :: l) else a :: std_unique (b :: l).
Proof. reflexivity. Qed.

Lemma std_unique_subsequence (l : list str) : Subsequence (std_unique l) l.
Proof.
  induction l as [|a rest IH]; [constructor|].
  destruct rest as [|b rest]; [apply sub_keep, sub_nil|].
  rewrite std_unique_cons2.
  destruct (str_eqb a b); [now apply sub_skip|now apply sub_keep].
Qed.

Lemma std_unique_keeps (l : list str) (u : str) :
  In u l -> In u (std_unique l).
Proof.
  induction l as [|a rest IH]; [intros []|].
  destruct rest as [|b rest]; [auto|].
  rewrite std_unique_cons2. destruct (str_eqb a b) eqn:E.
  - apply str_eqb_eq in E as ->. intros [<-|H]; apply IH; [now left|exact H].
  - intros [<-|H]; [now left|right; now apply IH].
Qed.

(** C2 (as amended).  The link list of a source holds every accepted link
    of its listing, in first-seen order.  The entry of a filename holds,
    in input order, the source of every enabled and successful index
    result once per link of that result with this bare filename.  When the
    results are those of distinct sources that are all enabled and
    successful, none of them lists the filename under two links, and the
    filename appears in K of them, the entry has exactly K members, each
    referring to another source. *)
Theorem build_availability_members (sources : list SourceEntry)
  (indexed : list SourceIndex) (name : str) (base_url html : str) :
  (Subsequence (extract_map_links_from_index_html base_url html)
     (collect_links base_url (href_matches html))
   /\ forall u, In u (collect_links base_url (href_matches html)) ->
                In u (extract_map_links_from_index_html base_url html))
  /\ map_at (build_availability sources indexed) name
     = members sources indexed name
  /\ ((forall si, In si indexed -> contributes sources si = true) ->
      NoDup (src_ptrs indexed) ->
      (forall si, In si indexed ->
         (List.length (filter (has_name name) (links si)) <= 1)%nat) ->
      List.length (map_at (build_availability sources indexed) name)
      = List.length (filter (offers name) indexed)
      /\ NoDup (map_at (build_availability sources indexed) name)).
Proof.
  split; [|split; [apply map_at_build|]].
  - unfold extract_map_links_from_index_html.
    split; [apply std_unique_subsequence|apply std_unique_keeps].
  - intros HC HN HL. rewrite map_at_build.
    destruct (members_distinct sources name indexed HC HN HL)
      as [H1 [_ H2]].
    now split.
Qed.

(** Two mirrors list dm_lockdown: two members, two sources. *)
Lemma build_availability_members_witness :
  List.length (map_at (build_availability four_mirrors
                         (firstn 2 four_indexed))
                 (lit "dm_lockdown.bsp.bz2")) = 2%nat
  /\ NoDup (map_at (build_availability four_mirrors (firstn 2 four_indexed))
              (lit "dm_lockdown.bsp.bz2")).
Proof.
  destruct (build_availability_members four_mirrors (firstn 2 four_indexed)
              (lit "dm_lockdown.bsp.bz2") (lit "http://a.example/")
              listing_a) as [_ [_ H]].
  apply H.
  - intros si [<-|[<-|[]]]; reflexivity.
  - vm_compute. repeat constructor; simpl; intuition discriminate.
  - intros si [<-|[<-|[]]]; vm_compute; lia.
Defined.

(** C2 as stated fails: one successful source lists dm_x.bsp under two
    different links; its link list has no duplicate, the filename appears
    in one index result, and the entry has two members, the same source
    twice. *)
Lemma two_directories_two_members :
  links (index_of one_mirror 0%nat two_directories_html)
  = [lit "http://a.example/hl2mp/dm_x.bsp";
     lit "http://a.example/old/dm_x.bsp"]
  /\ List.length (filter (offers (lit "dm_x.bsp"))
                    [index_of one_mirror 0%nat two_directories_html]) = 1%nat
  /\ map_at (build_availability one_mirror
               [index_of one_mirror 0%nat two_directories_html])
       (lit "dm_x.bsp") = [0; 0]%nat.
Proof. vm_compute. repeat split. Qed.

(** [std::unique] only joins neighbours: a link that comes back after
    another one stays twice in the list. *)
Lemma repeated_link_survives :
  extract_map_links_from_index_html (lit "http://a.example/")
    repeated_link_html
  = [lit "http://a.example/dm_a.bsp"; lit "http://a.example/dm_b.bsp";
     lit "http://a.example/dm_a.bsp"].
Proof. vm_compute. reflexivity. Qed.

(** ** Pipeline orchestrator *)

Example sample_run_summary :
  let st := run_pipeline sample_env sample_settings sample_run in
  (last_remote_unique (rs st), last_remote_after_filters (rs st),
   last_already_have (rs st), last_to_download (rs st)) = (2, 2, 1, 1)
  /\ requests (world st) = [lit "http://a.example/dm_lockdown.bsp.bz2"]
  /\ files (world st) (lit "hl2mp/download/maps/dm_lockdown.bsp.bz2") = None
  /\ downloading (rs st) = mkPhase false 1 1
  /\ deleting (rs st) = mkPhase false 1 1
  /\ failures (log (world st))
     = [lit "[IDX] http://c.example/ failed (Timeout was reached)";
        lit "[BZ2] Open failed: dm_lockdown.bsp.bz2"].
Proof. vm_compute. repeat split. Qed.

Lemma bounded_for_each_keeps {A S B : Type} (proj : S -> B)
  (cancel : nat -> bool) (order : list A -> list A) (work : A -> S -> S) :
  (forall x st, proj (work x st) = proj st) ->
  forall (items : list A) (st : S),
    proj (bounded_for_each cancel order work items st) = proj st.
Proof.
  intros H items. unfold bounded_for_each.
  induction (order (admitted cancel O items)) as [|x rest IH]; intros st.
  - reflexivity.
  - cbn [fold_left]. now rewrite IH, H.
Qed.

Lemma triple_eq {A B C : Type} (a a' : A) (b b' : B) (c c' : C) :
  (a, b, c) = (a', b', c') -> a = a' /\ b = b' /\ c = c'.
Proof. intros H. injection H. auto. Qed.

Lemma worker_index_keeps (env : PipelineEnv) (p : ptr)
  (acc : Run * list SourceIndex) :
  summary (fst (worker_index env p acc)) = summary (fst acc)
  /\ deleting (rs (fst (worker_index env p acc))) = deleting (rs (fst acc))
  /\ existing_files (rs (fst (worker_index env p acc)))
     = existing_files (rs (fst acc)).
Proof.
  unfold worker_index. destruct acc as [st indexed].
  destruct (empty (err (http_reply env p))
            && (200 <=? status (http_reply env p))
            && (status (http_reply env p) <? 400))%bool;
    repeat split.
Qed.

Lemma index_phase_keeps (env : PipelineEnv) (enabled : list ptr) (st : Run) :
  summary (fst (index_phase env enabled st)) = summary st
  /\ deleting (rs (fst (index_phase env enabled st))) = deleting (rs st)
  /\ existing_files (rs (fst (index_phase env enabled st)))
     = existing_files (rs st).
Proof.
  unfold index_phase.
  set (st0 := run_push _ _).
  pose proof (bounded_for_each_keeps
                (fun acc : Run * list SourceIndex =>
                   (summary (fst acc), deleting (rs (fst acc)),
                    existing_files (rs (fst acc))))
                (index_cancel env) (index_order env) (worker_index env))
    as K.
  specialize (K (fun x acc =>
                   match worker_index_keeps env x acc with
                   | conj a (conj b c) =>
                       f_equal2 pair (f_equal2 pair a b) c
                   end) enabled (st0, [])).
  destruct (bounded_for_each _ _ _ _ _) as [st1 indexed].
  cbn [fst] in K. apply triple_eq in K as [K1 [K2 K3]].
  repeat split; assumption.
Qed.

Lemma worker_download_keeps (env : PipelineEnv) (s : Settings)
  (dl_dir : str) (availability : AvailabilityMap) (name : str) (st : Run) :
  summary (worker_download env s dl_dir availability name st) = summary st
  /\ deleting (rs (worker_download env s dl_dir availability name st))
     = deleting (rs st)
  /\ total (downloading
              (rs (worker_download env s dl_dir availability name st)))
     = total (downloading (rs st)).
Proof.
  unfold worker_download.
  destruct (pick_best_source _ _); [|repeat split].
  destruct (download_file _ _ _ _ _ _). repeat split.
Qed.

Lemma download_phase_keeps (env : PipelineEnv) (s : Settings)
  (dl_dir : str) (availability : AvailabilityMap) (names : list str)
  (st : Run) :
  summary (download_phase env s dl_dir availability names st) = summary st
  /\ deleting (rs (download_phase env s dl_dir availability names st))
     = deleting (rs st)
  /\ total (downloading
              (rs (download_phase env s dl_dir availability names st)))
     = Z.of_nat (List.length names).
Proof.
  unfold download_phase. set (st0 := with_rs _ st).
  pose proof (bounded_for_each_keeps
                (fun st : Run =>
                   (summary st, deleting (rs st),
                    total (downloading (rs st))))
                (download_cancel env) (download_order env)
                (worker_download env s dl_dir availability)) as K.
  specialize (K (fun x st =>
                   match worker_download_keeps env s dl_dir availability
                           x st with
                   | conj a (conj b c) =>
                       f_equal2 pair (f_equal2 pair a b) c
                   end) names st0).
  apply triple_eq in K as [K1 [K2 K3]]. repeat split; assumption.
Qed.

Lemma worker_decompress_keeps (env : PipelineEnv) (s : Settings)
  (bz2 : str) (st : Run) :
  summary (worker_decompress env s bz2 st) = summary st
  /\ deleting (rs (worker_decompress env s bz2 st)) = deleting (rs st)
  /\ total (downloading (rs (worker_decompress env s bz2 st)))
     = total (downloading (rs st)).
Proof.
  unfold worker_decompress. destruct (decompress_bz2_to_file _ _ _ _ _).
  repeat split.
Qed.

Lemma decompress_phase_keeps (env : PipelineEnv) (s : Settings)
  (bz2s : list str) (st : Run) :
  summary (decompress_phase env s bz2s st) = summary st
  /\ deleting (rs (decompress_phase env s bz2s st)) = deleting (rs st)
  /\ total (downloading (rs (decompress_phase env s bz2s st)))
     = total (downloading (rs st)).
Proof.
  unfold decompress_phase. set (st0 := run_push _ _).
  pose proof (bounded_for_each_keeps
                (fun st : Run =>
                   (summary st, deleting (rs st),
                    total (downloading (rs st))))
                (decompress_cancel env) (decompress_order env)
                (worker_decompress env s)) as K.
  specialize (K (fun x st =>
                   match worker_decompress_keeps env s x st with
                   | conj a (conj b c) =>
                       f_equal2 pair (f_equal2 pair a b) c
                   end) bz2s st0).
  apply triple_eq in K as [K1 [K2 K3]]. repeat split; assumption.
Qed.

Lemma delete_loop_keeps (env : PipelineEnv) (bz2s : list str) :
  forall (i : nat) (st : Run),
    summary (delete_loop env i bz2s st) = summary st
    /\ total (downloading (rs (delete_loop env i bz2s st)))
       = total (downloading (rs st)).
Proof.
  induction bz2s as [|bz2 rest IH]; intros i st; cbn [delete_loop].
  - split; reflexivity.
  - destruct (delete_cancel env i); [split; reflexivity|].
    destruct (IH (S i)
                (with_rs (fun r => set_deleting (add_done (deleting r)) r)
                   match remove_error env bz2 with
                   | Some msg =>
                       run_fail st
                         (lit "[DEL] " ++ filename bz2 ++ lit " -> " ++ msg)
                   | None =>
                       with_world
                         (fun w => set_files w
                                     (fs_remove (files w) (c_str bz2))) st
                   end)) as [H1 H2].
    rewrite H1, H2. destruct (remove_error env bz2); split; reflexivity.
Qed.

Lemma after_download_keeps (env : PipelineEnv) (s : Settings) (st : Run) :
  summary (after_download env s st) = summary st
  /\ total (downloading (rs (after_download env s st)))
     = total (downloading (rs st)).
Proof.
  unfold after_download.
  destruct (cancel_after_download env); [split; reflexivity|].
  destruct (decompress s); [|split; reflexivity].
  set (bz2s := filter _ _).
  destruct (decompress_phase_keeps env s bz2s st) as [H1 [_ H3]].
  destruct (delete_bz2 s && negb (cancel_before_delete env))%bool.
  - unfold delete_phase.
    destruct (delete_loop_keeps env bz2s O
                (run_push
                   (with_rs
                      (set_deleting
                         (mkPhase true 0 (Z.of_nat (List.length bz2s))))
                      (decompress_phase env s bz2s st))
                   (lit "[i] Deleting .bz2 files..."))) as [D1 D2].
    split.
    + etransitivity; [|exact H1]. etransitivity; [|exact D1]. reflexivity.
    + etransitivity; [|exact H3]. etransitivity; [|exact D2]. reflexivity.
  - split; [etransitivity; [|exact H1]|etransitivity; [|exact H3]];
      reflexivity.
Qed.

Lemma reconcile_from_counts (includes excludes existing : list str)
  (availability : AvailabilityMap) :
  forall c : Reconciliation,
    already_have c + to_download c = remote_after_filters c ->
    Z.of_nat (List.length (to_get c)) = to_download c ->
    let c' := reconcile_from c includes excludes existing availability in
    already_have c' + to_download c' = remote_after_filters c'
    /\ Z.of_nat (List.length (to_get c')) = to_download c'.
Proof.
  induction availability as [|[name srcs] rest IH]; intros c H1 H2;
    cbn [reconcile_from].
  - now split.
  - destruct (negb (passes_filters name includes excludes)); [now apply IH|].
    destruct (set_contains existing name); apply IH; cbn; try lia.
    rewrite length_app. cbn. lia.
Qed.

Lemma reconcile_counts (includes excludes existing : list str)
  (availability : AvailabilityMap) :
  let c := reconcile includes excludes existing availability in
  already_have c + to_download c = remote_after_filters c
  /\ Z.of_nat (List.length (to_get c)) = to_download c.
Proof. apply reconcile_from_counts; reflexivity. Qed.

Lemma run_sources_scan (found : list str) (st : Run) :
  run_sources (scan_existing_maps found (with_rs reset_phases st))
  = run_sources st.
Proof. reflexivity. Qed.

(** The counters after a full run: untouched when an entry check stops
    the run, those of the reconciliation otherwise. *)
Lemma run_pipeline_summary (env : PipelineEnv) (s : Settings) (st : Run) :
  (pipeline_reconciles env s st = false
   /\ summary (run_pipeline env s st) = summary st)
  \/ (pipeline_reconciles env s st = true
      /\ exists (availability : AvailabilityMap) (includes excludes : list str)
                (existing : list str),
           let c := reconcile includes excludes existing availability in
           summary (run_pipeline env s st)
           = (Z.of_nat (List.length availability), remote_after_filters c,
              already_have c, to_download c)
           /\ total (downloading (rs (run_pipeline env s st)))
              = Z.of_nat (List.length (to_get c))).
Proof.
  unfold run_pipeline, pipeline_reconciles, index_only_reconciles.
  destruct (empty (hl2mp_path s)); cbn [negb andb orb]; [left; now split|].
  destruct (path_exists env); cbn [negb andb orb]; [|left; now split].
  destruct (mkdir_error env) as [msg|].
  { left. rewrite andb_false_r. now split. }
  rewrite run_sources_scan, andb_true_r.
  destruct (is_nil (enabled_ptrs (run_sources st))); cbn [negb];
    [left; now split|].
  right. split; [reflexivity|].
  destruct (index_phase env (enabled_ptrs (run_sources st))
              (scan_existing_maps (scanned env) (with_rs reset_phases st)))
    as [st1 indexed].
  exists (build_availability (run_sources st1) indexed),
         (split_csv_terms (include_filters s)),
         (split_csv_terms (exclude_filters s)),
         (existing_files (rs st1)).
  cbv zeta.
  set (c := reconcile _ _ _ _).
  set (st2 := run_push _ _).
  set (dl_dir := path_append _ _).
  destruct (after_download_keeps env s
              (download_phase env s dl_dir
                 (build_availability (run_sources st1) indexed)
                 (to_get c) st2)) as [A1 A2].
  destruct (download_phase_keeps env s dl_dir
              (build_availability (run_sources st1) indexed)
              (to_get c) st2) as [D1 [_ D3]].
  split.
  - rewrite A1, D1. reflexivity.
  - rewrite A2, D3. reflexivity.
Qed.

Lemma run_index_only_summary (env : PipelineEnv) (s : Settings) (st : Run) :
  (index_only_reconciles env s st = false
   /\ summary (run_index_only env s st) = summary st)
  \/ (index_only_reconciles env s st = true
      /\ exists (availability : AvailabilityMap) (includes excludes : list str)
                (existing : list str),
           let c := reconcile includes excludes existing availability in
           summary (run_index_only env s st)
           = (Z.of_nat (List.length availability), remote_after_filters c,
              already_have c, to_download c)).
Proof.
  unfold run_index_only, index_only_reconciles.
  destruct (empty (hl2mp_path s)); cbn [negb andb orb]; [left; now split|].
  destruct (path_exists env); cbn [negb andb orb]; [|left; now split].
  rewrite run_sources_scan.
  destruct (is_nil (enabled_ptrs (run_sources st))); cbn [negb];
    [left; now split|].
  right. split; [reflexivity|].
  destruct (index_phase env (enabled_ptrs (run_sources st))
              (scan_existing_maps (scanned env) (with_rs reset_phases st)))
    as [st1 indexed].
  exists (build_availability (run_sources st1) indexed),
         (split_csv_terms (include_filters s)),
         (split_csv_terms (exclude_filters s)),
         (existing_files (rs st1)).
  reflexivity.
Qed.

Lemma summary_agree (st : Run) (u a h t : Z) :
  summary st = (u, a, h, t) -> h + t = a -> counts_agree (rs st).
Proof.
  unfold summary, counts_agree. intros E H. injection E as _ -> -> ->.
  exact H.
Qed.

Lemma summary_agree_eq (st st' : Run) :
  summary st' = summary st -> counts_agree (rs st) -> counts_agree (rs st').
Proof.
  unfold summary, counts_agree. intros E H. injection E as _ -> -> ->.
  exact H.
Qed.

(** C7.  A run that reaches its reconciliation, index-only or full, ends
    with already-present plus requiring-download equal to the after-filter
    count; a run stopped by an entry check leaves the counters of the last
    run, which agree if they did.  The worklist that the reconciliation
    builds has as many names as the requiring-download count, and the full
    pipeline takes that length as the total of the download phase. *)
Theorem reconciliation_counts (env : PipelineEnv) (s : Settings) (st : Run) :
  (index_only_reconciles env s st = true ->
   counts_agree (rs (run_index_only env s st)))
  /\ (pipeline_reconciles env s st = true ->
      counts_agree (rs (run_pipeline env s st))
      /\ total (downloading (rs (run_pipeline env s st)))
         = last_to_download (rs (run_pipeline env s st)))
  /\ (counts_agree (rs st) ->
      counts_agree (rs (run_index_only env s st))
      /\ counts_agree (rs (run_pipeline env s st)))
  /\ (forall (includes excludes existing : list str)
             (availability : AvailabilityMap),
        let c := reconcile includes excludes existing availability in
        already_have c + to_download c = remote_after_filters c
        /\ Z.of_nat (List.length (to_get c)) = to_download c).
Proof.
  assert (I : (index_only_reconciles env s st = true ->
               counts_agree (rs (run_index_only env s st)))
              /\ (counts_agree (rs st) ->
                  counts_agree (rs (run_index_only env s st)))).
  { destruct (run_index_only_summary env s st)
      as [[E H] | [E [av [inc [exc [ex H]]]]]]; rewrite E.
    - split; [discriminate|]. now apply summary_agree_eq.
    - cbv zeta in H.
      assert (counts_agree (rs (run_index_only env s st)))
        by (eapply summary_agree; [exact H|apply reconcile_counts]).
      split; auto. }
  assert (P : (pipeline_reconciles env s st = true ->
               counts_agree (rs (run_pipeline env s st))
               /\ total (downloading (rs (run_pipeline env s st)))
                  = last_to_download (rs (run_pipeline env s st)))
              /\ (counts_agree (rs st) ->
                  counts_agree (rs (run_pipeline env s st)))).
  { destruct (run_pipeline_summary env s st)
      as [[E H] | [E [av [inc [exc [ex [H T]]]]]]]; rewrite E.
    - split; [discriminate|]. now apply summary_agree_eq.
    - cbv zeta in H, T.
      destruct (reconcile_counts inc exc ex av) as [R1 R2].
      assert (counts_agree (rs (run_pipeline env s st)))
        by (eapply summary_agree; [exact H|exact R1]).
      split; [|auto]. intros _. split; [assumption|].
      rewrite T, R2. unfold summary in H. now injection H as _ _ _ ->. }
  destruct I as [I1 I2], P as [P1 P2].
  split; [exact I1|]. split; [exact P1|]. split; [auto|].
  intros. apply reconcile_counts.
Qed.

(** The sample run: two names pass, one is already there, one is fetched,
    and the download phase counts one item. *)
Lemma reconciliation_counts_witness :
  counts_agree (rs (run_index_only sample_env sample_settings sample_run))
  /\ counts_agree (rs (run_pipeline sample_env sample_settings sample_run))
  /\ total (downloading
              (rs (run_pipeline sample_env sample_settings sample_run)))
     = last_to_download
         (rs (run_pipeline sample_env sample_settings sample_run)).
Proof.
  destruct (reconciliation_counts sample_env sample_settings sample_run)
    as [I [P _]].
  split; [apply I; reflexivity|]. apply P. reflexivity.
Defined.

Lemma after_download_deleting (env : PipelineEnv) (s : Settings) (st : Run) :
  (decompress s && delete_bz2 s && negb (cancel_after_download env)
   && negb (cancel_before_delete env))%bool = false ->
  deleting (rs (after_download env s st)) = deleting (rs st).
Proof.
  unfold after_download. intros H.
  destruct (cancel_after_download env); [reflexivity|].
  destruct (decompress s); [|reflexivity].
  set (bz2s := filter _ _).
  destruct (decompress_phase_keeps env s bz2s st) as [_ [K _]].
  destruct (delete_bz2 s); cbn [andb negb] in H |- *; [|exact K].
  rewrite H. exact K.
Qed.

Lemma run_pipeline_deleting (env : PipelineEnv) (s : Settings) (st : Run) :
  (decompress s && delete_bz2 s && negb (cancel_after_download env)
   && negb (cancel_before_delete env))%bool = false ->
  deleting (rs (run_pipeline env s st)) = mkPhase false 0 0.
Proof.
  intros H. unfold run_pipeline.
  destruct (empty (hl2mp_path s) || negb (path_exists env))%bool;
    [reflexivity|].
  destruct (mkdir_error env) as [msg|]; [reflexivity|].
  rewrite run_sources_scan.
  destruct (is_nil (enabled_ptrs (run_sources st))); [reflexivity|].
  pose proof (index_phase_keeps env (enabled_ptrs (run_sources st))
                (scan_existing_maps (scanned env)
                   (with_rs reset_phases st))) as [_ [K _]].
  destruct (index_phase env (enabled_ptrs (run_sources st))
              (scan_existing_maps (scanned env) (with_rs reset_phases st)))
    as [st1 indexed].
  cbn [fst] in K. rewrite (after_download_deleting env s _ H).
  set (c := reconcile _ _ _ _). set (st2 := run_push _ _).
  set (dl_dir := path_append _ _).
  destruct (download_phase_keeps env s dl_dir
              (build_availability (run_sources st1) indexed)
              (to_get c) st2) as [_ [D _]].
  rewrite D. exact K.
Qed.

Lemma after_download_without_delete (env : PipelineEnv) (s : Settings)
  (st : Run) :
  decompress s = false \/ cancel_after_download env = true
  \/ cancel_before_delete env = true ->
  after_download env s st = after_download env (set_delete_bz2 false s) st.
Proof.
  unfold after_download. intros H.
  destruct (cancel_after_download env); [reflexivity|].
  change (decompress (set_delete_bz2 false s)) with (decompress s).
  destruct (decompress s); [|reflexivity].
  destruct H as [H|[H|H]]; try discriminate. rewrite H.
  cbn [negb andb]. rewrite andb_false_r. reflexivity.
Qed.

(** C3 (as amended).  In a full run the Deleting phase leaves its mark on
    the run state only if decompression and deletion are both configured
    and the cancellation flag is seen set neither after the download phase
    nor after the decompression phase; when one of the last three fails,
    the run is the run with deletion switched off, so no .bz2 file is
    removed by it.  Whether the decompression of a file succeeded plays no
    part. *)
Theorem deleting_phase_gate (env : PipelineEnv) (s : Settings) (st : Run) :
  (deleting (rs (run_pipeline env s st)) <> mkPhase false 0 0 ->
   decompress s = true /\ delete_bz2 s = true
   /\ cancel_after_download env = false
   /\ cancel_before_delete env = false)
  /\ (decompress s = false \/ cancel_after_download env = true
      \/ cancel_before_delete env = true ->
      run_pipeline env s st = run_pipeline env (set_delete_bz2 false s) st).
Proof.
  split.
  - intros H.
    destruct (decompress s && delete_bz2 s
              && negb (cancel_after_download env)
              && negb (cancel_before_delete env))%bool eqn:E.
    + apply andb_true_iff in E as [E E4].
      apply andb_true_iff in E as [E E3].
      apply andb_true_iff in E as [E1 E2].
      apply negb_true_iff in E3, E4. auto.
    + exfalso. apply H. now apply run_pipeline_deleting.
  - intros H. unfold run_pipeline.
    change (hl2mp_path (set_delete_bz2 false s)) with (hl2mp_path s).
    destruct (empty (hl2mp_path s) || negb (path_exists env))%bool;
      [reflexivity|].
    destruct (mkdir_error env) as [msg|]; [reflexivity|].
    rewrite run_sources_scan.
    destruct (is_nil (enabled_ptrs (run_sources st))); [reflexivity|].
    destruct (index_phase env (enabled_ptrs (run_sources st))
                (scan_existing_maps (scanned env) (with_rs reset_phases st)))
      as [st1 indexed].
    rewrite (after_download_without_delete env s _ H). reflexivity.
Qed.

(** The gate at the sample run, where the phase runs, and at the same run
    with decompression switched off. *)
Lemma deleting_phase_gate_witness :
  (decompress sample_settings = true /\ delete_bz2 sample_settings = true
   /\ cancel_after_download sample_env = false
   /\ cancel_before_delete sample_env = false)
  /\ run_pipeline sample_env (set_decompress false sample_settings) sample_run
     = run_pipeline sample_env
         (set_delete_bz2 false (set_decompress false sample_settings))
         sample_run.
Proof.
  split.
  - apply (deleting_phase_gate sample_env sample_settings sample_run).
    vm_compute. discriminate.
  - apply (deleting_phase_gate sample_env
             (set_decompress false sample_settings) sample_run).
    left. reflexivity.
Defined.

(** C3 as stated fails: in the sample run the destination of
    dm_lockdown.bsp cannot be opened, [decompress_bz2_to_file] returns
    false and no .bsp appears, and the Deleting phase runs all the same and
    removes the archive, which the run with deletion switched off keeps. *)
Lemma failed_decompression_still_deleted :
  (forall w : World,
     fst (decompress_bz2_to_file (decompress_env sample_env sample_bz2)
            sample_bz2 (remove_extension sample_bz2)
            (retries sample_settings) w) = false)
  /\ deleting (rs (run_pipeline sample_env sample_settings sample_run))
     = mkPhase false 1 1
  /\ files (world (run_pipeline sample_env sample_settings sample_run))
       sample_bz2 = None
  /\ files (world (run_pipeline sample_env sample_settings sample_run))
       (remove_extension sample_bz2) = None
  /\ files (world (run_pipeline sample_env
                     (set_delete_bz2 false sample_settings) sample_run))
       sample_bz2 = Some (lit "BZh9").
Proof.
  split; [intros w; reflexivity|]. vm_compute. repeat split.
Qed.

(** ** Bounded task runner *)

Lemma runner_inv_init (cap : Z) (items : nat) (cancel0 : bool) :
  1 <= cap -> runner_inv cap (runner_init items cancel0).
Proof.
  intros H. unfold runner_inv, runner_init. cbn.
  repeat split; try lia; discriminate.
Qed.

Ltac runner_cases :=
  repeat match goal with
    | H : Some _ = Some _ |- _ => injection H as <-
    | H : None = Some _ |- _ => discriminate H
    | H : context [match pending ?r with _ => _ end] |- _ =>
        destruct (pending r)
    | H : context [if cancel ?r then _ else _] |- _ =>
        destruct (cancel r) eqn:?
    | H : context [if ?a <? ?b then _ else _] |- _ =>
        destruct (Z.ltb_spec a b)
    end.

Lemma launcher_step_inv (cap : Z) (r r' : Runner) :
  runner_inv cap r -> launcher_step cap r = Some r' -> runner_inv cap r'.
Proof.
  intros [Hsum [Hcap [Hadd [Hif Hseen]]]] E.
  unfold launcher_step in E. unfold runner_inv.
  destruct (pc r) eqn:P; runner_cases;
    cbn [pc in_flight in_body at_fetch_sub cancel seen_cancel at_pc
         saw_cancel];
    repeat split; intros; try discriminate; try lia; auto;
    try (destruct (seen_cancel r) eqn:Es;
         [destruct (Hseen eq_refl) as [? [?|?]]; congruence|]);
    try discriminate; auto; try lia.
  specialize (Hadd eq_refl). lia.
Qed.

Lemma worker_step_inv (cap : Z) (r r' : Runner) :
  runner_inv cap r ->
  body_returns r = Some r' \/ fetch_sub r = Some r'
  \/ user_cancels r = r' ->
  runner_inv cap r'.
Proof.
  intros [Hsum [Hcap [Hadd [Hif Hseen]]]] [E|[E|E]]; unfold runner_inv.
  - unfold body_returns in E. destruct (in_body r) eqn:B; [discriminate|].
    injection E as <-. cbn [pc in_flight in_body at_fetch_sub cancel
                            seen_cancel].
    repeat split; intros; auto; try lia; now apply Hseen.
  - unfold fetch_sub in E. destruct (at_fetch_sub r) eqn:B; [discriminate|].
    injection E as <-. cbn [pc in_flight in_body at_fetch_sub cancel
                            seen_cancel].
    repeat split; intros; try lia; try (now apply Hseen);
      try (specialize (Hadd ltac:(assumption)); lia);
      try (specialize (Hif ltac:(assumption) ltac:(assumption)); lia).
  - subst r'. cbn [pc in_flight in_body at_fetch_sub cancel seen_cancel
                   user_cancels].
    repeat split; intros; auto; now apply Hseen.
Qed.

Lemma runner_inv_step (cap : Z) (r r' : Runner) :
  runner_inv cap r -> runner_step cap r r' -> runner_inv cap r'.
Proof.
  intros I [[| | |] E]; cbn [runner_exec] in E.
  - now apply (launcher_step_inv cap r).
  - apply (worker_step_inv cap r); auto.
  - apply (worker_step_inv cap r); auto.
  - injection E as E. apply (worker_step_inv cap r); auto.
Qed.

Lemma runner_inv_run (cap : Z) (schedule : list Actor) :
  forall r r' : Runner,
    runner_inv cap r -> runner_run cap schedule r = Some r' ->
    runner_inv cap r'.
Proof.
  induction schedule as [|a rest IH]; intros r r' I E; cbn in E.
  - now injection E as <-.
  - destruct (runner_exec cap a r) as [r1|] eqn:X; [|discriminate].
    apply (IH r1); [|exact E]. apply (runner_inv_step cap r); [exact I|].
    now exists a.
Qed.

Lemma runner_step_after_cancel (cap : Z) (r r' : Runner) :
  runner_inv cap r -> runner_step cap r r' -> seen_cancel r = true ->
  seen_cancel r' = true /\ launched r' = launched r
  /\ pending r' = pending r.
Proof.
  intros [_ [_ [_ [_ Hseen]]]] [a E] Hs.
  destruct (Hseen Hs) as [Hc Hpc]. unfold launched.
  destruct a; cbn [runner_exec] in E.
  - unfold launcher_step in E. rewrite Hc in E.
    destruct Hpc as [P|P]; rewrite P in E; [|discriminate].
    injection E as <-. cbn. auto.
  - unfold body_returns in E. destruct (in_body r) eqn:B; [discriminate|].
    injection E as <-. cbn. repeat split; auto. lia.
  - unfold fetch_sub in E. destruct (at_fetch_sub r) eqn:B; [discriminate|].
    injection E as <-. cbn. repeat split; auto. lia.
  - injection E as <-. cbn. auto.
Qed.

(** C9.  With the cap N = max (1, threads), in every state that the
    admission loop of a parallel phase can reach, however the launching
    thread, the work items and the Cancel button interleave, at most N
    work-item bodies are running; and once the launching thread has read
    the cancellation flag as set, no step launches an item any more: the
    count of launched items and the count of pending ones stay as they
    are, while the items in flight go on to their end. *)
Theorem bounded_runner_cap (s : Settings) (items : nat) (cancel0 : bool)
  (r : Runner) :
  runner_reaches (Z.max 1 (threads s)) (runner_init items cancel0) r ->
  Z.of_nat (in_body r) <= Z.max 1 (threads s)
  /\ (forall r', runner_step (Z.max 1 (threads s)) r r' ->
                 seen_cancel r = true ->
                 seen_cancel r' = true /\ launched r' = launched r
                 /\ pending r' = pending r).
Proof.
  intros [schedule H].
  assert (I : runner_inv (Z.max 1 (threads s)) r).
  { eapply runner_inv_run; [|exact H]. apply runner_inv_init. lia. }
  split.
  - destruct I as [Hsum [Hcap _]]. destruct (pc r); lia.
  - intros r' Hstep Hs.
    exact (runner_step_after_cancel _ r r' I Hstep Hs).
Qed.

(** The loop of two items under the settings of the sample run, after the
    launching thread has moved six times: one item is in its body. *)
Lemma bounded_runner_cap_witness :
  Z.of_nat (in_body one_launched) <= Z.max 1 (threads sample_settings).
Proof.
  apply (bounded_runner_cap sample_settings 2 false one_launched).
  exists (repeat Launcher 6). reflexivity.
Defined.

(** The cap is reached: with two threads both items of a phase can be in
    their bodies at once; with one thread the second item waits until the
    first has run its [fetch_sub]. *)
Lemma two_bodies_at_once :
  option_map in_body
    (runner_run 2 (repeat Launcher 12) (runner_init 2 false)) = Some 2%nat
  /\ option_map (fun r => (in_body r, pc r))
       (runner_run 1 (repeat Launcher 41) (runner_init 2 false))
     = Some (1%nat, AtWhile)
  /\ option_map (fun r => (in_body r, finished r, pc r))
       (runner_run 1
          (repeat Launcher 9 ++ [BodyReturns; FetchSub] ++ repeat Launcher 6)
          (runner_init 2 false))
     = Some (1%nat, 1%nat, AtWait).
Proof. repeat split; reflexivity. Qed.

(* ================================================================== *)
(** * Part II, continued: what else the code shows *)
(* ================================================================== *)

(** ** Text helpers *)

Ltac all_chars c :=
  destruct c as [b0 b1 b2 b3 b4 b5 b6 b7];
  destruct b0, b1, b2, b3, b4, b5, b6, b7; reflexivity.

Lemma tolower_idem (c : ascii) : tolower (tolower c) = tolower c.
Proof. all_chars c. Qed.

Lemma isspace_tolower (c : ascii) : isspace (tolower c) = isspace c.
Proof. all_chars c. Qed.

Lemma is_comma_tolower (c : ascii) :
  is_char (tolower c) comma = is_char c comma.
Proof. all_chars c. Qed.

Lemma lower_copy_idem (s : str) : lower_copy (lower_copy s) = lower_copy s.
Proof.
  unfold lower_copy. rewrite map_map. apply map_ext. apply tolower_idem.
Qed.

Lemma erase_front_head (s : str) :
  match erase_front_spaces s with
  | c :: _ => isspace c = false
  | [] => True
  end.
Proof.
  induction s as [|c s IH]; simpl; [exact I|].
  destruct (isspace c) eqn:E; [exact IH|exact E].
Qed.

Lemma erase_front_fixed (s : str) :
  match s with c :: _ => isspace c = false | [] => True end ->
  erase_front_spaces s = s.
Proof. destruct s as [|c s]; simpl; [reflexivity|]. now intros ->. Qed.

Lemma pop_back_last (s : str) :
  match rev (pop_back_spaces s) with
  | c :: _ => isspace c = false
  | [] => True
  end.
Proof.
  unfold pop_back_spaces. rewrite rev_involutive. apply erase_front_head.
Qed.

Lemma pop_back_fixed (s : str) :
  match rev s with c :: _ => isspace c = false | [] => True end ->
  pop_back_spaces s = s.
Proof.
  intros H. unfold pop_back_spaces.
  rewrite (erase_front_fixed _ H). apply rev_involutive.
Qed.

Lemma pop_back_head (s : str) :
  match s with c :: _ => isspace c = false | [] => True end ->
  match pop_back_spaces s with c :: _ => isspace c = false | [] => True end.
Proof.
  intros H. destruct (pop_back_split s) as [w [Hw E]].
  destruct (pop_back_spaces s) as [|d t] eqn:P; [exact I|].
  rewrite E in H. exact H.
Qed.

Lemma trim_head (s : str) :
  match trim s with c :: _ => isspace c = false | [] => True end.
Proof. unfold trim. apply pop_back_head, erase_front_head. Qed.

Lemma trim_last (s : str) :
  match rev (trim s) with c :: _ => isspace c = false | [] => True end.
Proof. unfold trim. apply pop_back_last. Qed.

Lemma trim_idem (s : str) : trim (trim s) = trim s.
Proof.
  unfold trim at 1. rewrite (erase_front_fixed _ (trim_head s)).
  apply pop_back_fixed, trim_last.
Qed.

(** X1.  [trim] cuts white space off both ends and nothing else: the
    argument is white space, the result, white space; the result neither
    starts nor ends with a white-space char; trimming twice is trimming
    once. *)
Theorem trim_shape (s : str) :
  (exists w1 w2, all_spaces w1 = true /\ all_spaces w2 = true
                 /\ s = w1 ++ trim s ++ w2)
  /\ match trim s with c :: _ => isspace c = false | [] => True end
  /\ match rev (trim s) with c :: _ => isspace c = false | [] => True end
  /\ trim (trim s) = trim s.
Proof.
  split; [| split; [apply trim_head | split; [apply trim_last |]]].
  - destruct (trim_split s) as [w1 [w2 [H1 [H2 E]]]]. now exists w1, w2.
  - apply trim_idem.
Qed.

Lemma erase_front_lower (s : str) :
  erase_front_spaces (lower_copy s) = lower_copy (erase_front_spaces s).
Proof.
  induction s as [|c s IH]; simpl; [reflexivity|].
  rewrite isspace_tolower. destruct (isspace c); [exact IH|reflexivity].
Qed.

Lemma trim_lower (s : str) : trim (lower_copy s) = lower_copy (trim s).
Proof.
  unfold trim, pop_back_spaces. rewrite erase_front_lower.
  unfold lower_copy at 1. rewrite <- map_rev.
  fold (lower_copy (rev (erase_front_spaces s))).
  rewrite erase_front_lower. unfold lower_copy. now rewrite map_rev.
Qed.

Lemma split_on_comma_lower (s : str) :
  split_on_comma (lower_copy s) = map lower_copy (split_on_comma s).
Proof.
  induction s as [|c s IH]; simpl; [reflexivity|].
  rewrite is_comma_tolower, IH. destruct (is_char c comma); [reflexivity|].
  destruct (split_on_comma s); reflexivity.
Qed.

Lemma spec_tokens_lower (s : str) :
  spec_tokens (lower_copy s) = map lower_copy (spec_tokens s).
Proof.
  unfold spec_tokens. rewrite split_on_comma_lower.
  induction (split_on_comma s) as [|p ps IH]; [reflexivity|].
  cbn [map filter]. rewrite trim_lower, IH.
  destruct (trim p); reflexivity.
Qed.

Lemma split_csv_terms_lower (s : str) :
  split_csv_terms (lower_copy s) = split_csv_terms s.
Proof.
  rewrite !split_csv_terms_spec, spec_tokens_lower, map_map.
  apply map_ext. apply lower_copy_idem.
Qed.

Lemma passes_filters_lower (filename0 include_spec exclude_spec : str) :
  passes_filters (lower_copy filename0)
    (split_csv_terms (lower_copy include_spec))
    (split_csv_terms (lower_copy exclude_spec))
  = passes_filters filename0 (split_csv_terms include_spec)
      (split_csv_terms exclude_spec).
Proof.
  rewrite !split_csv_terms_lower. unfold passes_filters.
  now rewrite lower_copy_idem.
Qed.

Lemma same_nocase_lower (a b : str) :
  same_nocase a b -> lower_copy a = lower_copy b.
Proof.
  induction 1 as [| c d a b Hcd _ IH]; [reflexivity |].
  cbn [lower_copy map]. fold (lower_copy a). fold (lower_copy b).
  apply tolower_same_letter in Hcd. now rewrite Hcd, IH.
Qed.

(** X2.  Letter case plays no part in the verdict of the filter: two
    filenames that differ in letter case only, checked against include
    and exclude specifications that differ in letter case only, get the
    same verdict.  Letter case is the one of the specification (equal
    chars, or a capital A to Z and its small letter), not the case folding
    of the code. *)
Theorem passes_filters_ignores_case
    (filename0 filename1 include0 include1 exclude0 exclude1 : str) :
  same_nocase filename0 filename1 ->
  same_nocase include0 include1 ->
  same_nocase exclude0 exclude1 ->
  passes_filters filename0 (split_csv_terms include0)
    (split_csv_terms exclude0)
  = passes_filters filename1 (split_csv_terms include1)
      (split_csv_terms exclude1).
Proof.
  intros Hf Hi He.
  rewrite <- (passes_filters_lower filename0 include0 exclude0).
  rewrite <- (passes_filters_lower filename1 include1 exclude1).
  now rewrite (same_nocase_lower _ _ Hf), (same_nocase_lower _ _ Hi),
    (same_nocase_lower _ _ He).
Qed.

(** Two spellings of one filename and of one pair of specifications: the
    verdicts agree, and the name passes. *)
Lemma passes_filters_ignores_case_witness :
  passes_filters (lit "DM_Lockdown.BSP") (split_csv_terms (lit "Lock, dm_"))
    (split_csv_terms (lit "RunOff"))
  = passes_filters (lit "dm_lockDOWN.bsp")
      (split_csv_terms (lit "lOCK, DM_")) (split_csv_terms (lit "rUNoFF"))
  /\ passes_filters (lit "dm_lockDOWN.bsp")
       (split_csv_terms (lit "lOCK, DM_")) (split_csv_terms (lit "rUNoFF"))
     = true.
Proof.
  split; [| reflexivity].
  apply passes_filters_ignores_case;
    unfold same_nocase, lit; cbn [list_ascii_of_string];
    repeat (constructor; [reflexivity |]); constructor.
Defined.

Lemma split_on_comma_no_comma (s p : str) :
  In p (split_on_comma s) -> no_char comma p.
Proof.
  revert p. induction s as [|c s IH]; simpl; intros p.
  - intros [<-|[]] d [].
  - destruct (is_char c comma) eqn:E.
    + intros [<-|H]; [intros d []|now apply IH].
    + destruct (split_on_comma s) as [|q qs].
      * intros [<-|[]] d [<-|[]]. exact E.
      * intros [<-|H].
        -- intros d [<-|Hd]; [exact E|]. apply (IH q); [now left|exact Hd].
        -- apply IH. now right.
Qed.

Lemma trim_incl (s : str) (d : ascii) : In d (trim s) -> In d s.
Proof.
  destruct (trim_split s) as [w1 [w2 [_ [_ E]]]]. intros H.
  rewrite E. apply in_or_app. right. apply in_or_app. now left.
Qed.

Lemma trim_all_spaces (s : str) : all_spaces s = true -> trim s = [].
Proof.
  intros H. rewrite <- (app_nil_r s). now rewrite (trim_app_front s []).
Qed.

(** X3.  Every term that [split_csv_terms] returns is non-empty, has no
    white space at either end, is in lower case and holds no comma; a
    specification made of white space only gives no term at all. *)
Theorem split_csv_terms_shape (s t : str) :
  (In t (split_csv_terms s) ->
   t <> [] /\ trim t = t /\ lower_copy t = t /\ no_char comma t)
  /\ (all_spaces s = true -> split_csv_terms s = []).
Proof.
  split.
  - rewrite split_csv_terms_spec. intros H.
    apply in_map_iff in H as [u [<- Hu]].
    pose proof (spec_tokens_nonempty _ _ Hu) as Hne.
    unfold spec_tokens in Hu. apply filter_In in Hu as [Hu _].
    apply in_map_iff in Hu as [p [<- Hp]].
    split; [destruct (trim p); [congruence|discriminate]|].
    split; [|split].
    + rewrite trim_lower. f_equal. apply trim_idem.
    + apply lower_copy_idem.
    + intros d Hd. apply in_map_iff in Hd as [d' [<- Hd']].
      rewrite is_comma_tolower.
      apply (split_on_comma_no_comma s p Hp). now apply trim_incl.
  - intros H. unfold split_csv_terms. now rewrite trim_all_spaces.
Qed.

Lemma split_csv_terms_shape_witness :
  lit "ctf_" <> [] /\ trim (lit "ctf_") = lit "ctf_"
  /\ lower_copy (lit "ctf_") = lit "ctf_" /\ no_char comma (lit "ctf_").
Proof.
  apply (split_csv_terms_shape (lit " dm_ , CTF_ ") (lit "ctf_")).
  vm_compute. auto.
Defined.

Lemma passes_filters_iff (filename0 : str) (includes excludes : list str) :
  passes_filters filename0 includes excludes = true <->
  (includes = []
   \/ any_term_found (lower_copy filename0) includes = true)
  /\ any_term_found (lower_copy filename0) excludes = false.
Proof.
  unfold passes_filters.
  destruct includes as [|i il]; destruct excludes as [|e el];
    cbn [negb andb];
    [ | destruct (any_term_found _ (e :: el))
      | destruct (any_term_found _ (i :: il))
      | destruct (any_term_found _ (i :: il));
        destruct (any_term_found _ (e :: el)) ];
    cbn [negb andb]; split; intros H; try reflexivity; try discriminate;
    try (split; [now left|reflexivity]);
    try (split; [now right|reflexivity]);
    try (destruct H as [[H|H] H']; discriminate).
Qed.

Lemma any_term_found_incl (name : str) (l l' : list str) :
  incl l l' -> any_term_found name l = true -> any_term_found name l' = true.
Proof.
  intros Hi H. apply any_term_found_spec in H as [t [Hin H]].
  apply any_term_found_spec. exists t. split; [now apply Hi|exact H].
Qed.

(** X4.  The verdict is monotone in the two term lists: a filename that
    passes still passes when include terms are added to a non-empty
    include list and exclude terms are taken away.  An include list that
    is not empty but holds empty terms only lets no filename pass. *)
Theorem passes_filters_monotone (filename0 : str)
  (includes includes' excludes excludes' : list str) :
  (passes_filters filename0 includes excludes = true ->
   includes <> [] -> incl includes includes' -> incl excludes' excludes ->
   passes_filters filename0 includes' excludes' = true)
  /\ (includes <> [] -> (forall t, In t includes -> t = []) ->
      passes_filters filename0 includes excludes = false).
Proof.
  split.
  - intros H Hne Hi He. apply passes_filters_iff in H as [[H|H] Hx];
      [congruence|].
    apply passes_filters_iff. split.
    + right. now apply (any_term_found_incl _ includes).
    + destruct (any_term_found (lower_copy filename0) excludes') eqn:E;
        [|reflexivity].
      apply (any_term_found_incl _ _ _ He) in E. congruence.
  - intros Hne Hall.
    destruct (passes_filters filename0 includes excludes) eqn:E;
      [|reflexivity].
    apply passes_filters_iff in E as [[E|E] _]; [congruence|].
    apply any_term_found_spec in E as [t [Hin [Ht _]]].
    now apply Hall in Hin.
Qed.

Lemma passes_filters_monotone_witness :
  passes_filters (lit "dm_lockdown.bsp") [lit "dm_"; lit "ctf_"] [] = true
  /\ passes_filters (lit "dm_lockdown.bsp") [[]] [] = false.
Proof.
  destruct (passes_filters_monotone (lit "dm_lockdown.bsp") [lit "dm_"]
              [lit "dm_"; lit "ctf_"] [lit "zombie"] []) as [H _].
  destruct (passes_filters_monotone (lit "dm_lockdown.bsp") [[]] [[]] [] [])
    as [_ H'].
  split.
  - apply H; [reflexivity|discriminate| |].
    + intros t [<-|[]]. now left.
    + intros t [].
  - apply H'; [discriminate|]. intros t [<-|[]]. reflexivity.
Defined.

(** ** URLs and paths *)

Lemma is_char_eq (c d : ascii) : is_char c d = true <-> c = d.
Proof. unfold is_char. destruct (ascii_dec c d); split; congruence. Qed.

Lemma back_is_last (s : str) (c : ascii) :
  back_is s c = true <-> exists s', s = s' ++ [c].
Proof.
  unfold back_is, back. split.
  - destruct (rev s) as [|d r] eqn:E; [discriminate|]. intros H.
    apply is_char_eq in H as ->. exists (rev r).
    rewrite <- (rev_involutive s), E. reflexivity.
  - intros [s' ->]. rewrite rev_app_distr. cbn. now apply is_char_eq.
Qed.

Lemma back_is_app (s : str) (c d : ascii) :
  back_is (s ++ [c]) d = is_char c d.
Proof. unfold back_is, back. now rewrite rev_app_distr. Qed.

Lemma trim_empty_iff (s : str) : trim s = [] <-> all_spaces s = true.
Proof.
  split; [|apply trim_all_spaces].
  destruct (trim_split s) as [w1 [w2 [H1 [H2 E]]]]. intros H.
  rewrite H in E. rewrite E. unfold all_spaces.
  rewrite forallb_app. cbn [app]. now rewrite H1, H2.
Qed.

(** X5.  [normalize_maps_url] gives the empty string exactly on white
    space; every other result ends in a slash; and a normalised URL is
    left as it is by a second pass. *)
Theorem normalize_maps_url_shape (u : str) :
  (normalize_maps_url u = [] <-> all_spaces u = true)
  /\ (normalize_maps_url u <> [] ->
      back_is (normalize_maps_url u) slash = true)
  /\ normalize_maps_url (normalize_maps_url u) = normalize_maps_url u.
Proof.
  unfold normalize_maps_url.
  pose proof (trim_head u) as Hh. pose proof (trim_last u) as Hl.
  pose proof (trim_idem u) as Hi.
  destruct (trim u) as [|c t] eqn:T; cbn [empty].
  - split; [|split]; [|congruence|reflexivity].
    rewrite <- trim_empty_iff, T. split; reflexivity.
  - assert (Hne : all_spaces u = true -> False).
    { intros A. apply trim_all_spaces in A. congruence. }
    assert (Hs : is_char slash slash = true) by now apply is_char_eq.
    destruct (back_is (c :: t) slash) eqn:B; cbn [negb].
    + split; [split; [discriminate|intros A; now apply Hne in A]|].
      split; [intros _; exact B|].
      rewrite Hi. cbn [empty]. now rewrite B.
    + assert (Ht : trim ((c :: t) ++ [slash]) = (c :: t) ++ [slash]).
      { unfold trim. rewrite (erase_front_fixed ((c :: t) ++ [slash]) Hh).
        apply pop_back_fixed. rewrite rev_app_distr. reflexivity. }
      split; [split; [destruct t; discriminate|
                      intros A; now apply Hne in A]|].
      split; [intros _; now rewrite back_is_app|].
      rewrite Ht. cbn [app empty].
      change (c :: t ++ [slash]) with ((c :: t) ++ [slash]).
      now rewrite back_is_app, Hs.
Qed.

Lemma strip_back_slash_app (s : str) :
  strip_back_slash (s ++ [slash]) = s.
Proof.
  unfold strip_back_slash. rewrite back_is_app.
  assert (E : is_char slash slash = true) by now apply is_char_eq.
  rewrite E. apply removelast_last.
Qed.

Lemma url_join_absolute (base rel : str) :
  is_absolute rel = true -> url_join base rel = rel.
Proof. unfold url_join, is_absolute. now intros ->. Qed.

Lemma url_join_no_base (rel : str) : url_join [] rel = rel.
Proof. unfold url_join. destruct (_ || _)%bool; reflexivity. Qed.

Lemma url_join_relative (base rel : str) :
  is_absolute rel = false -> base <> [] -> rel <> [] ->
  url_join base rel
  = strip_back_slash base ++ [slash] ++ strip_front_slash rel.
Proof.
  unfold url_join, is_absolute. intros -> Hb Hr.
  destruct base as [|b0 base']; [congruence|].
  destruct rel as [|r0 rel']; [congruence|]. cbn [empty negb andb].
  unfold strip_front_slash. cbn [front_is tl].
  destruct (back_is (b0 :: base') slash) eqn:B.
  - apply back_is_last in B as [s' E]. rewrite E.
    rewrite strip_back_slash_app.
    destruct (is_char r0 slash) eqn:R; cbn [negb andb];
      now rewrite <- app_assoc.
  - unfold strip_back_slash. rewrite B.
    destruct (is_char r0 slash) eqn:R; cbn [negb andb]; [|reflexivity].
    apply is_char_eq in R as ->. reflexivity.
Qed.

(** X6.  [url_join] passes an absolute http or https target through, gives
    the target itself for an empty base, and otherwise joins base and
    (non-empty) target with exactly one slash between them, whether or not
    the base ends in one and the target starts with one. *)
Theorem url_join_one_slash (base rel : str) :
  (is_absolute rel = true -> url_join base rel = rel)
  /\ (url_join [] rel = rel)
  /\ (is_absolute rel = false -> base <> [] -> rel <> [] ->
      url_join base rel
      = strip_back_slash base ++ [slash] ++ strip_front_slash rel).
Proof.
  split; [apply url_join_absolute | split; [apply url_join_no_base |]].
  apply url_join_relative.
Qed.

Lemma url_join_one_slash_witness :
  url_join (lit "http://a.example/maps/") (lit "/dm_x.bsp")
  = lit "http://a.example/maps" ++ [slash] ++ lit "dm_x.bsp".
Proof.
  destruct (url_join_one_slash (lit "http://a.example/maps/")
              (lit "/dm_x.bsp")) as [_ [_ H]].
  apply H; [reflexivity|discriminate|discriminate].
Defined.

Lemma until_slash_app (l r : str) :
  no_char slash l -> until_slash (l ++ slash :: r) = l.
Proof.
  induction l as [|c l IH]; intros H; simpl.
  - reflexivity.
  - rewrite (H c (or_introl eq_refl)). f_equal. apply IH.
    intros d Hd. apply H. now right.
Qed.

Lemma until_slash_all (l : str) : no_char slash l -> until_slash l = l.
Proof.
  induction l as [|c l IH]; intros H; simpl; [reflexivity|].
  rewrite (H c (or_introl eq_refl)). f_equal. apply IH.
  intros d Hd. apply H. now right.
Qed.

Lemma until_slash_no_slash (s : str) : no_char slash (until_slash s).
Proof.
  induction s as [|c s IH]; simpl; [intros d []|].
  destruct (is_char c slash) eqn:E; [intros d []|].
  intros d [<-|H]; [exact E|now apply IH].
Qed.

Lemma no_char_rev (c : ascii) (s : str) : no_char c s -> no_char c (rev s).
Proof. intros H d Hd. apply H. now apply in_rev. Qed.

Lemma filename_app_slash (d n : str) :
  no_char slash n -> filename (d ++ slash :: n) = n.
Proof.
  intros H. unfold filename.
  replace (rev (d ++ slash :: n)) with (rev n ++ slash :: rev d).
  - rewrite until_slash_app by now apply no_char_rev.
    apply rev_involutive.
  - rewrite rev_app_distr. cbn [rev]. now rewrite <- app_assoc.
Qed.

Lemma filename_bare (n : str) : no_char slash n -> filename n = n.
Proof.
  intros H. unfold filename.
  rewrite until_slash_all by now apply no_char_rev. apply rev_involutive.
Qed.

Lemma filename_no_slash (p : str) : no_char slash (filename p).
Proof.
  unfold filename. intros d Hd. apply in_rev in Hd.
  now apply (until_slash_no_slash (rev p)).
Qed.

Lemma bare_not_absolute (n : str) :
  no_char slash n -> is_absolute n = false.
Proof.
  intros H. unfold is_absolute.
  assert (A : forall p, In slash p -> starts_with p n = false).
  { intros p Hp. destruct (starts_with p n) eqn:E; [|reflexivity].
    apply starts_with_spec in E as [post ->].
    assert (is_char slash slash = false)
      by (apply H; apply in_or_app; now left).
    assert (is_char slash slash = true) by now apply is_char_eq.
    congruence. }
  rewrite !A; [reflexivity| |]; vm_compute; tauto.
Qed.

(** X7.  The bare filename of a path holds no slash and is what follows
    the last slash.  For a non-empty name without a slash, the URL that
    the download phase builds from a source URL and the name has that name
    as its bare filename again, whatever the source URL is. *)
Theorem filename_of_joined (base dir name : str) :
  no_char slash (filename dir)
  /\ (no_char slash name -> name <> [] ->
      filename (dir ++ slash :: name) = name
      /\ filename (url_join base name) = name).
Proof.
  split; [apply filename_no_slash|]. intros H Hne.
  split; [now apply filename_app_slash|].
  destruct name as [|n0 name']; [congruence|].
  destruct base as [|b0 base'].
  { rewrite url_join_no_base. now apply filename_bare. }
  rewrite url_join_relative; [|now apply bare_not_absolute|discriminate|discriminate].
  unfold strip_front_slash. cbn [front_is].
  rewrite (H n0 (or_introl eq_refl)). cbn [app].
  now apply filename_app_slash.
Qed.

Lemma filename_of_joined_witness :
  filename (lit "hl2mp/download/maps" ++ slash :: lit "dm_x.bsp")
  = lit "dm_x.bsp"
  /\ filename (url_join (lit "http://a.example/maps/") (lit "dm_x.bsp"))
     = lit "dm_x.bsp".
Proof.
  apply (filename_of_joined (lit "http://a.example/maps/")
           (lit "hl2mp/download/maps") (lit "dm_x.bsp")).
  - intros d Hd. vm_compute in Hd.
    repeat (destruct Hd as [<-|Hd]; [reflexivity|]). destruct Hd.
  - discriminate.
Defined.

(** ** Log sinks *)

Lemma pushed_app (a b : list LogOp) : pushed (a ++ b) = pushed a ++ pushed b.
Proof. unfold pushed. apply flat_map_app. Qed.

Lemma failed_app (a b : list LogOp) : failed (a ++ b) = failed a ++ failed b.
Proof. unfold failed. apply flat_map_app. Qed.

Lemma capped_append (A : Type) (all kept dropped : list A) (x : A)
    (cap cut : nat) :
  all = dropped ++ kept ->
  (List.length kept <= cap)%nat ->
  (0 < cut <= cap)%nat ->
  (List.length all <= cap -> dropped = [])%nat ->
  let l := kept ++ [x] in
  let kept' := if (cap <? List.length l)%nat then skipn cut l else l in
  (List.length kept' <= cap)%nat /\
  (exists dropped', all ++ [x] = dropped' ++ kept' /\
     (List.length (all ++ [x]) <= cap -> dropped' = [])%nat) /\
  (exists older, kept' = older ++ [x]).
Proof.
  intros Hall Hlen Hcut Hfew l kept'. subst l kept'.
  rewrite length_app. cbn [List.length].
  destruct (Nat.ltb_spec cap (List.length kept + 1)) as [Hbig | Hsmall].
  - assert (Hk : List.length kept = cap) by lia.
    split; [| split].
    + rewrite length_skipn, length_app. cbn [List.length]. lia.
    + exists (dropped ++ firstn cut (kept ++ [x])). split.
      * rewrite Hall, <- !app_assoc. f_equal.
        symmetry. apply firstn_skipn.
      * rewrite Hall, !length_app. cbn [List.length]. lia.
    + rewrite skipn_app.
      replace (cut - List.length kept)%nat with 0%nat by lia.
      exists (skipn cut kept). reflexivity.
  - split; [| split].
    + rewrite length_app. cbn [List.length]. lia.
    + exists dropped. split.
      * rewrite Hall, <- app_assoc. reflexivity.
      * rewrite length_app. cbn [List.length]. intros H. apply Hfew. lia.
    + exists kept. reflexivity.
Qed.

Lemma LiveLog_history (ops : list LogOp) :
  let log := fold_left LiveLog_apply ops (mkLog [] []) in
  ((List.length (lines log) <= 800)%nat /\
   exists dropped, pushed ops = dropped ++ lines log /\
     (List.length (pushed ops) <= 800 -> dropped = [])%nat) /\
  ((List.length (failures log) <= 200)%nat /\
   exists dropped, failed ops = dropped ++ failures log /\
     (List.length (failed ops) <= 200 -> dropped = [])%nat).
Proof.
  induction ops as [| op ops IH] using rev_ind.
  - cbn. split; (split; [lia | exists []; split; [reflexivity | reflexivity]]).
  - cbn zeta in *. rewrite fold_left_app, pushed_app, failed_app.
    cbn [fold_left].
    destruct IH as [[Hl [dl [Hdl Hfl]]] [Hf [df [Hdf Hff]]]].
    destruct op as [s | s]; cbn [LiveLog_apply pushed failed flat_map].
    + rewrite !app_nil_r. split.
      * unfold LiveLog_push. cbn [lines].
        destruct (capped_append _ _ _ dl s 800%nat 200%nat Hdl Hl
                    ltac:(lia) Hfl) as [H1 [H2 _]].
        split; [exact H1 | exact H2].
      * unfold LiveLog_push. cbn [failures].
        split; [exact Hf | exists df; split; [exact Hdf | exact Hff]].
    + rewrite !app_nil_r. split.
      * unfold LiveLog_fail. cbn [lines].
        split; [exact Hl | exists dl; split; [exact Hdl | exact Hfl]].
      * unfold LiveLog_fail. cbn [failures].
        destruct (capped_append _ _ _ df s 200%nat 50%nat Hdf Hf
                    ltac:(lia) Hff) as [H1 [H2 _]].
        split; [exact H1 | exact H2].
Qed.

(** X8 (main.cpp 23-32, LiveLog::push and LiveLog::fail).  After any
    history of calls on a fresh log, at most 800 lines and at most 200
    failures are held; what is held is the most recent part of what was
    handed in, in call order, and nothing has been dropped while the sink
    has received no more than its cap; the line of the latest call is always
    the last one held, and each call leaves the other sink alone. *)
Theorem LiveLog_keeps_recent (ops : list LogOp) (s : str) :
  let log := fold_left LiveLog_apply ops (mkLog [] []) in
  (List.length (lines log) <= 800)%nat /\
  (List.length (failures log) <= 200)%nat /\
  (exists dropped, pushed ops = dropped ++ lines log /\
     (List.length (pushed ops) <= 800 -> dropped = [])%nat) /\
  (exists dropped, failed ops = dropped ++ failures log /\
     (List.length (failed ops) <= 200 -> dropped = [])%nat) /\
  (exists older, lines (LiveLog_push log s) = older ++ [s]) /\
  (exists older, failures (LiveLog_fail log s) = older ++ [s]) /\
  failures (LiveLog_push log s) = failures log /\
  lines (LiveLog_fail log s) = lines log.
Proof.
  cbn zeta.
  destruct (LiveLog_history ops) as [[Hl [dl [Hdl Hfl]]] [Hf [df [Hdf Hff]]]].
  cbn zeta in *.
  split; [exact Hl |]. split; [exact Hf |].
  split; [exists dl; split; assumption |].
  split; [exists df; split; assumption |].
  split; [| split; [| split; reflexivity]].
  - unfold LiveLog_push. cbn [lines].
    exact (proj2 (proj2 (capped_append _ _ _ dl s 800%nat 200%nat Hdl Hl
                           ltac:(lia) Hfl))).
  - unfold LiveLog_fail. cbn [failures].
    exact (proj2 (proj2 (capped_append _ _ _ df s 200%nat 50%nat Hdf Hf
                           ltac:(lia) Hff))).
Qed.

(** ** Numbers in the settings form *)

Lemma atoi_digits_uint (d : Decimal.uint) (rest : str) (acc : Z) :
  match rest with c :: _ => is_digit c = false | [] => True end ->
  atoi_digits (lit (NilEmpty.string_of_uint d) ++ rest) acc = uint_acc d acc.
Proof.
  intros Hrest. revert acc.
  induction d as [| d IH | d IH | d IH | d IH | d IH | d IH | d IH | d IH
                  | d IH | d IH]; intros acc;
    try (cbn [NilEmpty.string_of_uint lit list_ascii_of_string app
              atoi_digits uint_acc];
         change (lit (NilEmpty.string_of_uint d) ++ rest)
           with (list_ascii_of_string (NilEmpty.string_of_uint d) ++ rest)
           in IH;
         rewrite <- IH; reflexivity).
  cbn [NilEmpty.string_of_uint lit list_ascii_of_string app uint_acc].
  destruct rest as [| c rest]; [reflexivity |].
  cbn [atoi_digits]. now rewrite Hrest.
Qed.

Lemma uint_acc_pos (d : Decimal.uint) (p : positive) :
  uint_acc d (Z.pos p) = Z.pos (Pos.of_uint_acc d p).
Proof.
  revert p. induction d; intros p; cbn [uint_acc Pos.of_uint_acc];
    [reflexivity | rewrite <- IHd; f_equal; lia ..].
Qed.

Lemma uint_acc_zero (d : Decimal.uint) :
  uint_acc d 0 = Z.of_N (Pos.of_uint d).
Proof.
  induction d; cbn [uint_acc Pos.of_uint Z.of_N];
    [reflexivity | exact IHd | rewrite <- uint_acc_pos; reflexivity ..].
Qed.

Lemma uint_chars (d : Decimal.uint) (c : ascii) :
  In c (lit (NilEmpty.string_of_uint d)) ->
  isspace c = false /\ is_digit c = true.
Proof.
  induction d; cbn [NilEmpty.string_of_uint lit list_ascii_of_string In];
    [intros [] | intros [<- | H]; [split; reflexivity | exact (IHd H)] ..].
Qed.

Lemma to_string_cases (z : Z) :
  exists d, d <> Decimal.Nil /\ uint_acc d 0 = Z.abs z /\
    to_string z =
      (if z <? 0 then ["-"%char] else []) ++ lit (NilEmpty.string_of_uint d).
Proof.
  destruct z as [| p | p].
  - exists (Decimal.D0 Decimal.Nil). repeat split. discriminate.
  - exists (Pos.to_uint p). split; [apply DecimalPos.Unsigned.to_uint_nonnil |].
    split.
    + rewrite uint_acc_zero, DecimalPos.Unsigned.of_to. reflexivity.
    + unfold to_string. cbn [Z.to_int NilZero.string_of_int Z.ltb Z.compare app].
      unfold NilZero.string_of_uint.
      pose proof (DecimalPos.Unsigned.to_uint_nonnil p) as Hn.
      destruct (Pos.to_uint p); [contradiction | reflexivity ..].
  - exists (Pos.to_uint p). split; [apply DecimalPos.Unsigned.to_uint_nonnil |].
    split.
    + rewrite uint_acc_zero, DecimalPos.Unsigned.of_to. reflexivity.
    + unfold to_string. cbn [Z.to_int NilZero.string_of_int Z.ltb Z.compare app].
      unfold NilZero.string_of_uint.
      pose proof (DecimalPos.Unsigned.to_uint_nonnil p) as Hn.
      destruct (Pos.to_uint p); [contradiction | reflexivity ..].
Qed.

Lemma uint_head (d : Decimal.uint) :
  d <> Decimal.Nil ->
  exists c s, lit (NilEmpty.string_of_uint d) = c :: s /\
    isspace c = false /\ is_char c "-"%char = false /\
    is_char c "+"%char = false.
Proof.
  intros Hd. destruct d; [contradiction | ..];
    cbn [NilEmpty.string_of_uint lit list_ascii_of_string];
    eexists; eexists; (split; [reflexivity | repeat split]).
Qed.

Lemma to_string_no_space (z : Z) (c : ascii) :
  In c (to_string z) -> isspace c = false.
Proof.
  destruct (to_string_cases z) as [d [_ [_ ->]]].
  intros H. apply in_app_or in H as [H | H].
  - destruct (z <? 0); [| contradiction].
    destruct H as [<- | []]. reflexivity.
  - exact (proj1 (uint_chars _ _ H)).
Qed.

Lemma trim_no_space (s : str) :
  (forall c, In c s -> isspace c = false) -> trim s = s.
Proof.
  intros H. unfold trim.
  rewrite (erase_front_fixed s).
  - apply pop_back_fixed. destruct (rev s) as [| c r] eqn:E; [exact I |].
    apply H, in_rev. rewrite E. now left.
  - destruct s as [| c s]; [exact I |]. apply H. now left.
Qed.

Lemma strtol_exact_to_string (z : Z) (w rest : str) :
  all_spaces w = true ->
  match rest with c :: _ => is_digit c = false | [] => True end ->
  strtol_exact (w ++ to_string z ++ rest) = z.
Proof.
  intros Hw Hrest.
  destruct (to_string_cases z) as [d [Hd [Hv Hs]]].
  unfold strtol_exact. rewrite erase_front_app_spaces by exact Hw.
  rewrite Hs. destruct (uint_head d Hd) as [c [s [Hc [Hsp [Hm Hp]]]]].
  destruct (Z.ltb_spec z 0) as [Hneg | Hpos].
  - cbn [app erase_front_spaces isspace].
    change (isspace "-"%char) with false. cbn iota.
    change (is_char "-"%char "-"%char) with true. cbn iota.
    rewrite (atoi_digits_uint d rest 0 Hrest). lia.
  - cbn [app]. rewrite Hc. cbn [app erase_front_spaces].
    rewrite Hsp, Hm, Hp.
    change (c :: s ++ rest) with ((c :: s) ++ rest). rewrite <- Hc.
    rewrite (atoi_digits_uint d rest 0 Hrest). lia.
Qed.

Lemma to_int_fits (z : Z) :
  fits_int z -> to_int (clamp z LONG_MIN LONG_MAX) = z.
Proof.
  unfold fits_int, to_int, clamp, INT_MIN, INT_MAX, LONG_MIN, LONG_MAX.
  intros H.
  destruct (Z.ltb_spec z (- 2 ^ 63)); [lia |].
  destruct (Z.ltb_spec (2 ^ 63 - 1) z); [lia |].
  rewrite Z.mod_small; lia.
Qed.

Lemma atoi_fits (s : str) : fits_int (atoi s).
Proof.
  unfold fits_int, atoi, to_int, INT_MIN, INT_MAX.
  pose proof (Z.mod_pos_bound
                (clamp (strtol_exact s) LONG_MIN LONG_MAX - - 2 ^ 31)
                (2 ^ 32) ltac:(lia)).
  lia.
Qed.

(** X9 (main.cpp 944-952 and 981-1011, std::to_string and std::atoi in the
    settings form).  A number that fits an int, printed by std::to_string,
    is read back by std::atoi as the same number, also behind leading
    white space and in front of any text that does not start with a
    digit; the printed text holds no white space, so that trim leaves it
    alone. *)
Theorem atoi_to_string (z : Z) (w rest : str) :
  fits_int z ->
  all_spaces w = true ->
  match rest with c :: _ => is_digit c = false | [] => True end ->
  atoi (w ++ to_string z ++ rest) = z /\
  atoi (to_string z) = z /\
  trim (to_string z) = to_string z.
Proof.
  intros Hz Hw Hrest. unfold atoi. split; [| split].
  - rewrite (strtol_exact_to_string z w rest Hw Hrest).
    now apply to_int_fits.
  - pose proof (strtol_exact_to_string z [] [] eq_refl I) as H.
    cbn [app] in H. rewrite app_nil_r in H. rewrite H.
    now apply to_int_fits.
  - apply trim_no_space, to_string_no_space.
Qed.

Lemma atoi_to_string_witness :
  atoi (lit "  " ++ to_string (-30000) ++ lit "ms") = -30000 /\
  atoi (to_string (-30000)) = -30000 /\
  trim (to_string (-30000)) = to_string (-30000).
Proof.
  apply (atoi_to_string (-30000) (lit "  ") (lit "ms")).
  - unfold fits_int, INT_MIN, INT_MAX. lia.
  - reflexivity.
  - reflexivity.
Defined.

(** Beyond an int the text is not read back: eleven nines come out as
    glibc gives them. *)
Example atoi_beyond_int : atoi (lit "99999999999") = 1215752191.
Proof. vm_compute. reflexivity. Qed.

Lemma atoi_trim_to_string (z : Z) :
  fits_int z -> atoi (trim (to_string z)) = z.
Proof.
  intros Hz. rewrite (trim_no_space _ (to_string_no_space z)).
  unfold atoi.
  pose proof (strtol_exact_to_string z [] [] eq_refl I) as H.
  cbn [app] in H. rewrite app_nil_r in H. rewrite H.
  now apply to_int_fits.
Qed.

Lemma form_settings_round_trip (hc : Z) (s : Settings) :
  form_settings s ->
  fits_int (threads s) -> fits_int (index_timeout_ms s) ->
  fits_int (head_timeout_ms s) -> fits_int (dl_timeout_ms s) ->
  apply_ui_to_settings (ui_of_settings hc s) s = s.
Proof.
  intros (Hp & Hi & He & Ht & Hx & Hh & Hd & Hr) Ft Fi Fh Fd.
  assert (Fr : fits_int (retries s))
    by (unfold fits_int, INT_MIN, INT_MAX; lia).
  destruct s as [p t dc db ix hd dl r inc exc].
  cbn [hl2mp_path threads index_timeout_ms head_timeout_ms dl_timeout_ms
       retries include_filters exclude_filters] in *.
  unfold apply_ui_to_settings, ui_of_settings.
  cbn [hl2mp_path threads decompress delete_bz2 index_timeout_ms
       head_timeout_ms dl_timeout_ms retries include_filters exclude_filters
       hl2mp_path_str threads_str include_filters_str exclude_filters_str
       idx_to_str head_to_str dl_to_str retries_str].
  destruct (Z.ltb_spec 0 t) as [_ | Hbad]; [| lia].
  rewrite !atoi_trim_to_string by assumption. rewrite Hp, Hi, He.
  unfold clamp.
  destruct (Z.ltb_spec r 0) as [Hlt | _]; [lia |].
  destruct (Z.ltb_spec 20 r) as [Hgt | _]; [lia |].
  f_equal; lia.
Qed.

(** X10 (main.cpp 944-952 and 1001-1012, the settings form and
    apply_ui_to_settings).  Whatever the text fields hold, the settings
    taken from the form have trimmed text fields, at least one thread,
    timeouts of at least 1000, 1000 and 5000 ms and a retry budget from 0
    to 20, and the two check-box fields are left as they were; printing
    such settings into the form as main does and applying the form again
    gives back the same settings. *)
Theorem apply_ui_to_settings_form (hc : Z) (ui : UiFields) (s : Settings) :
  let s' := apply_ui_to_settings ui s in
  form_settings s' /\
  decompress s' = decompress s /\
  delete_bz2 s' = delete_bz2 s /\
  apply_ui_to_settings (ui_of_settings hc s') s' = s'.
Proof.
  cbn zeta.
  assert (Hform : form_settings (apply_ui_to_settings ui s)).
  { unfold form_settings, apply_ui_to_settings.
    cbn [hl2mp_path threads index_timeout_ms head_timeout_ms dl_timeout_ms
         retries include_filters exclude_filters].
    rewrite !trim_idem. unfold clamp.
    destruct (Z.ltb_spec (atoi (trim (retries_str ui))) 0);
      [| destruct (Z.ltb_spec 20 (atoi (trim (retries_str ui))))];
      repeat split; lia. }
  split; [exact Hform |].
  split; [reflexivity |]. split; [reflexivity |].
  assert (Hmax : forall k x, fits_int k -> fits_int (Z.max k (atoi x))).
  { intros k x Hk. pose proof (atoi_fits x) as Hx.
    unfold fits_int in *. lia. }
  apply form_settings_round_trip; [exact Hform | ..];
    cbn [apply_ui_to_settings threads index_timeout_ms head_timeout_ms
         dl_timeout_ms];
    apply Hmax; unfold fits_int, INT_MIN, INT_MAX; lia.
Qed.

(** X11 (main.cpp 981-991 against 1001-1012, the Save button and
    apply_ui_to_settings).  The Save button and the Start and Index
    buttons read the form alike except for the HEAD timeout, which Save
    bounds below by 500 and the others by 1000: the two settings records
    are equal exactly when the field reads as 1000 or more, every other
    field agrees, and applying the form after a Save gives what applying
    it alone gives. *)
Theorem save_button_head_timeout (ui : UiFields) (s : Settings) :
  let saved := save_button_settings ui s in
  let applied := apply_ui_to_settings ui s in
  (saved = applied <-> 1000 <= atoi (trim (head_to_str ui))) /\
  500 <= head_timeout_ms saved /\
  head_timeout_ms applied = Z.max 1000 (head_timeout_ms saved) /\
  hl2mp_path saved = hl2mp_path applied /\
  threads saved = threads applied /\
  index_timeout_ms saved = index_timeout_ms applied /\
  dl_timeout_ms saved = dl_timeout_ms applied /\
  retries saved = retries applied /\
  include_filters saved = include_filters applied /\
  exclude_filters saved = exclude_filters applied /\
  decompress saved = decompress applied /\
  delete_bz2 saved = delete_bz2 applied /\
  apply_ui_to_settings ui saved = applied.
Proof.
  cbn zeta. unfold save_button_settings, apply_ui_to_settings.
  cbn [hl2mp_path threads decompress delete_bz2 index_timeout_ms
       head_timeout_ms dl_timeout_ms retries include_filters exclude_filters].
  split; [| repeat split; lia].
  split.
  - intros H. apply (f_equal head_timeout_ms) in H.
    cbn [head_timeout_ms] in H. lia.
  - intros H. f_equal. lia.
Qed.

(** ** Listing indexer: the matches *)

Lemma span_not_quote_spec (s a b : str) :
  span_not_quote s = (a, b) ->
  s = a ++ b /\ no_quote a /\
  match b with c :: _ => is_quote c = true | [] => True end.
Proof.
  revert a b. induction s as [| c s IH]; intros a b H.
  - cbn in H. injection H as <- <-. repeat split. intros d [].
  - cbn [span_not_quote] in H. destruct (is_quote c) eqn:Q.
    + injection H as <- <-. repeat split; [intros d [] | exact Q].
    + destruct (span_not_quote s) as [a' b'] eqn:E.
      injection H as <- <-.
      destruct (IH a' b' eq_refl) as [Hs [Ha Hb]].
      split; [cbn [app]; now rewrite <- Hs |].
      split; [| exact Hb].
      intros d [<- | Hd]; [exact Q | exact (Ha d Hd)].
Qed.

Lemma span_not_quote_app (c rest : str) (q : ascii) :
  no_quote c -> is_quote q = true ->
  span_not_quote (c ++ q :: rest) = (c, q :: rest).
Proof.
  intros Hc Hq. induction c as [| x c IH].
  - cbn [app span_not_quote]. now rewrite Hq.
  - cbn [app span_not_quote]. rewrite (Hc x (or_introl eq_refl)).
    rewrite IH; [reflexivity |]. intros d Hd. apply Hc. now right.
Qed.

Lemma match_href_at_spec (s c rest : str) :
  match_href_at s = Some (c, rest) ->
  c <> [] /\ no_quote c /\ exists m, href_anchor c m /\ s = m ++ rest.
Proof.
  destruct s as [| h [| r [| e [| f s1]]]]; try discriminate.
  unfold match_href_at.
  destruct (str_eqb (lower_copy [h; r; e; f]) (lit "href")) eqn:Hh;
    [| discriminate].
  apply str_eqb_eq in Hh.
  destruct (erase_front_split s1) as [w1 [Hw1 E1]].
  destruct (erase_front_spaces s1) as [| eq s2]; [discriminate |].
  destruct (is_char eq "="%char) eqn:Heq; [| discriminate].
  apply is_char_eq in Heq. subst eq.
  destruct (erase_front_split s2) as [w2 [Hw2 E2]].
  destruct (erase_front_spaces s2) as [| q s3]; [discriminate |].
  destruct (is_quote q) eqn:Hq; [| discriminate].
  destruct (span_not_quote s3) as [a b] eqn:Hspan.
  destruct (span_not_quote_spec _ _ _ Hspan) as [E3 [Ha Hb]].
  destruct a as [| a0 a]; [discriminate |].
  destruct b as [| q2 s4]; [discriminate |].
  intros H. injection H as <- <-.
  split; [discriminate |]. split; [exact Ha |].
  exists ([h; r; e; f] ++ w1 ++ "="%char :: w2 ++ q :: (a0 :: a) ++ [q2]).
  split.
  - exists [h; r; e; f], w1, w2, q, q2. repeat split; assumption.
  - rewrite E1, E2, E3. cbn [app]. do 4 f_equal.
    rewrite <- app_assoc. f_equal. cbn [app]. f_equal.
    rewrite <- app_assoc. f_equal. cbn [app]. do 2 f_equal.
    rewrite <- app_assoc. reflexivity.
Qed.

Lemma lower_copy_length (s : str) :
  List.length (lower_copy s) = List.length s.
Proof. apply length_map. Qed.

Lemma match_href_at_anchor (c m rest : str) :
  href_anchor c m -> c <> [] -> no_quote c ->
  match_href_at (m ++ rest) = Some (c, rest).
Proof.
  intros (h4 & w1 & w2 & q1 & q2 & Hh & Hw1 & Hw2 & Hq1 & Hq2 & ->) Hc Hnq.
  assert (Hlen : List.length h4 = 4%nat)
    by (rewrite <- lower_copy_length, Hh; reflexivity).
  destruct h4 as [| h [| r [| e [| f [| x h4]]]]]; try discriminate Hlen.
  cbn [app]. unfold match_href_at.
  rewrite Hh, str_eqb_refl.
  rewrite <- !app_assoc. rewrite (erase_front_app_spaces w1) by exact Hw1.
  cbn [app erase_front_spaces]. change (isspace "="%char) with false.
  cbn iota. change (is_char "="%char "="%char) with true. cbn iota.
  rewrite <- !app_assoc. rewrite (erase_front_app_spaces w2) by exact Hw2.
  cbn [app erase_front_spaces].
  assert (Hsp : isspace q1 = false).
  { unfold is_quote in Hq1. apply orb_true_iff in Hq1 as [H | H];
      apply is_char_eq in H; subst q1; reflexivity. }
  rewrite Hsp, Hq1. rewrite <- app_assoc. cbn [app].
  rewrite (span_not_quote_app c rest q2 Hnq Hq2).
  destruct c as [| c0 c]; [contradiction | reflexivity].
Qed.

Lemma href_matches_from_skip (a rest : str) :
  href_matches_from (List.length a) (a ++ rest) = href_matches_from O rest.
Proof.
  induction a as [| x a IH]; [reflexivity |].
  cbn [List.length app href_matches_from]. exact IH.
Qed.

Lemma href_matches_from_sound (skip : nat) (s c : str) :
  In c (href_matches_from skip s) ->
  c <> [] /\ no_quote c /\
  exists before m after, href_anchor c m /\ s = before ++ m ++ after.
Proof.
  revert skip. induction s as [| x s IH]; intros skip H; [destruct H |].
  assert (Hrec : forall k, In c (href_matches_from k s) ->
    c <> [] /\ no_quote c /\
    exists before m after,
      href_anchor c m /\ x :: s = before ++ m ++ after).
  { intros k Hk. destruct (IH k Hk) as [H1 [H2 (b & m & a & Hm & E)]].
    split; [exact H1 |]. split; [exact H2 |].
    exists (x :: b), m, a. split; [exact Hm |]. now rewrite E. }
  cbn [href_matches_from] in H. destruct skip as [| k].
  - destruct (match_href_at (x :: s)) as [[capture rest] |] eqn:M.
    + destruct H as [<- | H]; [| exact (Hrec _ H)].
      destruct (match_href_at_spec _ _ _ M) as [H1 [H2 [m [Hm E]]]].
      split; [exact H1 |]. split; [exact H2 |].
      exists [], m, rest. split; [exact Hm | exact E].
    + exact (Hrec _ H).
  - exact (Hrec _ H).
Qed.

(** X12 (main.cpp 383-385, the href expression and the iteration over its
    matches in extract_map_links_from_index_html).  Every capture the
    iteration yields is non-empty, holds no quote and stands in the page
    between two quotes (not necessarily the same one) behind the word href
    in any case, optional white space, an equals sign and optional white
    space; conversely a page that starts with such an anchor yields its
    capture first and then the captures of what follows the anchor. *)
Theorem href_matches_anchors (html c m after : str) :
  (In c (href_matches html) ->
     c <> [] /\ no_quote c /\
     exists before m' after',
       href_anchor c m' /\ html = before ++ m' ++ after') /\
  (href_anchor c m -> c <> [] -> no_quote c ->
     href_matches (m ++ after) = c :: href_matches after).
Proof.
  split; [apply href_matches_from_sound |].
  intros Hm Hc Hnq.
  pose proof (match_href_at_anchor c m after Hm Hc Hnq) as M.
  destruct Hm as (h4 & w1 & w2 & q1 & q2 & Hh & _ & _ & _ & _ & E).
  destruct m as [| x m'].
  { destruct h4; discriminate. }
  unfold href_matches. cbn [app] in *. cbn [href_matches_from].
  rewrite M. f_equal.
  replace (List.length (m' ++ after) - List.length after)%nat
    with (List.length m') by (rewrite length_app; lia).
  apply href_matches_from_skip.
Qed.

Lemma href_matches_anchors_witness :
  let c := lit "maps/dm_x.bsp" in
  let m := lit "HREF = 'maps/dm_x.bsp" ++ [dquote] in
  let html := lit "<a " ++ m ++ lit ">x</a>" in
  In c (href_matches html) /\
  href_anchor c m /\ c <> [] /\ no_quote c /\
  href_matches (m ++ lit ">x</a>") = c :: href_matches (lit ">x</a>").
Proof.
  cbn zeta.
  assert (Ha : href_anchor (lit "maps/dm_x.bsp")
                 (lit "HREF = 'maps/dm_x.bsp" ++ [dquote])).
  { exists (lit "HREF"), (lit " "), (lit " "), squote, dquote.
    split; [reflexivity |]. split; [reflexivity |]. split; [reflexivity |].
    split; [reflexivity |]. split; reflexivity. }
  assert (Hc : lit "maps/dm_x.bsp" <> []) by discriminate.
  assert (Hq : no_quote (lit "maps/dm_x.bsp")).
  { intros d Hd. unfold lit in Hd. cbn [list_ascii_of_string In] in Hd.
    repeat (destruct Hd as [<- | Hd]; [reflexivity |]). destruct Hd. }
  split; [vm_compute; left; reflexivity |].
  split; [exact Ha |]. split; [exact Hc |]. split; [exact Hq |].
  exact (proj2 (href_matches_anchors [] _ _ (lit ">x</a>")) Ha Hc Hq).
Defined.

(** ** Listing indexer: the links *)

Lemma starts_with_app (p s : str) :
  starts_with p s = true -> exists post, s = p ++ post.
Proof. apply starts_with_spec. Qed.

Lemma ends_with_split (s suffix : str) :
  ends_with s suffix = true <-> exists pre, s = pre ++ suffix.
Proof.
  unfold ends_with. rewrite starts_with_spec. split.
  - intros [post E]. exists (rev post).
    rewrite <- (rev_involutive s), E, rev_app_distr, rev_involutive.
    reflexivity.
  - intros [pre ->]. exists (rev pre). apply rev_app_distr.
Qed.

Lemma lower_copy_app_inv (s a b : str) :
  lower_copy s = a ++ b ->
  exists s1 s2, s = s1 ++ s2 /\ lower_copy s1 = a /\ lower_copy s2 = b.
Proof.
  unfold lower_copy. intros H.
  exists (firstn (List.length a) s), (skipn (List.length a) s).
  split; [symmetry; apply firstn_skipn |].
  rewrite <- firstn_map, <- skipn_map, H. split.
  - rewrite firstn_app, Nat.sub_diag, firstn_all. cbn. apply app_nil_r.
  - rewrite skipn_app, Nat.sub_diag, skipn_all. reflexivity.
Qed.

Lemma tolower_dot (c : ascii) : tolower c = "."%char -> c = "."%char.
Proof.
  destruct c as [b0 b1 b2 b3 b4 b5 b6 b7];
  destruct b0, b1, b2, b3, b4, b5, b6, b7;
    intros H; first [reflexivity | discriminate H].
Qed.

Lemma tolower_plain (c : ascii) :
  is_char (tolower c) slash = false ->
  is_char (tolower c) "."%char = false ->
  is_char c slash = false /\ is_char c "."%char = false.
Proof.
  destruct c as [b0 b1 b2 b3 b4 b5 b6 b7];
  destruct b0, b1, b2, b3, b4, b5, b6, b7;
    intros H1 H2; first [split; reflexivity | discriminate].
Qed.

(** The ending the indexer asks for: a dot and three chars that are
    neither dot nor slash, as both .bsp and .bz2 are in any case. *)
Lemma map_suffix_chars (t ext : str) :
  ext = lit ".bsp" \/ ext = lit ".bz2" ->
  ends_with (lower_copy t) ext = true ->
  exists pre x y z,
    t = pre ++ ["."%char; x; y; z] /\
    lower_copy ["."%char; x; y; z] = ext /\
    (forall d, In d [x; y; z] ->
       is_char d slash = false /\ is_char d "."%char = false).
Proof.
  intros Hext H. apply ends_with_split in H as [pre E].
  apply lower_copy_app_inv in E as (s1 & s2 & -> & _ & E2).
  assert (Hlen : List.length s2 = 4%nat).
  { rewrite <- lower_copy_length, E2. now destruct Hext as [-> | ->]. }
  destruct s2 as [| a [| x [| y [| z [| w s2]]]]]; try discriminate Hlen.
  cbn [lower_copy map] in E2.
  assert (Ha : a = "."%char).
  { apply tolower_dot. destruct Hext as [-> | ->]; now injection E2. }
  subst a. exists s1, x, y, z. split; [reflexivity |].
  split; [exact E2 |].
  intros d Hd.
  destruct Hext as [-> | ->]; injection E2 as Hx Hy Hz;
    destruct Hd as [<- | [<- | [<- | []]]]; apply tolower_plain;
    rewrite ?Hx, ?Hy, ?Hz; reflexivity.
Qed.

Lemma accept_href_spec (base href u : str) :
  accept_href base href = Some u ->
  let t := trim href in
  t <> [] /\ back_is t slash = false /\
  (ends_with (lower_copy t) (lit ".bsp") = true \/
   ends_with (lower_copy t) (lit ".bz2") = true) /\
  u = url_join base t.
Proof.
  unfold accept_href. cbn zeta.
  destruct (trim href) as [| c t] eqn:T; [discriminate |].
  cbn [empty].
  destruct (back_is (c :: t) slash) eqn:B; [discriminate |].
  destruct (ends_with (lower_copy (c :: t)) (lit ".bsp")) eqn:E1;
    destruct (ends_with (lower_copy (c :: t)) (lit ".bz2")) eqn:E2;
    cbn [orb negb]; try discriminate;
    intros H; injection H as <-;
    (split; [discriminate |]); (split; [reflexivity |]); split; auto.
Qed.

Lemma url_join_keeps_suffix (base pre : str) (x y z : ascii) :
  exists pre',
    url_join base (pre ++ ["."%char; x; y; z])
    = pre' ++ ["."%char; x; y; z].
Proof.
  unfold url_join.
  destruct (starts_with (lit "http://") (pre ++ ["."%char; x; y; z])
            || starts_with (lit "https://") (pre ++ ["."%char; x; y; z]))%bool;
    [now exists pre |].
  destruct (empty base); [now exists pre |].
  destruct (negb false && back_is base slash
            && negb (empty (pre ++ ["."%char; x; y; z]))
            && front_is (pre ++ ["."%char; x; y; z]) slash)%bool eqn:C1.
  - destruct pre as [| c pre].
    + cbn in C1. rewrite andb_false_r in C1. discriminate.
    + exists (base ++ pre). cbn [app tl]. now rewrite app_assoc.
  - destruct (negb false && negb (back_is base slash)
              && negb (empty (pre ++ ["."%char; x; y; z]))
              && negb (front_is (pre ++ ["."%char; x; y; z]) slash))%bool.
    + exists (base ++ lit "/" ++ pre). now rewrite <- !app_assoc.
    + exists (base ++ pre). now rewrite app_assoc.
Qed.

Lemma map_suffix_shape (pre : str) (x y z : ascii) (ext : str) :
  ext = lit ".bsp" \/ ext = lit ".bz2" ->
  lower_copy ["."%char; x; y; z] = ext ->
  (forall d, In d [x; y; z] ->
     is_char d slash = false /\ is_char d "."%char = false) ->
  let u := pre ++ ["."%char; x; y; z] in
  ends_with (lower_copy u) ext = true /\
  back_is u slash = false /\
  filename u = filename pre ++ ["."%char; x; y; z] /\
  is_map_file (filename u) = negb (Nat.eqb (List.length (filename u)) 4).
Proof.
  intros Hext Hlow Hch u. subst u.
  destruct (Hch x) as [Hx1 Hx2]; [cbn; auto |].
  destruct (Hch y) as [Hy1 Hy2]; [cbn; auto |].
  destruct (Hch z) as [Hz1 Hz2]; [cbn; auto |].
  assert (Hf : filename (pre ++ ["."%char; x; y; z])
               = filename pre ++ ["."%char; x; y; z]).
  { unfold filename. rewrite rev_app_distr. cbn [rev app until_slash].
    rewrite Hz1, Hy1, Hx1. change (is_char "."%char slash) with false.
    cbn iota. cbn [rev]. rewrite <- !app_assoc. reflexivity. }
  split; [| split; [| split; [exact Hf |]]].
  - apply ends_with_split. exists (lower_copy pre).
    rewrite <- Hlow. unfold lower_copy. apply map_app.
  - change (pre ++ ["."%char; x; y; z])
      with (pre ++ ["."%char; x; y] ++ [z]).
    rewrite app_assoc, back_is_app. exact Hz1.
  - rewrite Hf. set (n := filename pre).
    assert (Hn : no_char slash n) by apply filename_no_slash.
    assert (Hfn : filename (n ++ ["."%char; x; y; z])
                  = n ++ ["."%char; x; y; z]).
    { apply filename_bare. intros d Hd.
      apply in_app_or in Hd as [Hd | Hd]; [exact (Hn d Hd) |].
      destruct Hd as [<- | [<- | [<- | [<- | []]]]];
        [reflexivity | | |];
        unfold is_char in *;
        destruct (ascii_dec x slash), (ascii_dec y slash),
          (ascii_dec z slash), (ascii_dec slash x), (ascii_dec slash y),
          (ascii_dec slash z); congruence. }
    unfold is_map_file, extension. rewrite Hfn.
    assert (Hd1 : str_eqb (n ++ ["."%char; x; y; z]) (lit ".") = false).
    { apply str_eqb_neq. intros E. apply (f_equal (@List.length ascii)) in E.
      rewrite length_app in E. cbn in E. lia. }
    assert (Hd2 : str_eqb (n ++ ["."%char; x; y; z]) (lit "..") = false).
    { apply str_eqb_neq. intros E. apply (f_equal (@List.length ascii)) in E.
      rewrite length_app in E. cbn in E. lia. }
    rewrite Hd1, Hd2. cbn [orb].
    rewrite rev_app_distr. cbn [rev app until_dot].
    rewrite Hz2, Hy2, Hx2. change (is_char "."%char "."%char) with true.
    cbn iota. cbn [option_map List.length].
    rewrite length_app. cbn [List.length].
    destruct n as [| c n].
    + cbn. reflexivity.
    + cbn [List.length].
      replace (Nat.eqb 4 (S (List.length n) + 4)) with false
        by (symmetry; apply Nat.eqb_neq; lia).
      replace (Nat.eqb (S (List.length n) + 4) 4) with false
        by (symmetry; apply Nat.eqb_neq; lia).
      cbn [negb rev app].
      change ("."%char :: [x; y; z]) with ["."%char; x; y; z].
      rewrite Hlow.
      destruct Hext as [-> | ->]; reflexivity.
Qed.

Lemma collect_links_spec (base u : str) (hrefs : list str) :
  In u (collect_links base hrefs) <->
  exists h, In h hrefs /\ accept_href base h = Some u.
Proof.
  induction hrefs as [| h hrefs IH]; cbn [collect_links In].
  - split; [intros [] | intros [h [[] _]]].
  - destruct (accept_href base h) as [v |] eqn:A.
    + cbn [In]. rewrite IH. split.
      * intros [<- | [h' [Hin Hacc]]]; [exists h; auto | exists h'; auto].
      * intros [h' [[<- | Hin] Hacc]];
          [left; congruence | right; exists h'; auto].
    + rewrite IH. split.
      * intros [h' [Hin Hacc]]. exists h'; auto.
      * intros [h' [[<- | Hin] Hacc]]; [congruence | exists h'; auto].
Qed.

Lemma subsequence_in (s l : list str) (u : str) :
  Subsequence s l -> In u s -> In u l.
Proof.
  induction 1 as [| a s l _ IH | a s l _ IH]; cbn [In]; auto.
  intros [<- | H]; auto.
Qed.

(** X13 (main.cpp 381-395 with 373-379 and 397-413,
    extract_map_links_from_index_html, url_join and the test of
    scan_existing_maps).  Every link the indexer returns comes from a
    capture of the page whose trimmed text is non-empty, does not end in a
    slash and ends in .bsp or .bz2 in any case, and is that text joined to
    the base; the link itself then ends in .bsp or .bz2 in any case and not
    in a slash, and its filename is a map file for the local scan unless
    the filename is nothing but the extension (four chars). *)
Theorem extract_links_are_map_files (base html u : str) :
  In u (extract_map_links_from_index_html base html) ->
  (exists href,
     In href (href_matches html) /\
     trim href <> [] /\ back_is (trim href) slash = false /\
     u = url_join base (trim href)) /\
  (ends_with (lower_copy u) (lit ".bsp") = true \/
   ends_with (lower_copy u) (lit ".bz2") = true) /\
  back_is u slash = false /\
  (4 <= List.length (filename u))%nat /\
  is_map_file (filename u) = negb (Nat.eqb (List.length (filename u)) 4).
Proof.
  intros Hin. unfold extract_map_links_from_index_html in Hin.
  apply (subsequence_in _ _ _ (std_unique_subsequence _)) in Hin.
  apply collect_links_spec in Hin as [href [Hm Hacc]].
  destruct (accept_href_spec _ _ _ Hacc) as [Ht [Hb [Hext ->]]].
  split; [exists href; auto |].
  assert (Hsuf : exists ext, (ext = lit ".bsp" \/ ext = lit ".bz2") /\
                   ends_with (lower_copy (trim href)) ext = true).
  { destruct Hext as [H | H]; [exists (lit ".bsp") | exists (lit ".bz2")];
      auto. }
  destruct Hsuf as [ext [Hext' Hends]].
  destruct (map_suffix_chars _ _ Hext' Hends) as (pre & x & y & z & E & Hl & Hc).
  rewrite E. destruct (url_join_keeps_suffix base pre x y z) as [pre' ->].
  destruct (map_suffix_shape pre' x y z ext Hext' Hl Hc) as [H1 [H2 [H3 H4]]].
  split; [destruct Hext' as [-> | ->]; auto |].
  split; [exact H2 |]. split; [| exact H4].
  rewrite H3, length_app. cbn [List.length]. lia.
Qed.

Lemma extract_links_are_map_files_witness :
  let base := lit "http://a.example/maps/" in
  let html := lit "<a href='dm_x.BSP'>x</a><a HREF='sub/.bz2'>y</a>" in
  In (lit "http://a.example/maps/sub/.bz2")
     (extract_map_links_from_index_html base html) /\
  is_map_file (filename (lit "http://a.example/maps/sub/.bz2")) = false /\
  is_map_file (filename (lit "http://a.example/maps/dm_x.BSP")) = true.
Proof.
  cbn zeta.
  assert (Hin : In (lit "http://a.example/maps/sub/.bz2")
            (extract_map_links_from_index_html (lit "http://a.example/maps/")
               (lit "<a href='dm_x.BSP'>x</a><a HREF='sub/.bz2'>y</a>"))).
  { vm_compute. right. left. reflexivity. }
  assert (Hin' : In (lit "http://a.example/maps/dm_x.BSP")
            (extract_map_links_from_index_html (lit "http://a.example/maps/")
               (lit "<a href='dm_x.BSP'>x</a><a HREF='sub/.bz2'>y</a>"))).
  { vm_compute. left. reflexivity. }
  split; [exact Hin |]. split.
  - rewrite (proj2 (proj2 (proj2 (proj2
      (extract_links_are_map_files _ _ _ Hin))))). reflexivity.
  - rewrite (proj2 (proj2 (proj2 (proj2
      (extract_links_are_map_files _ _ _ Hin'))))). reflexivity.
Defined.

Lemma std_unique_head (a : str) (l : list str) :
  exists r, std_unique (a :: l) = a :: r.
Proof.
  revert a. induction l as [| b l IH]; intros a.
  - exists []. reflexivity.
  - rewrite std_unique_cons2. destruct (str_eqb a b) eqn:E.
    + apply str_eqb_eq in E. subst b. apply IH.
    + eexists. reflexivity.
Qed.

Lemma std_unique_no_equal_neighbours (l : list str) :
  no_equal_neighbours (std_unique l).
Proof.
  induction l as [| a l IH]; [exact I |].
  destruct l as [| b l]; [exact I |].
  rewrite std_unique_cons2. destruct (str_eqb a b) eqn:E; [exact IH |].
  destruct (std_unique_head b l) as [r Hr]. rewrite Hr in *.
  cbn [no_equal_neighbours]. split; [| exact IH].
  intros ->. now rewrite str_eqb_refl in E.
Qed.

Lemma std_unique_fixed (l : list str) :
  no_equal_neighbours l -> std_unique l = l.
Proof.
  induction l as [| a l IH]; [reflexivity |].
  destruct l as [| b l]; [reflexivity |].
  intros [Hab H]. rewrite std_unique_cons2, (str_eqb_neq _ _ Hab).
  now rewrite (IH H).
Qed.

Lemma NoDup_no_equal_neighbours (l : list str) :
  NoDup l -> no_equal_neighbours l.
Proof.
  induction 1 as [| a l Hnotin _ IH]; [exact I |].
  destruct l as [| b l]; [exact I |].
  split; [| exact IH]. intros ->. apply Hnotin. now left.
Qed.

(** X14 (main.cpp 392, the std::unique call of
    extract_map_links_from_index_html).  The returned list never holds the
    same link twice in a row, keeps the order of the accepted links and
    holds exactly the links that were accepted; it is the list of accepted
    links itself whenever that list has no equal neighbours, in particular
    whenever it has no duplicate. *)
Theorem extract_links_unique (base html : str) :
  let raw := collect_links base (href_matches html) in
  let out := extract_map_links_from_index_html base html in
  no_equal_neighbours out /\
  Subsequence out raw /\
  (forall u, In u out <-> In u raw) /\
  (no_equal_neighbours raw -> out = raw) /\
  (NoDup raw -> NoDup out).
Proof.
  cbn zeta. unfold extract_map_links_from_index_html.
  split; [apply std_unique_no_equal_neighbours |].
  split; [apply std_unique_subsequence |].
  split; [| split].
  - intros u. split.
    + apply subsequence_in, std_unique_subsequence.
    + apply std_unique_keeps.
  - apply std_unique_fixed.
  - intros H.
    now rewrite (std_unique_fixed _ (NoDup_no_equal_neighbours _ H)).
Qed.

(** ** Availability map and reconciliation *)

Lemma ascii_compare_antisym (c d : ascii) :
  Ascii.compare d c = CompOpp (Ascii.compare c d).
Proof. unfold Ascii.compare. apply N.compare_antisym. Qed.

Lemma str_compare_antisym (a b : str) :
  str_compare b a = CompOpp (str_compare a b).
Proof.
  revert b. induction a as [| c a IH]; intros [| d b]; cbn; try reflexivity.
  rewrite (ascii_compare_antisym c d).
  destruct (Ascii.compare c d); cbn; [apply IH | reflexivity | reflexivity].
Qed.

Lemma str_compare_gt_lt (a b : str) :
  str_compare a b = Gt -> str_compare b a = Lt.
Proof. intros H. now rewrite str_compare_antisym, H. Qed.

Lemma map_push_forall (Q : str -> Prop) (m : AvailabilityMap) (name : str)
    (p : ptr) :
  Forall (fun e => Q (fst e)) m -> Q name ->
  Forall (fun e => Q (fst e)) (map_push m name p).
Proof.
  intros Hm Hn. induction m as [| [k v] m IH]; cbn [map_push].
  - constructor; [exact Hn | constructor].
  - inversion Hm as [| e l Hk Hrest]; subst.
    destruct (str_compare name k).
    + constructor; [exact Hk | exact Hrest].
    + constructor; [exact Hn | exact Hm].
    + constructor; [exact Hk | exact (IH Hrest)].
Qed.

Lemma map_push_increasing (m : AvailabilityMap) (name : str) (p : ptr) :
  keys_increasing m -> keys_increasing (map_push m name p).
Proof.
  induction m as [| [k v] m IH]; cbn [map_push keys_increasing].
  - intros _. split; [constructor | exact I].
  - intros [Hk Hm]. destruct (str_compare name k) eqn:C.
    + cbn [keys_increasing]. split; assumption.
    + cbn [keys_increasing]. split; [| split; assumption].
      constructor; [exact C |].
      eapply Forall_impl; [| exact Hk].
      intros e He. exact (str_compare_lt_trans _ _ _ C He).
    + cbn [keys_increasing]. split; [| exact (IH Hm)].
      apply (map_push_forall (fun x => str_compare k x = Lt));
        [exact Hk | exact (str_compare_gt_lt _ _ C)].
Qed.

Lemma map_push_nonempty (m : AvailabilityMap) (name : str) (p : ptr) :
  Forall (fun e => snd e <> []) m ->
  Forall (fun e => snd e <> []) (map_push m name p).
Proof.
  induction m as [| [k v] m IH]; cbn [map_push]; intros Hm.
  - constructor; [discriminate | constructor].
  - inversion Hm as [| e l Hk Hrest]; subst.
    destruct (str_compare name k).
    + constructor; [| exact Hrest]. cbn. now destruct v.
    + constructor; [discriminate | exact Hm].
    + constructor; [exact Hk | exact (IH Hrest)].
Qed.

Lemma map_find_in (m : AvailabilityMap) (k : str) (v : list ptr) :
  keys_increasing m -> In (k, v) m -> map_find m k = Some v.
Proof.
  induction m as [| [k0 v0] m IH]; [intros _ [] |].
  cbn [keys_increasing map_find In]. intros [Hk Hm] [E | Hin].
  - injection E as -> ->. now rewrite str_compare_refl.
  - rewrite Forall_forall in Hk. specialize (Hk _ Hin). cbn in Hk.
    rewrite str_compare_antisym, Hk. cbn. exact (IH Hm Hin).
Qed.

Lemma map_find_some (m : AvailabilityMap) (k : str) (v : list ptr) :
  map_find m k = Some v -> In (k, v) m.
Proof.
  induction m as [| [k0 v0] m IH]; [discriminate |].
  cbn [map_find In]. destruct (str_compare k k0) eqn:C.
  - apply str_compare_eq_iff in C. subst k0. intros H. injection H as ->.
    now left.
  - discriminate.
  - intros H. right. exact (IH H).
Qed.

Lemma keys_increasing_NoDup (m : AvailabilityMap) :
  keys_increasing m -> NoDup (map fst m).
Proof.
  induction m as [| [k v] m IH]; [constructor |].
  cbn [keys_increasing map fst]. intros [Hk Hm].
  constructor; [| exact (IH Hm)].
  intros Hin. apply in_map_iff in Hin as [[k' v'] [E Hin]]. cbn in E.
  subst k'. rewrite Forall_forall in Hk. specialize (Hk _ Hin). cbn in Hk.
  now rewrite str_compare_refl in Hk.
Qed.

Lemma register_links_shape (us : list str) (p : ptr) :
  forall m : AvailabilityMap,
    keys_increasing m /\ Forall (fun e => snd e <> []) m ->
    keys_increasing (register_links m p us)
    /\ Forall (fun e => snd e <> []) (register_links m p us).
Proof.
  induction us as [| u us IH]; intros m [H1 H2]; cbn [register_links].
  - split; assumption.
  - apply IH. split;
      [now apply map_push_increasing | now apply map_push_nonempty].
Qed.

Lemma build_availability_from_shape (sources : list SourceEntry)
    (indexed : list SourceIndex) :
  forall m : AvailabilityMap,
    keys_increasing m /\ Forall (fun e => snd e <> []) m ->
    keys_increasing (build_availability_from m sources indexed)
    /\ Forall (fun e => snd e <> [])
         (build_availability_from m sources indexed).
Proof.
  induction indexed as [| si indexed IH]; intros m Hm;
    cbn [build_availability_from]; [exact Hm |].
  destruct (src si) as [p |]; [| exact (IH m Hm)].
  destruct (negb (enabled (deref sources p))
            || negb (last_ok (deref sources p)))%bool; [exact (IH m Hm) |].
  apply IH, register_links_shape, Hm.
Qed.

(** X15 (main.cpp 563-574, build_availability and the std::map it
    fills).  The availability map holds its filenames in strictly
    increasing byte order, each once; a filename is a key exactly when some
    enabled and successful index result lists it, its entry is then the
    non-empty list of those sources in input order, and looking up any
    other filename finds nothing. *)
Theorem availability_map_shape (sources : list SourceEntry)
    (indexed : list SourceIndex) :
  let m := build_availability sources indexed in
  keys_increasing m /\
  NoDup (map fst m) /\
  (forall name srcs,
     In (name, srcs) m <->
     srcs <> [] /\ srcs = members sources indexed name) /\
  (forall name,
     map_find m name = None <-> members sources indexed name = []).
Proof.
  cbn zeta.
  destruct (build_availability_from_shape sources indexed [])
    as [Hinc Hne]; [split; [exact I | constructor] |].
  fold (build_availability sources indexed) in Hinc, Hne.
  split; [exact Hinc |].
  split; [exact (keys_increasing_NoDup _ Hinc) |].
  assert (Hat : forall name srcs,
            In (name, srcs) (build_availability sources indexed) ->
            srcs <> [] /\ srcs = members sources indexed name).
  { intros name srcs Hin. split.
    - rewrite Forall_forall in Hne. exact (Hne _ Hin).
    - rewrite <- map_at_build. unfold map_at.
      now rewrite (map_find_in _ _ _ Hinc Hin). }
  split.
  - intros name srcs. split; [apply Hat |].
    intros [Hn ->]. rewrite <- map_at_build in *. unfold map_at in *.
    destruct (map_find (build_availability sources indexed) name) as [v |]
      eqn:F; [| contradiction].
    exact (map_find_some _ _ _ F).
  - intros name. rewrite <- map_at_build. unfold map_at.
    destruct (map_find (build_availability sources indexed) name) as [v |]
      eqn:F.
    + split; [discriminate |]. intros ->.
      destruct (Hat _ _ (map_find_some _ _ _ F)) as [Hn _]. contradiction.
    + split; reflexivity.
Qed.

Lemma reconcile_from_filters (includes excludes existing : list str)
    (m : AvailabilityMap) :
  forall c : Reconciliation,
    let c' := reconcile_from c includes excludes existing m in
    to_get c'
    = to_get c ++ filter (missing includes excludes existing) (map fst m)
    /\ remote_after_filters c'
       = remote_after_filters c
         + Z.of_nat (List.length
                       (filter (wanted includes excludes) (map fst m)))
    /\ already_have c'
       = already_have c
         + Z.of_nat (List.length
                       (filter (present includes excludes existing)
                          (map fst m)))
    /\ to_download c'
       = to_download c
         + Z.of_nat (List.length
                       (filter (missing includes excludes existing)
                          (map fst m))).
Proof.
  induction m as [| [name srcs] m IH]; intros c; cbn zeta.
  - cbn. rewrite app_nil_r. repeat split; lia.
  - cbn [reconcile_from map fst filter].
    unfold wanted, missing, present in *.
    destruct (passes_filters name includes excludes); cbn [negb andb].
    + destruct (set_contains existing name); cbn [negb];
        match goal with
        | |- context [reconcile_from ?c0 _ _ _ _] =>
            destruct (IH c0) as [H1 [H2 [H3 H4]]]
        end;
        rewrite H1, H2, H3, H4;
        cbn [to_get remote_after_filters already_have to_download
             List.length];
        rewrite <- ?app_assoc; repeat split; try reflexivity; lia.
    + destruct (IH c) as [H1 [H2 [H3 H4]]].
      rewrite H1, H2, H3, H4. repeat split.
Qed.

(** X16 (main.cpp 782-804 and 669-685, the reconciliation loop).  The
    names to download are the keys of the availability map, in map order,
    that pass the filters and are not in the set of local files; the three
    counters are the numbers of keys that pass the filters, that pass and
    are present, and that pass and are missing. *)
Theorem reconcile_filters (includes excludes existing : list str)
    (m : AvailabilityMap) :
  let c := reconcile includes excludes existing m in
  to_get c = filter (missing includes excludes existing) (map fst m) /\
  remote_after_filters c
  = Z.of_nat (List.length (filter (wanted includes excludes) (map fst m))) /\
  already_have c
  = Z.of_nat (List.length
                (filter (present includes excludes existing) (map fst m))) /\
  to_download c = Z.of_nat (List.length (to_get c)).
Proof.
  cbn zeta. unfold reconcile.
  destruct (reconcile_from_filters includes excludes existing m
              (mkReconciliation 0 0 0 [])) as [H1 [H2 [H3 H4]]].
  cbn [to_get remote_after_filters already_have to_download app] in *.
  rewrite H1, H2, H3, H4. repeat split.
Qed.

Lemma NoDup_filter {A : Type} (f : A -> bool) (l : list A) :
  NoDup l -> NoDup (filter f l).
Proof.
  induction 1 as [| a l Hnotin _ IH]; cbn [filter]; [constructor |].
  destruct (f a); [| exact IH].
  constructor; [| exact IH]. intros Hin. apply Hnotin.
  now apply filter_In in Hin.
Qed.

(** X17 (main.cpp 782-835, the reconciliation loop and the work item of
    the download phase).  Every name the pipeline sets out to download
    passes the filters, is not among the local files, occurs once in the
    list, and has a best source whatever the latencies are: a source whose
    index result was enabled and successful and lists the name.  The
    branch that reports a name without source is never taken. *)
Theorem to_get_has_source (sources sources' : list SourceEntry)
    (indexed : list SourceIndex) (includes excludes existing : list str)
    (name : str) :
  let m := build_availability sources indexed in
  let c := reconcile includes excludes existing m in
  In name (to_get c) ->
  NoDup (to_get c) /\
  passes_filters name includes excludes = true /\
  set_contains existing name = false /\
  exists best si,
    pick_best_source sources' (map_at m name) = Some best /\
    In best (map_at m name) /\
    In si indexed /\ src si = Some best /\
    contributes sources si = true /\ offers name si = true.
Proof.
  cbn zeta. intros Hin.
  destruct (build_availability_from_shape sources indexed [])
    as [Hinc Hne]; [split; [exact I | constructor] |].
  fold (build_availability sources indexed) in Hinc, Hne.
  destruct (reconcile_from_filters includes excludes existing
              (build_availability sources indexed)
              (mkReconciliation 0 0 0 [])) as [H1 _].
  fold (reconcile includes excludes existing
          (build_availability sources indexed)) in H1.
  cbn [to_get app] in H1. rewrite H1 in *.
  split; [apply NoDup_filter, keys_increasing_NoDup, Hinc |].
  apply filter_In in Hin as [Hkey Hmiss]. unfold missing in Hmiss.
  apply andb_true_iff in Hmiss as [Hp He].
  split; [exact Hp |]. split; [now destruct (set_contains existing name) |].
  apply in_map_iff in Hkey as [[k srcs] [E Hkey]]. cbn in E. subst k.
  assert (Hat : map_at (build_availability sources indexed) name = srcs).
  { unfold map_at. now rewrite (map_find_in _ _ _ Hinc Hkey). }
  assert (Hn : srcs <> []).
  { rewrite Forall_forall in Hne. exact (Hne _ Hkey). }
  rewrite Hat. destruct srcs as [| s0 rest]; [contradiction |].
  unfold pick_best_source. cbn [pick_best_loop].
  destruct (pick_best_loop_some sources' rest s0) as [r [E Hr]].
  assert (Hrin : In r (s0 :: rest)).
  { destruct Hr as [[-> _] | [l1 [l2 [-> _]]]]; [now left |].
    right. apply in_or_app. right. now left. }
  assert (Hmem : In r (members sources indexed name)).
  { rewrite <- map_at_build, Hat. exact Hrin. }
  destruct (members_contribute _ _ _ _ Hmem) as [si [H2 [H3 [H4 H5]]]].
  exists r, si. repeat split; assumption.
Qed.

Lemma to_get_has_source_witness :
  let m := build_availability four_mirrors four_indexed in
  let c := reconcile [] [lit "runoff"] [] m in
  In (lit "dm_lockdown.bsp.bz2") (to_get c) /\
  pick_best_source four_mirrors (map_at m (lit "dm_lockdown.bsp.bz2"))
  = Some 0%nat.
Proof.
  cbn zeta.
  assert (Hin : In (lit "dm_lockdown.bsp.bz2")
            (to_get (reconcile [] [lit "runoff"] []
                       (build_availability four_mirrors four_indexed)))).
  { vm_compute. left. reflexivity. }
  split; [exact Hin |].
  destruct (to_get_has_source four_mirrors four_mirrors four_indexed
              [] [lit "runoff"] [] _ Hin)
    as [_ [_ [_ [best [si [E _]]]]]].
  rewrite E. vm_compute in E. symmetry. exact E.
Defined.

(** ** The URL a download asks for *)

Lemma strip_front_slash_bare (name : str) :
  no_char slash name -> strip_front_slash name = name.
Proof.
  intros H. unfold strip_front_slash. destruct name as [| c name];
    [reflexivity |].
  cbn [front_is]. now rewrite (H c (or_introl eq_refl)).
Qed.

Lemma url_join_bare (base name : str) :
  no_char slash name -> name <> [] -> base <> [] ->
  url_join base name = strip_back_slash base ++ [slash] ++ name.
Proof.
  intros H Hn Hb.
  rewrite url_join_relative; [| now apply bare_not_absolute | exact Hb | exact Hn].
  now rewrite strip_front_slash_bare.
Qed.

Lemma filename_url_join_bare (base name : str) :
  no_char slash name -> name <> [] -> filename (url_join base name) = name.
Proof.
  intros H Hn. destruct base as [| b0 base].
  - rewrite url_join_no_base.
    now apply filename_bare.
  - rewrite url_join_bare by (assumption || discriminate).
    cbn [app]. now apply filename_app_slash.
Qed.

(** X18 (main.cpp 391, 568-569 and 833, the link the indexer builds, the
    key build_availability files it under and the URL the download phase
    asks for).  The download phase asks for the source URL joined to the
    bare filename of the listed link.  For a listed name without a
    directory part this is the listed link again; for a relative link with
    a directory part in front of the name the file is filed under the bare
    name and the URL asked for is the listed link only if that directory
    part is empty. *)
Theorem download_url_of_link (base href dir name : str) :
  let link := url_join base href in
  let requested := url_join base (filename link) in
  (no_char slash href -> href <> [] -> requested = link) /\
  (href = dir ++ slash :: name -> no_char slash name -> name <> [] ->
   is_absolute href = false -> base <> [] ->
   filename link = name /\ (requested = link <-> dir = [])).
Proof.
  cbn zeta. split.
  - intros H Hn. now rewrite filename_url_join_bare.
  - intros -> H Hn Habs Hb.
    rewrite url_join_relative; [| exact Habs | exact Hb | now destruct dir].
    assert (Hs : exists x,
              strip_front_slash (dir ++ slash :: name) = x ++ slash :: name
              \/ (dir = [] /\
                  strip_front_slash (dir ++ slash :: name) = name)).
    { unfold strip_front_slash. destruct dir as [| d0 dir].
      - exists []. right. split; [reflexivity |]. cbn [app front_is tl].
        unfold is_char. now destruct (ascii_dec slash slash).
      - cbn [app front_is tl]. destruct (is_char d0 slash).
        + exists dir. now left.
        + exists (d0 :: dir). now left. }
    destruct Hs as [x [Hx | [-> Hx]]]; rewrite Hx.
    + assert (Hf : filename (strip_back_slash base ++ [slash]
                               ++ x ++ slash :: name) = name).
      { rewrite !app_assoc. now apply filename_app_slash. }
      rewrite Hf. split; [reflexivity |].
      rewrite url_join_bare by assumption.
      split.
      * intros Heq. apply app_inv_head in Heq. apply app_inv_head in Heq.
        apply (f_equal (@List.length ascii)) in Heq.
        rewrite length_app in Heq. cbn [List.length] in Heq. lia.
      * intros ->. cbn [app] in Hx. unfold strip_front_slash in Hx.
        cbn [front_is tl] in Hx. unfold is_char in Hx.
        destruct (ascii_dec slash slash); [| contradiction].
        apply (f_equal (@List.length ascii)) in Hx.
        rewrite length_app in Hx. cbn [List.length] in Hx. lia.
    + assert (Hf : filename (strip_back_slash base ++ [slash] ++ name)
                   = name).
      { cbn [app]. now apply filename_app_slash. }
      rewrite Hf. split; [reflexivity |].
      rewrite url_join_bare by assumption. split; reflexivity.
Qed.

Lemma download_url_of_link_witness :
  let base := lit "http://a.example/maps/" in
  let href := lit "old/dm_x.bsp" in
  filename (url_join base href) = lit "dm_x.bsp" /\
  url_join base (filename (url_join base href)) <> url_join base href /\
  url_join base (filename (url_join base (lit "dm_x.bsp")))
  = url_join base (lit "dm_x.bsp").
Proof.
  cbn zeta.
  assert (Hbare : forall s, s = lit "dm_x.bsp" -> no_char slash s).
  { intros s -> d Hd. unfold lit in Hd.
    cbn [list_ascii_of_string In] in Hd.
    repeat (destruct Hd as [<- | Hd]; [reflexivity |]). destruct Hd. }
  destruct (download_url_of_link (lit "http://a.example/maps/")
              (lit "old/dm_x.bsp") (lit "old") (lit "dm_x.bsp"))
    as [_ Hdir].
  destruct Hdir as [Hf Hiff];
    [reflexivity | now apply Hbare | discriminate | reflexivity
     | discriminate |].
  split; [exact Hf |]. split.
  - intros Heq. apply Hiff in Heq. discriminate Heq.
  - apply (proj1 (download_url_of_link (lit "http://a.example/maps/")
                    (lit "dm_x.bsp") [] []));
      [now apply Hbare | discriminate].
Defined.

(** ** Scan of the local maps *)

Lemma set_contains_In (s : list str) (x : str) :
  set_contains s x = true <-> In x s.
Proof.
  unfold set_contains. rewrite existsb_exists. split.
  - intros [y [Hy E]]. apply str_eqb_eq in E. now subst y.
  - intros H. exists x. split; [exact H | apply str_eqb_refl].
Qed.

Lemma set_insert_In (s : list str) (x y : str) :
  In y (set_insert s x) <-> y = x \/ In y s.
Proof.
  unfold set_insert. destruct (set_contains s x) eqn:C.
  - apply set_contains_In in C. split; [auto | intros [-> | H]; auto].
  - rewrite in_app_iff. cbn [In]. split.
    + intros [H | [<- | []]]; auto.
    + intros [-> | H]; auto.
Qed.

Lemma set_insert_NoDup (s : list str) (x : str) :
  NoDup s -> NoDup (set_insert s x).
Proof.
  intros H. unfold set_insert. destruct (set_contains s x) eqn:C;
    [exact H |].
  apply NoDup_app; [exact H | constructor; [intros [] | constructor] |].
  intros a Ha [<- | []]. apply set_contains_In in Ha. congruence.
Qed.

Lemma set_insert_length (s : list str) (x : str) :
  (List.length (set_insert s x) <= S (List.length s))%nat.
Proof.
  unfold set_insert. destruct (set_contains s x); [lia |].
  rewrite length_app. cbn [List.length]. lia.
Qed.

Lemma scan_fold_spec (found : list str) :
  forall acc : list str,
    let names :=
      fold_left (fun acc p => if is_map_file p
                              then set_insert acc (filename p) else acc)
                found acc in
    (NoDup acc -> NoDup names) /\
    (forall n, In n names <->
       In n acc \/
       exists p, In p found /\ is_map_file p = true /\ filename p = n) /\
    (List.length names <= List.length acc + List.length found)%nat.
Proof.
  induction found as [| p found IH]; intros acc; cbn zeta.
  - cbn. split; [auto |]. split; [| lia].
    intros n. split; [auto | intros [H | [p [[] _]]]; exact H].
  - cbn [fold_left].
    destruct (IH (if is_map_file p then set_insert acc (filename p)
                  else acc)) as [H1 [H2 H3]].
    split; [| split].
    + intros Hacc. apply H1. destruct (is_map_file p);
        [now apply set_insert_NoDup | exact Hacc].
    + intros n. rewrite H2. cbn [In]. destruct (is_map_file p) eqn:Mp.
      * rewrite set_insert_In. split.
        -- intros [[-> | H] | [q [Hq [Hm Hf]]]]; auto.
           ++ right. exists p. auto.
           ++ right. exists q. auto.
        -- intros [H | [q [[<- | Hq] [Hm Hf]]]]; auto.
           right. exists q. auto.
      * split.
        -- intros [H | [q [Hq [Hm Hf]]]]; auto. right. exists q. auto.
        -- intros [H | [q [[<- | Hq] [Hm Hf]]]]; auto; [congruence |].
           right. exists q. auto.
    + cbn [List.length]. destruct (is_map_file p); [| lia].
      pose proof (set_insert_length acc (filename p)). lia.
Qed.

(** X19 (main.cpp 397-413, scan_existing_maps).  After the scan the set of
    local files holds a name exactly when some regular file met under the
    two map directories has that bare filename and the extension .bsp or
    .bz2 in any case, whatever the set held before; each name is held
    once, so the set is no larger than the number of files met.  The scan
    changes no file and no source, and reports the size of the set in one
    log line. *)
Theorem scan_existing_maps_spec (found : list str) (st : Run) (n : str) :
  let st' := scan_existing_maps found st in
  (set_contains (existing_files (rs st')) n = true <->
   exists p, In p found /\ is_map_file p = true /\ filename p = n) /\
  NoDup (existing_files (rs st')) /\
  (List.length (existing_files (rs st')) <= List.length found)%nat /\
  files (world st') = files (world st) /\
  requests (world st') = requests (world st) /\
  run_sources st' = run_sources st /\
  log (world st')
  = LiveLog_push (log (world st))
      (lit "[i] Existing map files found: "
       ++ to_string (Z.of_nat (List.length (existing_files (rs st'))))).
Proof.
  cbn zeta. unfold scan_existing_maps.
  destruct (scan_fold_spec found []) as [H1 [H2 H3]]. cbn zeta in *.
  cbn [rs run_push with_world with_rs set_existing existing_files world
       run_sources files requests log push set_log].
  split; [| split; [| split; [| repeat split]]].
  - rewrite set_contains_In, H2. cbn [In]. tauto.
  - apply H1. constructor.
  - cbn [List.length] in H3. lia.
Qed.

(** ** What a run does to the sources and to the files *)

Lemma update_source_length (p : ptr) (f : SourceEntry -> SourceEntry)
    (l : list SourceEntry) :
  List.length (update_source p f l) = List.length l.
Proof.
  revert p. induction l as [| e l IH]; intros [| p]; cbn; auto.
Qed.

Lemma update_source_deref (p q : ptr) (f : SourceEntry -> SourceEntry)
    (l : list SourceEntry) :
  deref (update_source p f l) q
  = if (Nat.eqb q p && Nat.ltb p (List.length l))%bool
    then f (deref l p) else deref l q.
Proof.
  unfold deref. revert p q. induction l as [| e l IH]; intros p q.
  - cbn [update_source List.length]. rewrite andb_false_r.
    now destruct p.
  - destruct p as [| p], q as [| q]; cbn [update_source nth List.length];
      try reflexivity.
    rewrite IH. reflexivity.
Qed.

Lemma sources_kept_refl (l : list SourceEntry) : sources_kept l l.
Proof. split; [reflexivity | intros q; repeat split]. Qed.

Lemma admitted_incl {A : Type} (cancel : nat -> bool) (items : list A) :
  forall (i : nat) (x : A), In x (admitted cancel i items) -> In x items.
Proof.
  induction items as [| y items IH]; intros i x; cbn [admitted];
    [intros [] |].
  destruct (cancel i); [intros [] |].
  intros [<- | H]; [now left | right; exact (IH _ _ H)].
Qed.

Lemma worker_index_world (env : PipelineEnv) (p : ptr)
    (acc : Run * list SourceIndex) :
  files (world (fst (worker_index env p acc))) = files (world (fst acc)) /\
  requests (world (fst (worker_index env p acc)))
  = requests (world (fst acc)) /\
  run_sources (fst (worker_index env p acc))
  = update_source p
      (fun e => mkSource (url e) (enabled e) (http_ms env p)
                  (empty (err (http_reply env p))
                   && (200 <=? status (http_reply env p))
                   && (status (http_reply env p) <? 400))%bool)
      (run_sources (fst acc)).
Proof.
  destruct acc as [st indexed]. unfold worker_index. cbn zeta.
  destruct (empty (err (http_reply env p))
            && (200 <=? status (http_reply env p))
            && (status (http_reply env p) <? 400))%bool;
    cbn; repeat split.
Qed.

Lemma index_fold_sources (env : PipelineEnv) (ps : list ptr) :
  forall acc : Run * list SourceIndex,
    (forall p, In p ps -> enabled (deref (run_sources (fst acc)) p) = true) ->
    let acc' := fold_left (fun a x => worker_index env x a) ps acc in
    files (world (fst acc')) = files (world (fst acc)) /\
    requests (world (fst acc')) = requests (world (fst acc)) /\
    sources_kept (run_sources (fst acc)) (run_sources (fst acc')).
Proof.
  induction ps as [| p ps IH]; intros acc Hen; cbn zeta.
  - cbn. repeat split.
  - cbn [fold_left].
    destruct (worker_index_world env p acc) as [Hf [Hr Hs]].
    destruct (IH (worker_index env p acc)) as [Hf' [Hr' [Hl' Hq']]].
    { intros q Hq. rewrite Hs, update_source_deref.
      destruct (Nat.eqb q p && Nat.ltb p _)%bool; cbn [enabled];
        [apply Hen; now left | apply Hen; now right]. }
    cbn zeta in *.
    split; [congruence |]. split; [congruence |].
    split.
    + rewrite Hl', Hs. apply update_source_length.
    + intros q. destruct (Hq' q) as [Hu [He Hd]].
      rewrite Hs, update_source_deref in Hu, He, Hd.
      destruct (Nat.eqb q p && Nat.ltb p _)%bool eqn:C.
      * apply andb_true_iff in C as [C _]. apply Nat.eqb_eq in C. subst q.
        cbn [url enabled] in Hu, He.
        split; [exact Hu |]. split; [exact He |].
        intros Hdis. rewrite (Hen p (or_introl eq_refl)) in Hdis.
        discriminate.
      * split; [exact Hu |]. split; [exact He | exact Hd].
Qed.

Lemma index_phase_sources (env : PipelineEnv) (st : Run) :
  (forall l p, In p (index_order env l) -> In p l) ->
  let st' := fst (index_phase env (enabled_ptrs (run_sources st)) st) in
  files (world st') = files (world st) /\
  requests (world st') = requests (world st) /\
  sources_kept (run_sources st) (run_sources st').
Proof.
  intros Hord. cbn zeta. unfold index_phase, bounded_for_each.
  match goal with
  | |- context [fold_left _ ?ps ?acc] =>
      destruct (index_fold_sources env ps acc) as [H1 [H2 H3]]
  end.
  { intros p Hp. apply Hord, admitted_incl in Hp.
    unfold enabled_ptrs in Hp. apply filter_In in Hp as [_ Hp].
    exact Hp. }
  cbn zeta in *.
  match goal with
  | |- context [fold_left ?f ?ps ?acc] =>
      destruct (fold_left f ps acc) as [st1 indexed]
  end.
  cbn in *. repeat split; try assumption; apply H3.
Qed.

Lemma delete_loop_sources (env : PipelineEnv) (bz2s : list str) :
  forall (i : nat) (st : Run),
    run_sources (delete_loop env i bz2s st) = run_sources st.
Proof.
  induction bz2s as [| b bz2s IH]; intros i st; cbn [delete_loop];
    [reflexivity |].
  destruct (delete_cancel env i); [reflexivity |].
  rewrite IH. now destruct (remove_error env b).
Qed.

Lemma worker_download_sources (env : PipelineEnv) (s : Settings)
    (dl_dir : str) (m : AvailabilityMap) (name : str) (st : Run) :
  run_sources (worker_download env s dl_dir m name st) = run_sources st.
Proof.
  unfold worker_download. cbn zeta.
  destruct (pick_best_source (run_sources st) (map_at m name));
    [| reflexivity].
  now destruct (download_file _ _ _ _ _ _).
Qed.

Lemma worker_decompress_sources (env : PipelineEnv) (s : Settings)
    (bz2 : str) (st : Run) :
  run_sources (worker_decompress env s bz2 st) = run_sources st.
Proof.
  unfold worker_decompress. cbn zeta.
  now destruct (decompress_bz2_to_file _ _ _ _ _).
Qed.

Lemma after_index_sources (env : PipelineEnv) (s : Settings) (dl_dir : str)
    (m : AvailabilityMap) (names : list str) (st : Run) :
  run_sources (after_download env s
                 (download_phase env s dl_dir m names st))
  = run_sources st.
Proof.
  assert (Hd : forall st0,
            run_sources (download_phase env s dl_dir m names st0)
            = run_sources st0).
  { intros st0. unfold download_phase. cbn zeta. cbn [with_rs run_sources].
    rewrite (bounded_for_each_keeps run_sources);
      [reflexivity | apply worker_download_sources]. }
  unfold after_download.
  destruct (cancel_after_download env); [apply Hd |].
  cbn [run_push with_world run_sources].
  destruct (decompress s); [| apply Hd].
  assert (Hz : forall bz2s st0,
            run_sources (decompress_phase env s bz2s st0) = run_sources st0).
  { intros bz2s st0. unfold decompress_phase. cbn zeta.
    cbn [with_rs run_sources].
    rewrite (bounded_for_each_keeps run_sources);
      [reflexivity | apply worker_decompress_sources]. }
  destruct (delete_bz2 s && negb (cancel_before_delete env))%bool.
  - unfold delete_phase. cbn zeta. cbn [with_rs run_sources].
    rewrite delete_loop_sources.
    cbn [run_push with_world with_rs run_sources].
    rewrite Hz. apply Hd.
  - rewrite Hz. apply Hd.
Qed.

(** X20 (main.cpp 589-692 and 694-911, run_index_only and run_pipeline on
    the vector of sources).  When the index work items that run are among
    those launched, a run of either kind leaves the number of sources,
    every URL and every check mark as they were, and writes the latency
    and the success flag of enabled sources only: a source that is not
    enabled comes out of the run as it went in. *)
Theorem run_keeps_sources (env : PipelineEnv) (s : Settings) (st : Run) :
  (forall l p, In p (index_order env l) -> In p l) ->
  sources_kept (run_sources st) (run_sources (run_index_only env s st)) /\
  sources_kept (run_sources st) (run_sources (run_pipeline env s st)).
Proof.
  intros Hord.
  pose proof (index_phase_sources env
                (scan_existing_maps (scanned env) (with_rs reset_phases st))
                Hord) as Hidx.
  cbn zeta in Hidx. rewrite run_sources_scan in Hidx.
  destruct Hidx as [_ [_ Hkept]].
  split.
  - unfold run_index_only. cbn zeta.
    destruct (empty (hl2mp_path s) || negb (path_exists env))%bool;
      [apply sources_kept_refl |].
    rewrite run_sources_scan.
    destruct (is_nil (enabled_ptrs (run_sources st)));
      [apply sources_kept_refl |].
    destruct (index_phase env (enabled_ptrs (run_sources st))
                (scan_existing_maps (scanned env)
                   (with_rs reset_phases st))) as [st1 indexed].
    exact Hkept.
  - unfold run_pipeline. cbn zeta.
    destruct (empty (hl2mp_path s) || negb (path_exists env))%bool;
      [apply sources_kept_refl |].
    destruct (mkdir_error env); [apply sources_kept_refl |].
    rewrite run_sources_scan.
    destruct (is_nil (enabled_ptrs (run_sources st)));
      [apply sources_kept_refl |].
    destruct (index_phase env (enabled_ptrs (run_sources st))
                (scan_existing_maps (scanned env)
                   (with_rs reset_phases st))) as [st1 indexed].
    rewrite after_index_sources. exact Hkept.
Qed.

Lemma run_keeps_sources_witness :
  sources_kept (run_sources sample_run)
    (run_sources (run_pipeline sample_env sample_settings sample_run)) /\
  deref (run_sources (run_pipeline sample_env sample_settings sample_run))
    3%nat
  = deref four_mirrors 3%nat.
Proof.
  assert (H : forall (l : list ptr) (p : ptr),
            In p (index_order sample_env l) -> In p l)
    by (intros l p Hp; exact Hp).
  split.
  - exact (proj2 (run_keeps_sources sample_env sample_settings sample_run H)).
  - apply (proj2 (run_keeps_sources sample_env sample_settings sample_run H)).
    reflexivity.
Defined.

(** X21 (main.cpp 589-692, run_index_only).  An index-only run changes no
    file and performs no download transfer, however it ends. *)
Theorem run_index_only_reads_only (env : PipelineEnv) (s : Settings)
    (st : Run) :
  files (world (run_index_only env s st)) = files (world st) /\
  requests (world (run_index_only env s st)) = requests (world st).
Proof.
  unfold run_index_only. cbn zeta.
  destruct (empty (hl2mp_path s) || negb (path_exists env))%bool;
    [split; reflexivity |].
  destruct (is_nil (enabled_ptrs
                      (run_sources (scan_existing_maps (scanned env)
                                      (with_rs reset_phases st)))));
    [split; reflexivity |].
  unfold index_phase, bounded_for_each.
  match goal with
  | |- context [fold_left ?f ?ps ?acc] =>
      pose proof (bounded_for_each_keeps
                    (fun a : Run * list SourceIndex =>
                       (files (world (fst a)), requests (world (fst a))))
                    (fun _ => false) (fun _ => ps)
                    (worker_index env)) as Hk;
      unfold bounded_for_each in Hk;
      specialize (Hk (fun x a =>
                        f_equal2 pair
                          (proj1 (worker_index_world env x a))
                          (proj1 (proj2 (worker_index_world env x a))))
                     [] acc);
      destruct (fold_left f ps acc) as [st1 indexed]
  end.
  cbn in Hk. injection Hk as Hf Hr. cbn. split; assumption.
Qed.

(** ** What a download touches *)

Lemma download_attempt_effects (a : DlAttempt) (url out_file : str)
    (retries attempt : Z) (w : World) :
  let step := download_attempt a url out_file retries attempt w in
  let w' := match step with Return _ w1 => w1 | Continue w1 => w1 end in
  (forall q, q <> c_str out_file -> q <> c_str (out_file ++ lit ".part") ->
     files w' q = files w q) /\
  (requests w' = requests w \/ requests w' = requests w ++ [c_str url]) /\
  (step = Return true w' -> failures (log w') = failures (log w)) /\
  (step = Continue w' -> attempt < retries ->
     failures (log w') = failures (log w)).
Proof.
  cbn zeta. unfold download_attempt.
  destruct (dl_cancel_at_loop a).
  { repeat split; auto. }
  cbn zeta.
  set (tmp := c_str (out_file ++ lit ".part")).
  set (out := c_str out_file).
  set (w0 := if (fs_exists (files w) tmp && dl_stale_removed a)%bool
             then set_files w (fs_remove (files w) tmp) else w).
  assert (H0 : (forall q, q <> tmp -> files w0 q = files w q) /\
               requests w0 = requests w /\ log w0 = log w).
  { unfold w0. destruct (fs_exists (files w) tmp && dl_stale_removed a)%bool;
      [| repeat split].
    cbn [files requests log set_files]. repeat split.
    intros q Hq. unfold fs_remove. now rewrite (str_eqb_neq _ _ Hq). }
  destruct H0 as (F0 & R0 & L0). clearbody w0.
  destruct (dl_fopen_ok a); cbn [negb].
  2:{ cbn [files requests log fail set_log LiveLog_fail lines].
      split; [intros q _ Hq; now apply F0 |].
      split; [now left |]. split; discriminate. }
  destruct (dl_cancel_after a).
  { cbn [files requests]. split; [| split; [| split; discriminate]].
    - intros q _ Hq. unfold fs_write. rewrite (str_eqb_neq _ _ Hq).
      now apply F0.
    - right. now rewrite R0. }
  destruct (status_2xx a).
  { cbn [files requests log set_files].
    split; [| split; [| split; [| discriminate]]].
    - intros q H1 H2.
      assert (Hpub : forall fs0, publish a tmp out fs0 q = fs0 q).
      { intros fs0. unfold publish, fs_rename, fs_copy.
        destruct (dl_rename_ok a).
        - destruct (str_eqb tmp out); [reflexivity |].
          unfold fs_remove. rewrite (str_eqb_neq _ _ H2).
          destruct (fs0 tmp); [| reflexivity].
          unfold fs_write. now rewrite (str_eqb_neq _ _ H1).
        - assert (Hc : (if dl_copy_ok a
                        then match fs0 tmp with
                             | Some content => fs_write fs0 out content
                             | None => fs0
                             end
                        else fs0) q = fs0 q).
          { destruct (dl_copy_ok a); [| reflexivity].
            destruct (fs0 tmp); [| reflexivity].
            unfold fs_write. now rewrite (str_eqb_neq _ _ H1). }
          destruct (dl_part_removed a); [| exact Hc].
          unfold fs_remove. rewrite (str_eqb_neq _ _ H2). exact Hc. }
      rewrite Hpub. unfold fs_write. rewrite (str_eqb_neq _ _ H2).
      now apply F0.
    - right. now rewrite R0.
    - intros _. now rewrite L0. }
  match goal with
  | |- context [if dl_part_removed a then ?x else ?y] =>
      set (w1 := if dl_part_removed a then x else y)
  end.
  assert (H1 : (forall q, q <> tmp -> files w1 q = files w q) /\
               requests w1 = requests w ++ [c_str url] /\ log w1 = log w).
  { unfold w1. destruct (dl_part_removed a);
      cbn [files requests log set_files]; rewrite R0, L0;
      repeat split; intros q Hq; unfold fs_remove, fs_write;
      rewrite ?(str_eqb_neq _ _ Hq); now apply F0. }
  destruct H1 as (F1 & R1 & L1). clearbody w1.
  split; [| split; [| split]].
  - intros q _ Hq. destruct (attempt <? retries);
      cbn [files push fail set_log]; now apply F1.
  - right. destruct (attempt <? retries);
      cbn [requests push fail set_log]; exact R1.
  - destruct (attempt <? retries); discriminate.
  - intros _ Hlt. apply Z.ltb_lt in Hlt. rewrite Hlt.
    cbn [log push set_log LiveLog_push failures]. now rewrite L1.
Qed.

Lemma download_attempts_effects (env : Z -> DlAttempt) (url out_file : str)
    (retries : Z) (left : nat) :
  forall (attempt : Z) (w : World),
    attempt + Z.of_nat left <= retries + 1 ->
    let r := fst (download_attempts env url out_file retries left attempt w) in
    let w' := snd (download_attempts env url out_file retries left attempt w) in
    (forall q, q <> c_str out_file -> q <> c_str (out_file ++ lit ".part") ->
       files w' q = files w q) /\
    (exists n, (n <= left)%nat /\
       requests w' = requests w ++ repeat (c_str url) n) /\
    (r = true -> failures (log w') = failures (log w)).
Proof.
  induction left as [| left IH]; intros attempt w Hbound; cbn zeta.
  - cbn. split; [auto |]. split; [| discriminate].
    exists O. split; [lia |]. cbn. now rewrite app_nil_r.
  - cbn [download_attempts].
    destruct (download_attempt_effects (env attempt) url out_file retries
                attempt w) as [Hf [Hr [Ht Hc]]].
    cbn zeta in *.
    destruct (download_attempt (env attempt) url out_file retries attempt w)
      as [r w1 | w1] eqn:E.
    + cbn [fst snd]. split; [exact Hf |]. split.
      * destruct Hr as [Hr | Hr]; [exists O | exists 1%nat];
          (split; [lia |]); cbn [repeat]; rewrite Hr;
          [now rewrite app_nil_r | reflexivity].
      * intros ->. now apply Ht.
    + destruct (IH (attempt + 1) w1) as [Hf' [[n [Hn Hr']] Ht']]; [lia |].
      cbn zeta in *.
      split; [| split].
      * intros q H1 H2. rewrite (Hf' q H1 H2). exact (Hf q H1 H2).
      * destruct Hr as [Hr | Hr].
        -- exists n. split; [lia |]. now rewrite Hr', Hr.
        -- exists (S n). split; [lia |]. rewrite Hr', Hr, <- app_assoc.
           reflexivity.
      * intros Htrue. rewrite (Ht' Htrue).
        destruct left as [| left'].
        -- cbn in Htrue. discriminate.
        -- apply Hc; [reflexivity | lia].
Qed.

(** X22 (main.cpp 420-479, download_file).  Whatever the environment
    answers, a call changes no file other than the two paths the
    operating system is handed for the destination and for its .part
    companion, each the string up to its first NUL char; it runs at most
    as many transfers as the retry budget allows, all of them on the URL
    as libcurl is handed it; and it records no failure when it returns
    true. *)
Theorem download_file_effects (env : Z -> DlAttempt) (url out_file : str)
    (timeout_ms retries : Z) (w : World) :
  let r := fst (download_file env url out_file timeout_ms retries w) in
  let w' := snd (download_file env url out_file timeout_ms retries w) in
  (forall q, q <> c_str out_file -> q <> c_str (out_file ++ lit ".part") ->
     files w' q = files w q) /\
  (exists n, Z.of_nat n <= Z.max 0 retries /\
     requests w' = requests w ++ repeat (c_str url) n) /\
  (r = true -> failures (log w') = failures (log w)).
Proof.
  cbn zeta. unfold download_file.
  destruct (Z.ltb_spec retries 0) as [Hneg | Hpos].
  { replace (Z.to_nat retries) with O by lia. cbn [download_attempts fst snd].
    split; [auto |]. split; [| discriminate].
    exists O. split; [lia |]. cbn. now rewrite app_nil_r. }
  destruct (download_attempts_effects env url out_file retries
              (Z.to_nat retries) 1 w) as [Hf [[n [Hn Hr]] Ht]]; [lia |].
  cbn zeta in *.
  split; [exact Hf |]. split; [| exact Ht].
  exists n. split; [lia | exact Hr].
Qed.

(** A name with a NUL char in it: the file written and the URL asked for
    are the ones up to that char. *)
Lemma download_file_effects_witness :
  let out := lit "maps/dm_x" ++ nul :: lit ".bsp" in
  let url := lit "http://a.example/dm_x" ++ nul :: lit ".bsp" in
  let w' := snd (download_file flaky_server url out 30000 2 empty_world) in
  c_str out = lit "maps/dm_x" /\
  files w' (lit "maps/dm_x") = Some (lit "BSP") /\
  files w' out = None /\
  requests w' = [lit "http://a.example/dm_x"; lit "http://a.example/dm_x"].
Proof.
  cbn zeta. split; [reflexivity |]. split; [reflexivity |].
  pose proof (download_file_effects flaky_server
                (lit "http://a.example/dm_x" ++ nul :: lit ".bsp")
                (lit "maps/dm_x" ++ nul :: lit ".bsp") 30000 2 empty_world)
    as [Hf [_ _]].
  cbn zeta in Hf. split; [| reflexivity].
  rewrite Hf; [reflexivity | discriminate | discriminate].
Defined.

(** ** What a decompression touches *)

Lemma fs_append_other (fs : FS) (p q data : str) :
  q <> p -> fs_append fs p data q = fs q.
Proof.
  intros H. unfold fs_append, fs_write.
  destruct (fs p); now rewrite (str_eqb_neq _ _ H).
Qed.

Lemma read_loop_other (reads : list BzRead) (out_file q : str) :
  q <> out_file ->
  forall (bzerr : Z) (fs : FS),
    snd (read_loop reads out_file bzerr fs) q = fs q.
Proof.
  intros Hq. induction reads as [| r reads IH]; intros bzerr fs;
    cbn [read_loop]; [reflexivity |].
  destruct (rd_cancel r); [reflexivity |]. cbn zeta.
  destruct ((rd_err r =? BZ_OK) || (rd_err r =? BZ_STREAM_END))%bool;
    [| reflexivity].
  destruct (rd_err r =? BZ_STREAM_END).
  - cbn [snd]. destruct (0 <? List.length (rd_data r))%nat;
      [now apply fs_append_other | reflexivity].
  - rewrite IH. destruct (0 <? List.length (rd_data r))%nat;
      [now apply fs_append_other | reflexivity].
Qed.

Lemma decompress_attempt_effects (a : BzAttempt) (bz2_file out_file : str)
    (retries attempt : Z) (w : World) :
  let step := decompress_attempt a bz2_file out_file retries attempt w in
  let w' := match step with Return _ w1 => w1 | Continue w1 => w1 end in
  (forall q, q <> c_str out_file -> files w' q = files w q) /\
  requests w' = requests w /\
  lines (log w') = lines (log w) /\
  (step = Return true w' \/ step = Continue w' -> log w' = log w).
Proof.
  cbn zeta. unfold decompress_attempt. cbn zeta.
  destruct (bz_cancel_at_loop a).
  { repeat split. }
  assert (Htrunc : forall q, q <> c_str out_file ->
            files (if bz_out_ok a
                   then set_files w (fs_write (files w) (c_str out_file) [])
                   else w) q = files w q).
  { intros q Hq. destruct (bz_out_ok a); [| reflexivity].
    cbn [files set_files]. unfold fs_write.
    now rewrite (str_eqb_neq _ _ Hq). }
  assert (Hreq : requests (if bz_out_ok a
                           then set_files w (fs_write (files w) (c_str out_file) [])
                           else w) = requests w)
    by now destruct (bz_out_ok a).
  assert (Hlog : log (if bz_out_ok a
                      then set_files w (fs_write (files w) (c_str out_file) [])
                      else w) = log w)
    by now destruct (bz_out_ok a).
  destruct (negb (bz_in_ok a) || negb (bz_out_ok a))%bool.
  { cbn [files requests log fail set_log LiveLog_fail lines].
    rewrite Hreq, Hlog.
    repeat split; try (intros [H | H]; discriminate H). exact Htrunc. }
  destruct (negb (bz_open_ok a)).
  { cbn [files requests log fail set_log LiveLog_fail lines].
    rewrite Hreq, Hlog.
    repeat split; try (intros [H | H]; discriminate H). exact Htrunc. }
  pose proof (fun q Hq => read_loop_other (bz_reads a) (c_str out_file) q Hq BZ_OK
                (files (if bz_out_ok a
                        then set_files w (fs_write (files w) (c_str out_file) [])
                        else w))) as Hloop.
  destruct (read_loop (bz_reads a) (c_str out_file) BZ_OK
              (files (if bz_out_ok a
                      then set_files w (fs_write (files w) (c_str out_file) [])
                      else w))) as [bzerr fs].
  cbn [snd] in Hloop. cbn zeta.
  destruct (bz_cancel_after a).
  { cbn [files requests log set_files]. rewrite Hreq, Hlog.
    repeat split; try (intros [H | H]; discriminate H).
    intros q Hq. rewrite (Hloop q Hq). exact (Htrunc q Hq). }
  destruct ((bz_close_err a =? BZ_STREAM_END) || (bz_close_err a =? BZ_OK))%bool.
  { cbn [files requests log set_files]. rewrite Hreq, Hlog.
    repeat split. intros q Hq. rewrite (Hloop q Hq). exact (Htrunc q Hq). }
  destruct (attempt =? retries), (bz_removed a);
    cbn [files requests log fail set_log set_files LiveLog_fail lines];
    rewrite Hreq, Hlog;
    repeat split; try (intros [H | H]; discriminate H);
    intros q Hq; unfold fs_remove; rewrite ?(str_eqb_neq _ _ Hq);
    rewrite (Hloop q Hq); exact (Htrunc q Hq).
Qed.

Lemma decompress_attempts_effects (env : Z -> BzAttempt)
    (bz2_file out_file : str) (retries : Z) (left : nat) :
  forall (attempt : Z) (w : World),
    let r := fst (decompress_attempts env bz2_file out_file retries left
                    attempt w) in
    let w' := snd (decompress_attempts env bz2_file out_file retries left
                     attempt w) in
    (forall q, q <> c_str out_file -> files w' q = files w q) /\
    requests w' = requests w /\
    lines (log w') = lines (log w) /\
    (r = true -> log w' = log w).
Proof.
  induction left as [| left IH]; intros attempt w; cbn zeta.
  - cbn. repeat split.
  - cbn [decompress_attempts].
    destruct (decompress_attempt_effects (env attempt) bz2_file out_file
                retries attempt w) as [Hf [Hr [Hl Hc]]].
    cbn zeta in *.
    destruct (decompress_attempt (env attempt) bz2_file out_file retries
                attempt w) as [r w1 | w1].
    + cbn [fst snd]. repeat split; try assumption.
      intros ->. apply Hc. now left.
    + destruct (IH (attempt + 1) w1) as [Hf' [Hr' [Hl' Hc']]].
      cbn zeta in *. split; [| split; [| split]].
      * intros q Hq. rewrite (Hf' q Hq). exact (Hf q Hq).
      * congruence.
      * congruence.
      * intros Ht. rewrite (Hc' Ht). apply Hc. now right.
Qed.

(** X23 (main.cpp 481-538, decompress_bz2_to_file).  Whatever the
    environment answers, a call changes no file other than the
    destination, which is the destination path as the operating system
    reads it, up to a first NUL char (the archive in particular is left as
    it is when it is another path), runs no transfer and pushes no
    progress line; when it returns true it has logged nothing at all. *)
Theorem decompress_bz2_to_file_effects (env : Z -> BzAttempt)
    (bz2_file out_file : str) (retries : Z) (w : World) :
  let r := fst (decompress_bz2_to_file env bz2_file out_file retries w) in
  let w' := snd (decompress_bz2_to_file env bz2_file out_file retries w) in
  (forall q, q <> c_str out_file -> files w' q = files w q) /\
  requests w' = requests w /\
  lines (log w') = lines (log w) /\
  (r = true -> log w' = log w).
Proof.
  cbn zeta. unfold decompress_bz2_to_file.
  apply decompress_attempts_effects.
Qed.



(** ** Where a pipeline run writes *)

Lemma fold_files_frame {A : Type} (work : A -> Run -> Run)
    (touch : A -> str -> Prop) (q : str) :
  (forall x st, ~ touch x q ->
     files (world (work x st)) q = files (world st) q) ->
  forall (items : list A) (st : Run),
    (forall x, In x items -> ~ touch x q) ->
    files (world (fold_left (fun st x => work x st) items st)) q
    = files (world st) q.
Proof.
  intros Hwork. induction items as [| x items IH]; intros st Hq;
    [reflexivity |].
  cbn [fold_left]. rewrite IH by (intros y Hy; apply Hq; now right).
  apply Hwork, Hq. now left.
Qed.

Lemma worker_download_frame (env : PipelineEnv) (s : Settings)
    (dl_dir : str) (m : AvailabilityMap) (name q : str) (st : Run) :
  ~ (q = c_str (path_append dl_dir name)
     \/ q = c_str (path_append dl_dir name ++ lit ".part")) ->
  files (world (worker_download env s dl_dir m name st)) q
  = files (world st) q.
Proof.
  intros Hq. unfold worker_download. cbn zeta.
  destruct (pick_best_source (run_sources st) (map_at m name)) as [best |];
    [| reflexivity].
  unfold download_file.
  destruct (Z.ltb_spec (retries s) 0) as [Hneg | Hpos].
  { replace (Z.to_nat (retries s)) with O by lia. reflexivity. }
  pose proof (download_attempts_effects (download_env env name)
                (url_join (url (deref (run_sources st) best)) name)
                (path_append dl_dir name) (retries s)
                (Z.to_nat (retries s)) 1 (world st) ltac:(lia)) as [Hf _].
  cbn zeta in Hf.
  destruct (download_attempts _ _ _ _ _ _ _) as [r w1].
  cbn [snd] in Hf. cbn [with_rs with_world world files].
  apply Hf; intros ->; apply Hq; auto.
Qed.

(** Paths of the download directory as the operating system is handed
    them. *)
Lemma c_str_app (a b : str) :
  no_char nul a -> c_str (a ++ b) = a ++ c_str b.
Proof.
  induction a as [| c a IH]; intros H; cbn [app c_str]; [reflexivity |].
  rewrite (H c (or_introl eq_refl)). f_equal. apply IH.
  intros d Hd. apply H. now right.
Qed.

Lemma c_str_app_cases (x y : str) :
  c_str (x ++ y) = c_str x \/ no_char nul x.
Proof.
  induction x as [| c x IH]; [right; intros d [] |].
  cbn [app c_str]. destruct (is_char c nul) eqn:C; [now left |].
  destruct IH as [IH | IH]; [left; now rewrite IH | right].
  intros d [<- | Hd]; [exact C | exact (IH d Hd)].
Qed.

Lemma c_str_incl (x : str) (d : ascii) : In d (c_str x) -> In d x.
Proof.
  induction x as [| c x IH]; cbn [c_str]; [auto |].
  destruct (is_char c nul); [intros [] |].
  intros [<- | H]; [now left | right; auto].
Qed.

Lemma path_append_bare (a b : str) :
  no_char slash b ->
  path_append a b
  = (if (empty a || back_is a slash)%bool then a else a ++ [slash]) ++ b.
Proof.
  intros H. unfold path_append.
  assert (F : front_is b slash = false).
  { destruct b as [| c b]; [reflexivity |]. cbn [front_is].
    apply H. now left. }
  rewrite F. destruct (empty a || back_is a slash)%bool; [reflexivity |].
  now rewrite <- app_assoc.
Qed.

Lemma path_append_no_nul (a b : str) :
  no_char nul a -> no_char nul b -> no_char nul (path_append a b).
Proof.
  intros Ha Hb. unfold path_append.
  destruct (front_is b slash); [exact Hb |].
  destruct (empty a || back_is a slash)%bool; intros d Hd;
    apply in_app_or in Hd as [Hd | Hd]; auto.
  destruct Hd as [<- | Hd]; [reflexivity | auto].
Qed.

Lemma c_str_download_paths (dl_dir name : str) :
  no_char nul dl_dir -> no_char slash name ->
  no_char slash (c_str name) /\
  c_str (path_append dl_dir name) = path_append dl_dir (c_str name) /\
  (c_str (path_append dl_dir name ++ lit ".part")
   = path_append dl_dir (c_str name)
   \/ c_str (path_append dl_dir name ++ lit ".part")
      = path_append dl_dir name ++ lit ".part").
Proof.
  intros Hd Hn.
  assert (Hc : no_char slash (c_str name))
    by (intros d Hin; apply Hn; now apply c_str_incl).
  split; [exact Hc |].
  rewrite !path_append_bare by assumption.
  set (pre := if (empty dl_dir || back_is dl_dir slash)%bool
              then dl_dir else dl_dir ++ [slash]).
  assert (Hpre : no_char nul pre).
  { unfold pre. destruct (empty dl_dir || back_is dl_dir slash)%bool;
      [exact Hd |].
    intros d Hin. apply in_app_or in Hin as [Hin | [<- | []]];
      [exact (Hd d Hin) | reflexivity]. }
  split; [now apply c_str_app |].
  rewrite <- app_assoc, (c_str_app pre _ Hpre).
  destruct (c_str_app_cases name (lit ".part")) as [E | E].
  - left. now rewrite E.
  - right. rewrite (c_str_app name _ E).
    change (c_str (lit ".part")) with (lit ".part").
    reflexivity.
Qed.

Lemma worker_decompress_frame (env : PipelineEnv) (s : Settings)
    (bz2 q : str) (st : Run) :
  ~ (q = c_str (remove_extension bz2)) ->
  files (world (worker_decompress env s bz2 st)) q = files (world st) q.
Proof.
  intros Hq. unfold worker_decompress, decompress_bz2_to_file. cbn zeta.
  pose proof (decompress_attempts_effects (decompress_env env bz2) bz2
                (remove_extension bz2) (retries s) (Z.to_nat (retries s)) 1
                (world st)) as [Hf _].
  cbn zeta in Hf.
  destruct (decompress_attempts _ _ _ _ _ _ _) as [r w1].
  cbn [snd] in Hf. cbn [with_rs with_world world files].
  now apply Hf.
Qed.

Lemma delete_loop_frame (env : PipelineEnv) (bz2s : list str) (q : str) :
  (forall b, In b bz2s -> q <> c_str b) ->
  forall (i : nat) (st : Run),
    files (world (delete_loop env i bz2s st)) q = files (world st) q.
Proof.
  induction bz2s as [| b bz2s IH]; intros Hq i st; cbn [delete_loop];
    [reflexivity |].
  destruct (delete_cancel env i); [reflexivity |].
  rewrite IH by (intros x H; apply Hq; now right).
  destruct (remove_error env b); cbn; [reflexivity |].
  unfold fs_remove. rewrite str_eqb_neq; [reflexivity |].
  apply Hq. now left.
Qed.

Lemma index_phase_world (env : PipelineEnv) (enabled0 : list ptr)
    (st : Run) :
  files (world (fst (index_phase env enabled0 st))) = files (world st) /\
  requests (world (fst (index_phase env enabled0 st)))
  = requests (world st).
Proof.
  unfold index_phase. cbn zeta.
  pose proof (bounded_for_each_keeps
                (fun a : Run * list SourceIndex =>
                   (files (world (fst a)), requests (world (fst a))))
                (index_cancel env) (index_order env) (worker_index env)
                (fun x a =>
                   f_equal2 pair
                     (proj1 (worker_index_world env x a))
                     (proj1 (proj2 (worker_index_world env x a))))
                enabled0
                (run_push
                   (with_rs (set_indexing
                               (mkPhase true 0
                                  (Z.of_nat (List.length enabled0)))) st)
                   (lit "[i] Indexing sources..."), [])) as Hk.
  destruct (bounded_for_each _ _ _ _ _) as [st1 indexed].
  cbn in Hk. injection Hk as Hf Hr. cbn. split; assumption.
Qed.

Lemma availability_keys_bare (sources : list SourceEntry)
    (indexed : list SourceIndex) (name : str) :
  In name (map fst (build_availability sources indexed)) ->
  no_char slash name.
Proof.
  intros Hin. apply in_map_iff in Hin as [[k srcs] [E Hin]]. cbn in E.
  subst k.
  destruct (build_availability_from_shape sources indexed [])
    as [Hinc Hne]; [split; [exact I | constructor] |].
  fold (build_availability sources indexed) in Hinc, Hne.
  assert (Hat : map_at (build_availability sources indexed) name = srcs).
  { unfold map_at. now rewrite (map_find_in _ _ _ Hinc Hin). }
  rewrite Forall_forall in Hne. specialize (Hne _ Hin). cbn in Hne.
  destruct srcs as [| p srcs]; [contradiction |].
  assert (Hmem : In p (members sources indexed name)).
  { rewrite <- map_at_build, Hat. now left. }
  destruct (members_contribute _ _ _ _ Hmem) as [si [_ [_ [_ Hoff]]]].
  unfold offers in Hoff. apply existsb_exists in Hoff as [u [_ Hu]].
  unfold has_name in Hu. apply str_eqb_eq in Hu. subst name.
  apply filename_no_slash.
Qed.

Lemma after_download_frame (env : PipelineEnv) (s : Settings) (q : str)
    (st : Run) :
  (forall l x, In x (decompress_order env l) -> In x l) ->
  (decompress s = true ->
   forall b, In b (listed_bz2 env) ->
     q <> c_str b /\ q <> c_str (remove_extension b)) ->
  files (world (after_download env s st)) q = files (world st) q.
Proof.
  intros Hord Hq. unfold after_download.
  destruct (cancel_after_download env); [reflexivity |].
  cbn [run_push with_world world files push set_log].
  destruct (decompress s); [| reflexivity].
  specialize (Hq eq_refl).
  set (bz2s := filter (fun p => str_eqb (lower_copy (extension p))
                                  (lit ".bz2")) (listed_bz2 env)).
  assert (Hsub : forall b, In b bz2s -> In b (listed_bz2 env)).
  { intros b Hb. unfold bz2s in Hb. now apply filter_In in Hb. }
  assert (Hz : files (world (decompress_phase env s bz2s st)) q
               = files (world st) q).
  { unfold decompress_phase, bounded_for_each. cbn zeta.
    cbn [with_rs world].
    rewrite (fold_files_frame (worker_decompress env s)
               (fun b q0 => q0 = c_str (remove_extension b)) q).
    - reflexivity.
    - intros x st0 Hx. now apply worker_decompress_frame.
    - intros x Hx. apply Hord, admitted_incl, Hsub in Hx.
      exact (proj2 (Hq x Hx)). }
  destruct (delete_bz2 s && negb (cancel_before_delete env))%bool;
    [| exact Hz].
  unfold delete_phase. cbn zeta. cbn [with_rs world].
  rewrite delete_loop_frame.
  - exact Hz.
  - intros b Hin. apply Hsub in Hin. exact (proj1 (Hq b Hin)).
Qed.

(** X25 (main.cpp 694-911, run_pipeline on the files).  For a game
    path without a NUL char, when the work items that run are among those
    launched, a pipeline run leaves every file as it was except, in the
    download directory, the files named by a bare filename and their
    .part companions and, when decompression is on, the archives listed
    there and the files they decompress to, each listed path taken as the
    operating system reads it. *)
Theorem run_pipeline_writes (env : PipelineEnv) (s : Settings) (st : Run)
    (q : str) :
  no_char nul (hl2mp_path s) ->
  (forall l x, In x (download_order env l) -> In x l) ->
  (forall l x, In x (decompress_order env l) -> In x l) ->
  (forall name, no_char slash name ->
     let out := path_append
                  (path_append (path_append (hl2mp_path s) (lit "download"))
                     (lit "maps")) name in
     q <> out /\ q <> out ++ lit ".part") ->
  (decompress s = true ->
   forall b, In b (listed_bz2 env) ->
     q <> c_str b /\ q <> c_str (remove_extension b)) ->
  files (world (run_pipeline env s st)) q = files (world st) q.
Proof.
  intros Hnul Hdl Hbz Hout Hlisted. unfold run_pipeline. cbn zeta.
  destruct (empty (hl2mp_path s) || negb (path_exists env))%bool;
    [reflexivity |].
  destruct (mkdir_error env); [reflexivity |].
  destruct (is_nil _); [reflexivity |].
  pose proof (index_phase_world env
                (enabled_ptrs
                   (run_sources (scan_existing_maps (scanned env)
                                   (with_rs reset_phases st))))
                (scan_existing_maps (scanned env)
                   (with_rs reset_phases st))) as [Hidx _].
  destruct (index_phase env _ _) as [st1 indexed]. cbn [fst] in Hidx.
  rewrite after_download_frame by assumption.
  unfold download_phase, bounded_for_each. cbn zeta. cbn [with_rs world].
  set (dl_dir := path_append
                   (path_append (hl2mp_path s) (lit "download"))
                   (lit "maps")) in *.
  assert (Hdir : no_char nul dl_dir).
  { assert (L : forall t, no_char nul (lit t) -> no_char nul (lit t))
      by auto.
    unfold dl_dir. apply path_append_no_nul; [apply path_append_no_nul |];
      try exact Hnul; intros d Hd; unfold lit in Hd;
      cbn [list_ascii_of_string In] in Hd;
      repeat (destruct Hd as [<- | Hd]; [reflexivity |]); destruct Hd. }
  rewrite (fold_files_frame
             (worker_download env s _ _)
             (fun name q0 =>
                q0 = c_str (path_append dl_dir name)
                \/ q0 = c_str (path_append dl_dir name ++ lit ".part")) q).
  - cbn. now rewrite Hidx.
  - intros x st0 Hx. now apply worker_download_frame.
  - intros x Hx. apply Hdl, admitted_incl in Hx.
    destruct (reconcile_from_filters
                (split_csv_terms (include_filters s))
                (split_csv_terms (exclude_filters s))
                (existing_files (rs st1))
                (build_availability (run_sources st1) indexed)
                (mkReconciliation 0 0 0 [])) as [Hget _].
    fold (reconcile (split_csv_terms (include_filters s))
            (split_csv_terms (exclude_filters s))
            (existing_files (rs st1))
            (build_availability (run_sources st1) indexed)) in Hget.
    cbn [to_get app] in Hget.
    cbn [rs run_push with_world store_counts with_rs set_counts
         existing_files run_sources] in Hx.
    rewrite Hget in Hx. apply filter_In in Hx as [Hx _].
    apply availability_keys_bare in Hx.
    destruct (c_str_download_paths dl_dir x Hdir Hx) as [Hc [E1 E2]].
    destruct (Hout (c_str x) Hc) as [H1 H2].
    destruct (Hout x Hx) as [_ H3]. cbn zeta in H1, H2, H3.
    fold dl_dir in H1, H2, H3.
    rewrite E1. intros [E | E]; [contradiction |].
    destruct E2 as [E2 | E2]; rewrite E2 in E; contradiction.
Qed.

Lemma run_pipeline_writes_witness :
  no_char nul (hl2mp_path sample_settings) /\
  files (world (run_pipeline sample_env sample_settings sample_run))
    (lit "hl2mp/maps/dm_runoff.bsp.bz2")
  = Some (lit "BZh9").
Proof.
  assert (Hn : no_char nul (hl2mp_path sample_settings)).
  { intros d Hd. cbn in Hd.
    repeat (destruct Hd as [<- | Hd]; [reflexivity |]). destruct Hd. }
  split; [exact Hn |].
  rewrite (run_pipeline_writes sample_env sample_settings sample_run
             (lit "hl2mp/maps/dm_runoff.bsp.bz2")).
  - reflexivity.
  - exact Hn.
  - intros l x H. exact H.
  - intros l x H. exact H.
  - intros name _. cbn zeta.
    assert (Hd : path_append
                   (path_append (hl2mp_path sample_settings) (lit "download"))
                   (lit "maps") = lit "hl2mp/download/maps")
      by reflexivity.
    rewrite Hd. unfold path_append.
    change (empty (lit "hl2mp/download/maps")
            || back_is (lit "hl2mp/download/maps") slash)%bool with false.
    cbn iota. unfold lit. cbn [list_ascii_of_string app].
    destruct name as [| c name]; cbn [front_is].
    + split; discriminate.
    + destruct (is_char c slash) eqn:C.
      * apply is_char_eq in C. subst c. split; discriminate.
      * split; discriminate.
  - intros _ b [<- | []]. split; discriminate.
Defined.

(** Why the game path is taken without NUL: the operating system reads a
    path up to its first NUL, so a run with the game path [hl2mp\0x]
    writes the file [hl2mp], which is none of the paths of the download
    directory as the program spells them. *)
Lemma run_pipeline_nul_path :
  let s := mkSettings (lit "hl2mp" ++ nul :: lit "x") 4 true true
             8000 5000 30000 3 [] [] in
  let q := lit "hl2mp" in
  (forall name, no_char slash name ->
     let out := path_append
                  (path_append (path_append (hl2mp_path s) (lit "download"))
                     (lit "maps")) name in
     q <> out /\ q <> out ++ lit ".part") /\
  (forall b, In b (listed_bz2 sample_env) ->
     q <> c_str b /\ q <> c_str (remove_extension b)) /\
  files (world sample_run) q = None /\
  files (world (run_pipeline sample_env s sample_run)) q
  = Some (lit "BZh9").
Proof.
  cbn zeta. split; [| split; [| split]].
  - intros name Hn. rewrite path_append_bare by exact Hn.
    cbn [hl2mp_path].
    assert (Hd : path_append
                   (path_append (lit "hl2mp" ++ nul :: lit "x")
                      (lit "download")) (lit "maps")
                 = lit "hl2mp" ++ nul :: lit "x/download/maps")
      by reflexivity.
    rewrite Hd.
    change (empty (lit "hl2mp" ++ nul :: lit "x/download/maps")
            || back_is (lit "hl2mp" ++ nul :: lit "x/download/maps") slash)%bool
      with false.
    cbn iota.
    split; intros E; apply (f_equal (@List.length ascii)) in E;
      rewrite !length_app in E; cbn in E; lia.
  - intros b [<- | []]. split; discriminate.
  - reflexivity.
  - vm_compute. reflexivity.
Qed.

(** ** Phase progress *)











(** ** Bounded task runner: no item lost *)







(** ** The Sources tab *)

Lemma clamp_range (v lo hi : Z) : lo <= hi -> lo <= clamp v lo hi <= hi.
Proof.
  intros H. unfold clamp.
  destruct (Z.ltb_spec v lo); [lia |]. destruct (Z.ltb_spec hi v); lia.
Qed.

Lemma is_nil_length {A : Type} (l : list A) :
  is_nil l = false -> (1 <= List.length l)%nat.
Proof. destruct l; [discriminate | cbn; lia]. Qed.

Lemma normalize_maps_url_slash (t : str) :
  normalize_maps_url t <> [] -> back_is (normalize_maps_url t) slash = true.
Proof.
  unfold normalize_maps_url. destruct (trim t) as [| c u] eqn:T;
    cbn [empty]; [congruence |].
  destruct (back_is (c :: u) slash) eqn:B; cbn [negb]; intros _;
    [exact B |].
  rewrite back_is_app. now apply is_char_eq.
Qed.

Lemma enable_first_urls (u : str) (l : list SourceEntry) :
  map url (enable_first u l) = map url l.
Proof.
  induction l as [| e l IH]; cbn [enable_first map]; [reflexivity |].
  destruct (str_eqb (url e) u); cbn [map url]; [reflexivity |].
  now rewrite IH.
Qed.

Lemma update_source_urls (i : nat) (f : SourceEntry -> SourceEntry)
    (l : list SourceEntry) :
  (forall e, url (f e) = url e) ->
  map url (update_source i f l) = map url l.
Proof.
  intros Hf. revert i. induction l as [| e l IH]; intros [| i];
    cbn [update_source map]; try reflexivity.
  - now rewrite Hf.
  - now rewrite IH.
Qed.

Lemma has_url_false (u : str) (l : list SourceEntry) :
  has_url u l = false -> ~ In u (map url l).
Proof.
  intros H Hin. apply in_map_iff in Hin as [e [E He]].
  assert (has_url u l = true); [| congruence].
  unfold has_url. apply existsb_exists. exists e. split; [exact He |].
  rewrite E. apply str_eqb_refl.
Qed.

Lemma urls_ok_of_map (l l' : list SourceEntry) :
  map url l' = map url l ->
  Forall (fun e => url e <> [] /\ back_is (url e) slash = true) l ->
  Forall (fun e => url e <> [] /\ back_is (url e) slash = true) l'.
Proof.
  intros E H.
  assert (G : forall us, Forall (fun u => u <> [] /\ back_is u slash = true) us
              -> forall k, map url k = us ->
              Forall (fun e => url e <> [] /\ back_is (url e) slash = true) k).
  { induction 1 as [| u us Hu _ IH]; intros [| e k] Ek; try discriminate;
      constructor.
    - cbn in Ek. injection Ek as -> _. exact Hu.
    - cbn in Ek. injection Ek as _ Ek. now apply IH. }
  apply (G (map url l)); [| exact E].
  clear -H. induction H; cbn; constructor; auto.
Qed.

Lemma in_firstn {A : Type} (n : nat) (l : list A) (x : A) :
  In x (firstn n l) -> In x l.
Proof.
  intros H. rewrite <- (firstn_skipn n l). apply in_or_app. now left.
Qed.

Lemma in_skipn {A : Type} (n : nat) (l : list A) (x : A) :
  In x (skipn n l) -> In x l.
Proof.
  intros H. rewrite <- (firstn_skipn n l). apply in_or_app. now right.
Qed.

Lemma erase_at_sub (i : nat) (l : list SourceEntry) :
  (forall e, In e (erase_at i l) -> In e l) /\
  map url (erase_at i l)
  = firstn i (map url l) ++ skipn (S i) (map url l).
Proof.
  unfold erase_at. split.
  - intros e H. apply in_app_or in H as [H | H];
      [now apply in_firstn in H | now apply in_skipn in H].
  - now rewrite map_app, firstn_map, skipn_map.
Qed.

Lemma NoDup_erase {A : Type} (i : nat) (l : list A) :
  NoDup l -> NoDup (firstn i l ++ skipn (S i) l).
Proof.
  revert i. induction l as [| a l IH]; intros i H.
  - destruct i; cbn; constructor.
  - inversion H as [| x k Hnotin Hk]; subst. destruct i as [| i].
    + cbn. exact Hk.
    + change (firstn (S i) (a :: l) ++ skipn (S (S i)) (a :: l))
        with (a :: (firstn i l ++ skipn (S i) l)).
      constructor; [| now apply IH].
      intros Hin. apply Hnotin. apply in_app_or in Hin as [Hin | Hin];
        [now apply in_firstn in Hin | now apply in_skipn in Hin].
Qed.

Lemma NoDup_map_filter {A B : Type} (g : A -> B) (f : A -> bool)
    (l : list A) :
  NoDup (map g l) -> NoDup (map g (filter f l)).
Proof.
  induction l as [| a l IH]; cbn [map filter]; [auto |].
  intros H. inversion H as [| x k Hnotin Hk]; subst.
  destruct (f a); [| now apply IH].
  cbn [map]. constructor; [| now apply IH].
  intros Hin. apply Hnotin. apply in_map_iff in Hin as [b [E Hb]].
  apply filter_In in Hb as [Hb _]. apply in_map_iff. now exists b.
Qed.

Lemma filter_same_length {A : Type} (f : A -> bool) (l : list A) :
  List.length (filter f l) = List.length l -> filter f l = l.
Proof.
  induction l as [| a l IH]; cbn [filter List.length]; [reflexivity |].
  pose proof (filter_length_le f l) as Hle.
  destruct (f a); cbn [List.length]; intros H.
  - f_equal. apply IH. lia.
  - lia.
Qed.

(** The list of sources, the selection and the last save after each
    handler. *)
Lemma add_btn_fields (throws : bool) (ui : SourcesUI) :
  let u := normalize_maps_url (add_url ui) in
  let l' := if has_url u (ui_sources ui)
            then enable_first u (ui_sources ui)
            else ui_sources ui ++ [mkSource u true (-1) false] in
  if empty u then add_btn throws ui = ui
  else ui_sources (add_btn throws ui) = l' /\
       saved (add_btn throws ui) = l' /\
       selected (add_btn throws ui)
       = clamp (selected ui) 0 (Z.of_nat (List.length l') - 1) /\
       add_url (add_btn throws ui) = [] /\
       l' <> [].
Proof.
  cbn zeta. unfold add_btn.
  destruct (empty (normalize_maps_url (add_url ui))) eqn:E; [reflexivity |].
  destruct (has_url (normalize_maps_url (add_url ui)) (ui_sources ui))
    eqn:H; cbn [negb].
  - assert (Hne : enable_first (normalize_maps_url (add_url ui))
                    (ui_sources ui) <> []).
    { unfold has_url in H. destruct (ui_sources ui) as [| e l];
        [discriminate |].
      cbn [enable_first]. destruct (str_eqb _ _); discriminate. }
    cbn [save_sources ui_push set_sources set_add_url ui_sources selected
         scroll add_url ui_log saved].
    destruct (enable_first _ _) as [| e l]; [contradiction |].
    cbn [is_nil negb]. unfold size.
    cbn [set_selected ui_sources selected saved add_url].
    repeat split. discriminate.
  - cbn [save_sources ui_push set_sources set_add_url ui_sources selected
         scroll add_url ui_log saved].
    destruct (ui_sources ui ++ _) as [| e l] eqn:A.
    { now destruct (ui_sources ui). }
    cbn [is_nil negb]. unfold size.
    cbn [set_selected ui_sources selected saved add_url].
    repeat split. discriminate.
Qed.

Lemma reclamp_fields (ui : SourcesUI) :
  ui_sources (reclamp ui) = ui_sources ui /\
  saved (reclamp ui) = saved ui /\
  0 <= selected (reclamp ui) <= Z.max 0 (size ui - 1).
Proof.
  unfold reclamp. destruct (is_nil (ui_sources ui)) eqn:N.
  - cbn. repeat split; lia.
  - cbn [set_selected ui_sources saved selected]. repeat split.
    + apply clamp_range. apply is_nil_length in N. unfold size. lia.
    + pose proof (clamp_range (selected ui) 0 (size ui - 1)) as H.
      apply is_nil_length in N. unfold size in *. lia.
Qed.

Lemma delete_selected_fields (throws : bool) (ui : SourcesUI) :
  if is_nil (ui_sources ui) then delete_selected throws ui = ui
  else
    let i := Z.to_nat (clamp (selected ui) 0 (size ui - 1)) in
    ui_sources (delete_selected throws ui) = erase_at i (ui_sources ui) /\
    saved (delete_selected throws ui) = erase_at i (ui_sources ui) /\
    0 <= selected (delete_selected throws ui)
      <= Z.max 0 (Z.of_nat (List.length (erase_at i (ui_sources ui))) - 1) /\
    (i < List.length (ui_sources ui))%nat.
Proof.
  unfold delete_selected. destruct (is_nil (ui_sources ui)) eqn:N;
    [reflexivity |].
  cbn zeta.
  match goal with
  | |- context [reclamp ?x] =>
      destruct (reclamp_fields x) as [H1 [H2 H3]]; set (y := x) in *
  end.
  cbn [save_sources ui_sources saved selected].
  rewrite H1. unfold y at 1 2.
  cbn [set_sources ui_push set_selected ui_sources selected].
  split; [reflexivity |]. split; [reflexivity |]. split.
  - unfold size, y in H3.
    cbn [set_sources ui_push set_selected ui_sources selected] in H3.
    exact H3.
  - pose proof (clamp_range (selected ui) 0 (size ui - 1)) as H.
    apply is_nil_length in N. unfold size in *. lia.
Qed.

Lemma toggle_selected_fields (throws : bool) (ui : SourcesUI) :
  if is_nil (ui_sources ui) then toggle_selected throws ui = ui
  else
    map url (ui_sources (toggle_selected throws ui))
    = map url (ui_sources ui) /\
    saved (toggle_selected throws ui)
    = ui_sources (toggle_selected throws ui) /\
    selected (toggle_selected throws ui)
    = clamp (selected ui) 0 (size ui - 1).
Proof.
  unfold toggle_selected. destruct (is_nil (ui_sources ui)) eqn:N;
    [reflexivity |].
  cbn zeta.
  cbn [save_sources set_sources set_selected ui_sources saved selected].
  split; [| split; reflexivity].
  now apply update_source_urls.
Qed.

Lemma size_of_urls (ui ui' : SourcesUI) :
  map url (ui_sources ui') = map url (ui_sources ui) -> size ui' = size ui.
Proof.
  intros H. unfold size. apply (f_equal (@List.length str)) in H.
  rewrite !length_map in H. now rewrite H.
Qed.

Lemma render_list_fields (ui : SourcesUI) :
  if is_nil (ui_sources ui) then render_list ui = ui
  else
    ui_sources (render_list ui) = ui_sources ui /\
    saved (render_list ui) = saved ui /\
    selected (render_list ui) = clamp (selected ui) 0 (size ui - 1) /\
    0 <= selected (render_list ui) <= size ui - 1 /\
    0 <= scroll (render_list ui) <= Z.max 0 (size ui - list_height) /\
    scroll (render_list ui) <= selected (render_list ui)
      < scroll (render_list ui) + list_height.
Proof.
  unfold render_list. destruct (is_nil (ui_sources ui)) eqn:N; cbn [negb];
    [reflexivity |].
  cbn zeta.
  pose proof (clamp_range (selected ui) 0 (size ui - 1)) as Hsel.
  apply is_nil_length in N.
  assert (Hn : 1 <= size ui) by (unfold size; lia).
  specialize (Hsel ltac:(lia)).
  set (ui1 := set_selected (clamp (selected ui) 0 (size ui - 1)) ui).
  assert (S1 : size ui1 = size ui) by reflexivity.
  pose proof (clamp_range (scroll ui1) 0 (Z.max 0 (size ui1 - list_height))
                ltac:(lia)) as Hscr.
  set (ui2 := set_scroll (clamp (scroll ui1) 0
                            (Z.max 0 (size ui1 - list_height))) ui1).
  assert (E2 : selected ui2 = clamp (selected ui) 0 (size ui - 1))
    by reflexivity.
  assert (C2 : scroll ui2
               = clamp (scroll ui1) 0 (Z.max 0 (size ui1 - list_height)))
    by reflexivity.
  assert (K2 : ui_sources ui2 = ui_sources ui /\ saved ui2 = saved ui)
    by (split; reflexivity).
  rewrite <- C2 in Hscr. rewrite S1 in Hscr. rewrite <- E2 in *.
  clearbody ui2. clear ui1 S1 C2.
  set (ui3 := if selected ui2 <? scroll ui2
              then set_scroll (selected ui2) ui2 else ui2).
  assert (F3 : selected ui3 = selected ui2 /\
               ui_sources ui3 = ui_sources ui /\ saved ui3 = saved ui /\
               0 <= scroll ui3 <= Z.max 0 (size ui - list_height) /\
               scroll ui3 <= selected ui3).
  { unfold ui3. destruct (Z.ltb_spec (selected ui2) (scroll ui2));
      cbn [set_scroll selected scroll ui_sources saved];
      destruct K2; repeat split; try assumption; lia. }
  clearbody ui3. destruct F3 as (F1 & F2 & F3 & F4 & F5).
  unfold list_height in *.
  destruct (Z.leb_spec (scroll ui3 + 18) (selected ui3));
    cbn [set_scroll selected scroll ui_sources saved];
    repeat split; try assumption; try congruence; lia.
Qed.

Lemma ui_step_ok (ui : SourcesUI) (e : UiEvent) :
  ui_ok ui ->
  ui_ok (ui_step ui e) /\
  (NoDup (map url (ui_sources ui)) ->
   NoDup (map url (ui_sources (ui_step ui e)))).
Proof.
  intros (Hsel & Hurls & Hsaved).
  destruct e as [text | throws | throws | throws | throws | | | row on_del
                 throws |]; cbn [ui_step].
  - (* typing *)
    split; [| auto]. split; [exact Hsel |]. split; assumption.
  - (* Add *)
    pose proof (add_btn_fields throws ui) as H. cbn zeta in H.
    destruct (empty (normalize_maps_url (add_url ui))) eqn:E.
    { rewrite H. split; [| auto]. split; [exact Hsel |]. split; assumption. }
    destruct H as (Hs & Hv & Hc & _ & Hne).
    assert (Hu : normalize_maps_url (add_url ui) <> [])
      by (intros Z0; rewrite Z0 in E; discriminate).
    split.
    + split; [| split].
      * rewrite Hc. unfold size. rewrite Hs.
        match goal with
        | |- context [List.length ?l] =>
            assert (1 <= List.length l)%nat
              by (destruct l; [contradiction | cbn; lia]);
            pose proof (clamp_range (selected ui) 0
                          (Z.of_nat (List.length l) - 1))
        end. lia.
      * rewrite Hs.
        destruct (has_url _ _).
        -- apply (urls_ok_of_map (ui_sources ui));
             [apply enable_first_urls | exact Hurls].
        -- apply Forall_app. split; [exact Hurls |].
           constructor; [| constructor]. cbn [url].
           split; [exact Hu | now apply normalize_maps_url_slash].
      * congruence.
    + intros Hnd. rewrite Hs. destruct (has_url _ _) eqn:Hh.
      * now rewrite enable_first_urls.
      * rewrite map_app. cbn [map url].
        apply NoDup_app; [exact Hnd | constructor; [intros [] | constructor] |].
        intros a Ha [<- | []]. now apply (has_url_false _ _ Hh).
  - (* Delete Selected *)
    pose proof (delete_selected_fields throws ui) as H.
    destruct (is_nil (ui_sources ui)) eqn:N.
    { rewrite H. split; [| auto]. split; [exact Hsel |]. split; assumption. }
    cbn zeta in H. destruct H as (Hs & Hv & Hc & Hi).
    destruct (erase_at_sub (Z.to_nat (clamp (selected ui) 0 (size ui - 1)))
                (ui_sources ui)) as [Hsub Hmap].
    split.
    + split; [| split].
      * unfold size. rewrite Hs. exact Hc.
      * rewrite Hs. rewrite Forall_forall in *. intros x Hx.
        apply Hurls, Hsub, Hx.
      * congruence.
    + intros Hnd. rewrite Hs, Hmap. now apply NoDup_erase.
  - (* Delete Disabled *)
    unfold del_disabled_btn. cbn zeta.
    cbn [set_sources ui_sources].
    match goal with
    | |- context [reclamp ?x] =>
        destruct (reclamp_fields x) as [H1 [H2 H3]]; set (y := x) in *
    end.
    assert (Hy : ui_sources y = filter enabled (ui_sources ui) /\
                 saved y = filter enabled (ui_sources ui)).
    { unfold y. destruct (Nat.eqb _ _) eqn:Q; cbn [negb].
      - cbn [set_sources ui_sources saved]. split; [reflexivity |].
        apply Nat.eqb_eq, filter_same_length in Q. congruence.
      - cbn [save_sources ui_push set_sources ui_sources saved].
        split; reflexivity. }
    destruct Hy as [Hy1 Hy2].
    split.
    + split; [| split].
      * unfold size in *. rewrite H1. exact H3.
      * rewrite H1, Hy1. rewrite Forall_forall in *. intros x Hx.
        apply filter_In in Hx as [Hx _]. now apply Hurls.
      * congruence.
    + intros Hnd. rewrite H1, Hy1. now apply NoDup_map_filter.
  - (* toggle *)
    pose proof (toggle_selected_fields throws ui) as H.
    destruct (is_nil (ui_sources ui)) eqn:N.
    { rewrite H. split; [| auto]. split; [exact Hsel |]. split; assumption. }
    destruct H as (Hs & Hv & Hc).
    split.
    + split; [| split].
      * rewrite Hc, (size_of_urls _ _ Hs).
        pose proof (clamp_range (selected ui) 0 (size ui - 1)) as H.
        apply is_nil_length in N. unfold size in *. lia.
      * now apply (urls_ok_of_map (ui_sources ui)).
      * exact Hv.
    + intros Hnd. now rewrite Hs.
  - (* up *)
    unfold select_up. destruct (is_nil (ui_sources ui)) eqn:N; cbn [negb].
    + split; [| auto]. split; [exact Hsel |]. split; assumption.
    + split; [| auto]. split; [| split; assumption].
      unfold size in *. cbn [set_selected selected ui_sources]. lia.
  - (* down *)
    unfold select_down. destruct (is_nil (ui_sources ui)) eqn:N; cbn [negb].
    + split; [| auto]. split; [exact Hsel |]. split; assumption.
    + split; [| auto]. split; [| split; assumption].
      apply is_nil_length in N.
      unfold size in *. cbn [set_selected selected ui_sources]. lia.
  - (* click *)
    unfold click_row. destruct (is_nil (ui_sources ui)) eqn:N; cbn [negb].
    { split; [| auto]. split; [exact Hsel |]. split; assumption. }
    cbn zeta.
    destruct ((0 <=? scroll ui + row) && (scroll ui + row <? size ui))%bool
      eqn:In.
    2:{ split; [| auto]. split; [exact Hsel |]. split; assumption. }
    set (ui1 := set_selected (scroll ui + row) ui).
    assert (N1 : is_nil (ui_sources ui1) = false) by exact N.
    destruct on_del.
    + pose proof (delete_selected_fields throws ui1) as H.
      rewrite N1 in H. cbn zeta in H. destruct H as (Hs & Hv & Hc & Hi).
      destruct (erase_at_sub
                  (Z.to_nat (clamp (selected ui1) 0 (size ui1 - 1)))
                  (ui_sources ui1)) as [Hsub Hmap].
      split.
      * split; [| split].
        -- unfold size. rewrite Hs. exact Hc.
        -- rewrite Hs. rewrite Forall_forall in *. intros x Hx.
           apply Hurls, Hsub, Hx.
        -- congruence.
      * intros Hnd. rewrite Hs, Hmap. now apply NoDup_erase.
    + pose proof (toggle_selected_fields throws ui1) as H.
      rewrite N1 in H. destruct H as (Hs & Hv & Hc).
      split.
      * split; [| split].
        -- rewrite Hc, (size_of_urls _ _ Hs).
           pose proof (clamp_range (selected ui1) 0 (size ui1 - 1)) as H.
           apply is_nil_length in N1. unfold size in *. lia.
        -- now apply (urls_ok_of_map (ui_sources ui1)).
        -- exact Hv.
      * intros Hnd. now rewrite Hs.
  - (* render *)
    pose proof (render_list_fields ui) as H.
    destruct (is_nil (ui_sources ui)) eqn:N.
    { rewrite H. split; [| auto]. split; [exact Hsel |]. split; assumption. }
    destruct H as (Hs & Hv & _ & Hc & _).
    split.
    + split; [| split].
      * unfold size in *. rewrite Hs. lia.
      * now rewrite Hs.
      * congruence.
    + intros Hnd. now rewrite Hs.
Qed.

(** X28 (main.cpp 1147-1202 and 1280-1369, the handlers of the Sources
    tab).  Whatever the user does in the tab (type, add, delete the
    selected or the disabled entries, toggle, move the selection, click a
    row, have the panel drawn) and in whatever order, the selection keeps
    pointing into the list (0 on an empty list), every URL in the list
    stays non-empty with a final slash, the list handed to the last save
    is the list shown, and a list without two entries of the same URL
    stays so. *)
Theorem sources_tab_invariant (events : list UiEvent) (ui : SourcesUI) :
  ui_ok ui ->
  ui_ok (fold_left ui_step events ui) /\
  (NoDup (map url (ui_sources ui)) ->
   NoDup (map url (ui_sources (fold_left ui_step events ui)))).
Proof.
  revert ui. induction events as [| e events IH]; intros ui Hok;
    cbn [fold_left]; [auto |].
  destruct (ui_step_ok ui e Hok) as [Hok1 Hnd1].
  destruct (IH _ Hok1) as [Hok2 Hnd2]. auto.
Qed.

Lemma sources_tab_invariant_witness :
  let ui := mkSourcesUI [] 0 0 [] (mkLog [] []) [] in
  let events :=
    [EvType (lit " http://a.example/maps "); EvAdd false;
     EvType (lit "http://b.example/maps/"); EvAdd false; EvDown; EvDown;
     EvType (lit "http://a.example/maps/"); EvAdd false; EvRender;
     EvClick 0 true false] in
  ui_ok (fold_left ui_step events ui) /\
  map url (ui_sources (fold_left ui_step events ui))
  = [lit "http://b.example/maps/"] /\
  selected (fold_left ui_step events ui) = 0.
Proof.
  cbn zeta. split; [| split; reflexivity].
  refine (proj1 (sources_tab_invariant _ (mkSourcesUI [] 0 0 []
                                            (mkLog [] []) []) _)).
  split; [cbn; lia |]. split; [constructor | reflexivity].
Defined.

Lemma enable_first_keeps (u : str) (l : list SourceEntry) (e : SourceEntry) :
  In e l -> url e <> u -> In e (enable_first u l).
Proof.
  intros Hin Hne. induction l as [| x l IH]; [destruct Hin |].
  cbn [enable_first]. destruct (str_eqb (url x) u) eqn:E.
  - destruct Hin as [<- | Hin]; [| now right].
    apply str_eqb_eq in E. contradiction.
  - destruct Hin as [<- | Hin]; [now left | right; now apply IH].
Qed.

Lemma enable_first_enables (u : str) (l : list SourceEntry) :
  has_url u l = true ->
  exists e, In e (enable_first u l) /\ url e = u /\ enabled e = true.
Proof.
  unfold has_url. induction l as [| x l IH]; [discriminate |].
  cbn [existsb enable_first]. destruct (str_eqb (url x) u) eqn:E.
  - intros _. apply str_eqb_eq in E.
    exists (mkSource (url x) true (last_latency_ms x) (last_ok x)).
    split; [now left | split; [exact E | reflexivity]].
  - cbn [orb]. intros H. destruct (IH H) as [e [He Hu]].
    exists e. split; [now right | exact Hu].
Qed.

Lemma has_url_none (u : str) (l : list SourceEntry) :
  (forall x, In x l -> url x <> u) -> has_url u l = false.
Proof.
  unfold has_url. induction l as [| x l IH]; intros H; [reflexivity |].
  cbn [existsb]. rewrite (str_eqb_neq _ _ (H x (or_introl eq_refl))).
  apply IH. intros y Hy. apply H. now right.
Qed.

Lemma has_url_some (u : str) (pre post : list SourceEntry)
    (e : SourceEntry) :
  url e = u -> has_url u (pre ++ e :: post) = true.
Proof.
  intros E. unfold has_url. rewrite existsb_app. cbn [existsb].
  rewrite E, str_eqb_refl. now rewrite orb_true_r.
Qed.

Lemma enable_first_split (u : str) (pre post : list SourceEntry)
    (e : SourceEntry) :
  url e = u -> (forall x, In x pre -> url x <> u) ->
  enable_first u (pre ++ e :: post)
  = pre ++ mkSource u true (last_latency_ms e) (last_ok e) :: post.
Proof.
  intros E. induction pre as [| x pre IH]; intros H; cbn [app enable_first].
  - now rewrite E, str_eqb_refl.
  - rewrite (str_eqb_neq _ _ (H x (or_introl eq_refl))). f_equal.
    apply IH. intros y Hy. apply H. now right.
Qed.

(** X29 (main.cpp 1156-1177 with 139-150, the Add button and
    normalize_maps_url).  Adding white space changes nothing.  Adding
    anything else clears the input field and leaves the list with an
    enabled entry of the normalised URL: a new last entry when no entry
    had that URL, otherwise the first entry of that URL, switched on, the
    list no longer than before; every entry of another URL is kept, and
    the URLs keep their order.  The list that results is given entry by
    entry: with no entry of that URL it is the old list followed by the
    new entry, enabled, latency -1, not yet reached; otherwise it is the
    old list with the first entry of that URL enabled, its latency and
    its reachability kept, and every other entry, later entries of the
    same URL too, as it was. *)
Theorem add_btn_spec (throws : bool) (ui : SourcesUI) :
  let u := normalize_maps_url (add_url ui) in
  let ui' := add_btn throws ui in
  (u = [] -> ui' = ui) /\
  (u <> [] ->
   map url (ui_sources ui')
   = map url (ui_sources ui)
     ++ (if has_url u (ui_sources ui) then [] else [u]) /\
   (exists e, In e (ui_sources ui') /\ url e = u /\ enabled e = true) /\
   (forall e, In e (ui_sources ui) -> url e <> u ->
      In e (ui_sources ui')) /\
   add_url ui' = [] /\
   saved ui' = ui_sources ui' /\
   ((forall x, In x (ui_sources ui) -> url x <> u) ->
    ui_sources ui' = ui_sources ui ++ [mkSource u true (-1) false]) /\
   (forall pre e post,
      ui_sources ui = pre ++ e :: post ->
      url e = u -> (forall x, In x pre -> url x <> u) ->
      ui_sources ui'
      = pre ++ mkSource u true (last_latency_ms e) (last_ok e) :: post)).
Proof.
  cbn zeta. pose proof (add_btn_fields throws ui) as H. cbn zeta in H.
  destruct (normalize_maps_url (add_url ui)) as [| c u] eqn:U;
    cbn [empty] in H.
  - split; [intros _; exact H | congruence].
  - split; [discriminate |]. intros _.
    destruct H as (Hs & Hv & _ & Ha & _).
    assert (Hnone : (forall x, In x (ui_sources ui) -> url x <> c :: u) ->
                    ui_sources (add_btn throws ui)
                    = ui_sources ui ++ [mkSource (c :: u) true (-1) false]).
    { intros Hn. rewrite Hs. now rewrite (has_url_none _ _ Hn). }
    assert (Hfirst : forall pre e post,
               ui_sources ui = pre ++ e :: post ->
               url e = c :: u ->
               (forall x, In x pre -> url x <> c :: u) ->
               ui_sources (add_btn throws ui)
               = pre ++ mkSource (c :: u) true (last_latency_ms e)
                          (last_ok e) :: post).
    { intros pre e post El Ee Hpre. rewrite Hs, El.
      rewrite (has_url_some _ pre post e Ee).
      now apply enable_first_split. }
    rewrite Hs in *.
    destruct (has_url (c :: u) (ui_sources ui)) eqn:Hh.
    + split; [now rewrite enable_first_urls, app_nil_r |].
      split; [now apply enable_first_enables |].
      split; [intros e He Hu; now apply enable_first_keeps |].
      split; [exact Ha |]. split; [congruence |].
      split; [exact Hnone | exact Hfirst].
    + split; [now rewrite map_app |].
      split.
      * exists (mkSource (c :: u) true (-1) false).
        split; [apply in_or_app; right; now left | split; reflexivity].
      * split; [intros e He _; apply in_or_app; now left |].
        split; [exact Ha |]. split; [congruence |].
        split; [exact Hnone | exact Hfirst].
Qed.

Lemma add_btn_spec_witness :
  let a := lit "http://a.example/maps/" in
  let b := lit "http://b.example/maps/" in
  let ui := mkSourcesUI [mkSource b false 12 true; mkSource a false 30 true;
                         mkSource a false 44 false]
              0 0 (lit "  http://a.example/maps ") (mkLog [] []) [] in
  normalize_maps_url (add_url ui) <> [] /\
  ui_sources (add_btn false ui)
  = [mkSource b false 12 true; mkSource a true 30 true;
     mkSource a false 44 false].
Proof.
  cbn zeta. split; [discriminate |].
  destruct (add_btn_spec false
              (mkSourcesUI
                 [mkSource (lit "http://b.example/maps/") false 12 true;
                  mkSource (lit "http://a.example/maps/") false 30 true;
                  mkSource (lit "http://a.example/maps/") false 44 false]
                 0 0 (lit "  http://a.example/maps ") (mkLog [] []) []))
    as [_ H].
  destruct H as (_ & _ & _ & _ & _ & _ & H); [discriminate |].
  apply (H [mkSource (lit "http://b.example/maps/") false 12 true]
           (mkSource (lit "http://a.example/maps/") false 30 true)
           [mkSource (lit "http://a.example/maps/") false 44 false]).
  - reflexivity.
  - reflexivity.
  - intros x [<- | []]. discriminate.
Defined.

(** X30 (main.cpp 1221-1228 and 1320-1339, the renderer of the Sources
    panel and the click on a row).  After the panel is drawn with a list
    that is not empty, the selection points into the list, the scroll
    offset is between zero and the size less the 18 rows, and the selected
    entry is one of the 18 rows drawn; drawing again changes nothing; and
    a click on a drawn row selects the entry drawn there. *)
Theorem render_list_shows_selection (ui : SourcesUI) (row : Z)
    (throws : bool) :
  ui_sources ui <> [] ->
  let ui' := render_list ui in
  0 <= selected ui' < size ui' /\
  0 <= scroll ui' <= Z.max 0 (size ui' - list_height) /\
  scroll ui' <= selected ui' < scroll ui' + list_height /\
  render_list ui' = ui' /\
  (0 <= row < list_height -> scroll ui' + row < size ui' ->
   selected (click_row row false throws ui') = scroll ui' + row).
Proof.
  intros Hne. cbn zeta.
  assert (N : is_nil (ui_sources ui) = false)
    by (destruct (ui_sources ui); [contradiction | reflexivity]).
  pose proof (render_list_fields ui) as H. rewrite N in H.
  destruct H as (Hs & _ & _ & Hsel & Hscr & Hvis).
  assert (Hsize : size (render_list ui) = size ui)
    by (unfold size; now rewrite Hs).
  rewrite Hsize.
  set (ui' := render_list ui) in *.
  assert (N' : is_nil (ui_sources ui') = false) by now rewrite Hs.
  split; [lia |]. split; [exact Hscr |]. split; [exact Hvis |].
  split.
  - unfold render_list. rewrite N'. cbn [negb]. cbn zeta.
    assert (C1 : clamp (selected ui') 0 (size ui' - 1) = selected ui').
    { unfold clamp. rewrite Hsize.
      destruct (Z.ltb_spec (selected ui') 0); [lia |].
      destruct (Z.ltb_spec (size ui - 1) (selected ui')); [lia |].
      reflexivity. }
    rewrite C1.
    assert (E1 : set_selected (selected ui') ui' = ui') by now destruct ui'.
    rewrite E1.
    assert (C2 : clamp (scroll ui') 0 (Z.max 0 (size ui' - list_height))
                 = scroll ui').
    { unfold clamp. rewrite Hsize.
      destruct (Z.ltb_spec (scroll ui') 0); [lia |].
      destruct (Z.ltb_spec (Z.max 0 (size ui - list_height)) (scroll ui'));
        [lia | reflexivity]. }
    rewrite C2.
    assert (E2 : set_scroll (scroll ui') ui' = ui') by now destruct ui'.
    rewrite E2.
    destruct (Z.ltb_spec (selected ui') (scroll ui')); [lia |].
    destruct (Z.leb_spec (scroll ui' + list_height) (selected ui')); [lia |].
    reflexivity.
  - intros Hrow Hin. unfold click_row. rewrite N'. cbn [negb]. cbn zeta.
    rewrite Hsize.
    destruct (Z.leb_spec 0 (scroll ui' + row)); [| lia].
    destruct (Z.ltb_spec (scroll ui' + row) (size ui)); [| lia].
    cbn [andb].
    pose proof (toggle_selected_fields throws
                  (set_selected (scroll ui' + row) ui')) as Ht.
    cbn [set_selected ui_sources] in Ht. rewrite N' in Ht.
    destruct Ht as (_ & _ & Ht). rewrite Ht.
    cbn [set_selected selected]. unfold clamp, size.
    cbn [set_selected ui_sources]. fold (size ui'). rewrite Hsize.
    destruct (Z.ltb_spec (scroll ui' + row) 0); [lia |].
    destruct (Z.ltb_spec (size ui - 1) (scroll ui' + row)); [lia |].
    reflexivity.
Qed.

Lemma render_list_shows_selection_witness :
  let ui := mkSourcesUI (repeat default_source 40) 35 0 [] (mkLog [] []) [] in
  scroll (render_list ui) = 18 /\
  selected (click_row 3 false false (render_list ui)) = 21.
Proof.
  cbn zeta.
  destruct (render_list_shows_selection
              (mkSourcesUI (repeat default_source 40) 35 0 []
                 (mkLog [] []) []) 3 false)
    as (_ & _ & _ & _ & H); [discriminate |].
  split; [reflexivity |].
  rewrite H; [reflexivity | unfold list_height; lia | vm_compute; reflexivity].
Defined.
